(** * PHYS20161 coursework scripts: nuclear decay fit and bouncy ball

    A shallow embedding of the numeric kernels of [nuclear_decay.py] and
    [u95060ss_first_assignment_bouncy_ball.py], and the properties that the
    specification states about them.

    Every Python function is translated once, over an interface [Arith] of
    the operations the scripts apply to their numbers.  The interface has two
    instances:

    - [float_arith]: IEEE 754 binary64 with round-to-nearest-even, which is
      what a Python [float] and a numpy [float64] are.  It carries NaN,
      infinities, rounding and underflow, and it evaluates.
    - [Q_arith]: exact rational arithmetic, the idealisation against which
      the behaviour of the scripts is set.

    What the scripts do is decided on [float_arith].  A property is proved
    in any arithmetic where it does not depend on the numbers, and in
    binary64 where it depends on comparisons, on signs or on rounding; every
    input on which a statement of the specification fails is evaluated in
    binary64.  A lemma in exact arithmetic says what the idealisation does,
    not what the scripts do.

    Partial operations (an [IndexError], shapes that do not broadcast, an
    exhausted input) return [None]; loops that may run forever take fuel.
    The arithmetic is that of numpy in its default error state, in which an
    overflow gives an infinity.  [nuclear_decay.py] leaves that state in
    [read_in], which makes numpy raise on overflow: there a run of the model
    in which no operation overflows is a run of the script, and the
    properties of that script are stated of the calls that return.
    The file has three parts: the model, the properties that the
    specification states, and further properties of the two scripts. *)

From Stdlib Require Import String ZArith QArith Qabs Qround.
From Stdlib Require Import List Bool Sorted Lia Lqa Floats.
Import ListNotations.

#[global] Set Warnings "-inexact-float".

(** * Part I: the model *)

(** ** The numbers of the scripts *)

Class Arith (F : Type) : Type := {
  fadd : F -> F -> F;
  fsub : F -> F -> F;
  fmul : F -> F -> F;
  fdiv : F -> F -> F;
  fabs : F -> F;
  flt : F -> F -> bool;      (* Python [a < b] *)
  fle : F -> F -> bool;      (* Python [a <= b] *)
  fisnan : F -> bool;        (* [np.isnan] *)
  fint : Z -> F              (* a Python [int] operand converted to float *)
}.

Declare Scope num_scope.
Delimit Scope num_scope with num.
Infix "+" := fadd : num_scope.
Infix "-" := fsub : num_scope.
Infix "*" := fmul : num_scope.
Infix "/" := fdiv : num_scope.
Infix "<?" := flt (at level 70, no associativity) : num_scope.
Infix "<=?" := fle (at level 70, no associativity) : num_scope.
Notation "a >? b" := (flt b a) (at level 70, no associativity) : num_scope.
Notation "a >=? b" := (fle b a) (at level 70, no associativity) : num_scope.

(** Binary64.  The conversion of an integer is correctly rounded, as the
    conversion of a Python [int] is. *)
Definition float_of_Z (z : Z) : float :=
  SF2Prim (binary_normalize prec emax z 0 false).

#[global] Instance float_arith : Arith float := {
  fadd := PrimFloat.add;
  fsub := PrimFloat.sub;
  fmul := PrimFloat.mul;
  fdiv := PrimFloat.div;
  fabs := PrimFloat.abs;
  flt := PrimFloat.ltb;
  fle := PrimFloat.leb;
  fisnan := PrimFloat.is_nan;
  fint := float_of_Z
}.

(** Exact rationals.  There is no NaN. *)
Definition Qltb (a b : Q) : bool :=
  match a ?= b with Lt => true | _ => false end.

#[global] Instance Q_arith : Arith Q := {
  fadd := Qplus;
  fsub := Qminus;
  fmul := Qmult;
  fdiv := Qdiv;
  fabs := Qabs;
  flt := Qltb;
  fle := Qle_bool;
  fisnan := fun _ => false;
  fint := inject_Z
}.

(** ** Shared library operations *)

Section Numpy.
Context {F : Type} `{Arith F}.
Local Open Scope num_scope.

(** [np.sum] of a one-dimensional array: accumulation from zero.  numpy
    adds pairwise on long arrays; the order is this one on arrays of fewer
    than eight elements, and is immaterial in exact arithmetic.  What is
    proved below of a sum in binary64 (its sign, its rescaling by a power of
    two) is proved of each addition by itself. *)
Definition np_sum (xs : list F) : F := fold_left fadd xs (fint 0).

(** A Python slice [xs[:stop]]: a negative [stop] counts from the end. *)
Definition slice_to (stop : Z) (xs : list F) : list F :=
  let n := Z.of_nat (length xs) in
  firstn (Z.to_nat (if (stop <? 0)%Z then n + stop else stop)%Z) xs.
End Numpy.

(** ** u95060ss_first_assignment_bouncy_ball.py *)

Module Bounce.
Section Bounce.
Context {F : Type} `{Arith F}.
Local Open Scope num_scope.

(** [GRAVITATIONAL_ACCELERATION_CONSTANT = 9.807]: the decimal literal is
    the correctly rounded quotient of 9807 by 1000. *)
Definition GRAVITATIONAL_ACCELERATION_CONSTANT : F := fint 9807 / fint 1000.

(** The [while] loop of [calculate_height_values]; one unit of fuel per
    evaluation of the loop condition. *)
Fixpoint height_loop (fuel : nat) (new_height minimum_height
    energy_loss_coefficient : F) (height_list : list F) : option (list F) :=
  match fuel with
  | O => None
  | S fuel' =>
      if new_height >? minimum_height then
        let new_height := new_height * energy_loss_coefficient in
        height_loop fuel' new_height minimum_height energy_loss_coefficient
          (height_list ++ [new_height])
      else Some height_list
  end.

Definition calculate_height_values (fuel : nat) (initial_height
    minimum_height energy_loss_coefficient : F) : option (list F) :=
  height_loop fuel initial_height minimum_height energy_loss_coefficient [].

(** The number the function prints: [len(height_list)-1]. *)
Definition reported_bounces (height_list : list F) : Z :=
  Z.of_nat (length height_list) - 1.

Section Time.
Variable np_sqrt : F -> F.

Definition zeroth_bounce_time (initial_height : F) : F :=
  np_sqrt ((fint 2 * initial_height) / GRAVITATIONAL_ACCELERATION_CONSTANT).

Definition bounce_time (height : F) : F :=
  np_sqrt ((fint 8 * height) / GRAVITATIONAL_ACCELERATION_CONSTANT).

Definition bounce_time_list (height_list : list F) : list F :=
  map bounce_time
    (slice_to (Z.of_nat (length height_list) - 1) height_list).

Definition calculate_time_values (initial_height : F)
    (height_list : list F) : F :=
  np_sum (bounce_time_list height_list) + zeroth_bounce_time initial_height.
End Time.

(** *** The three validation loops of [main]

    An entry is what [float(input(...))] makes of one line typed by the
    user: [None] when it raises [ValueError], the parsed number otherwise. *)
Inductive verdict : Type :=
| Accept (value : F)
| Reprompt (message : string).

Definition initial_height_body (entry : option F) : verdict :=
  match entry with
  | None => Reprompt "Please enter a positive number"
  | Some initial_height =>
      if initial_height <=? fint 0 then
        Reprompt "Value must be greater than 0"
      else Accept initial_height
  end.

Definition minimum_height_body (initial_height : F) (entry : option F)
    : verdict :=
  match entry with
  | None => Reprompt "Please enter a positive number"
  | Some minimum_height =>
      if minimum_height <? fint 0 then
        Reprompt "Value must be greater than or equal to 0"
      else if minimum_height >=? initial_height then
        Reprompt "Minimum height must be greater than initial height"
      else Accept minimum_height
  end.

Definition energy_loss_coefficient_body (entry : option F) : verdict :=
  match entry with
  | None => Reprompt "Please enter a positive number between 0 and 1"
  | Some energy_loss_coefficient =>
      if (energy_loss_coefficient <=? fint 0)
         || (energy_loss_coefficient >=? fint 1) then
        Reprompt "Value must be more than 0 and less than 1"
      else Accept energy_loss_coefficient
  end.

(** [while True: ... continue ... break]: entries are consumed until the
    body accepts one.  The result is the accepted value, the messages
    printed on the way and the entries left; [None] when the input ends
    first. *)
Fixpoint validation_loop (body : option F -> verdict)
    (entries : list (option F)) : option (F * list string * list (option F)) :=
  match entries with
  | [] => None
  | entry :: rest =>
      match body entry with
      | Accept value => Some (value, [], rest)
      | Reprompt message =>
          match validation_loop body rest with
          | Some (value, messages, rest') =>
              Some (value, message :: messages, rest')
          | None => None
          end
      end
  end.

(** The inputs [main] hands to the two calculations. *)
Definition read_inputs (entries : list (option F)) : option (F * F * F) :=
  match validation_loop initial_height_body entries with
  | None => None
  | Some (initial_height, _, entries) =>
      match validation_loop (minimum_height_body initial_height) entries with
      | None => None
      | Some (minimum_height, _, entries) =>
          match validation_loop energy_loss_coefficient_body entries with
          | None => None
          | Some (energy_loss_coefficient, _, _) =>
              Some (initial_height, minimum_height, energy_loss_coefficient)
          end
      end
  end.

Definition main (fuel : nat) (np_sqrt : F -> F) (entries : list (option F))
    : option (list F * F) :=
  match read_inputs entries with
  | None => None
  | Some (initial_height, minimum_height, energy_loss_coefficient) =>
      match calculate_height_values fuel initial_height minimum_height
              energy_loss_coefficient with
      | None => None
      | Some height_list =>
          Some (height_list,
                calculate_time_values np_sqrt initial_height height_list)
      end
  end.
End Bounce.
End Bounce.

(** ** nuclear_decay.py

    The functions below compute as numpy does in its default error state.
    The first statement of [read_in], [np.seterr(all='warn', over='raise')],
    changes that state for the rest of the script: an operation of numpy
    that overflows then raises a [FloatingPointError] instead of giving an
    infinity (invalid operations, divisions by zero and underflows still
    give their IEEE result, with a warning).  The model does not carry that
    state.  On a call in which nothing overflows it returns what the script
    returns; where an operation overflows the script raises and returns
    nothing, while the model goes on with the infinity.  What a function of
    this script returns is therefore stated under the hypothesis that the
    call returns. *)

Module Decay.
Section Decay.
Context {F : Type} `{Arith F}.
Local Open Scope num_scope.

(** Sequencing of operations that may raise. *)
Local Notation "x <- e ;; k" :=
  (match e with Some x => k | None => None end)
  (at level 61, e at next level, right associativity).

(** One-dimensional arrays are lists; a two-dimensional array is the list
    of its rows. *)
Definition array := list F.
Definition array2 := list (list F).

(** An elementwise binary operation of numpy on one-dimensional arrays:
    equal lengths pair up, a length-one array is stretched, any other pair
    of shapes raises. *)
Definition broadcast {A : Type} (f : F -> F -> A) (xs ys : array)
    : option (list A) :=
  if (length xs =? length ys)%nat then
    Some (map (fun p => f (fst p) (snd p)) (combine xs ys))
  else
    match xs, ys with
    | [x], _ => Some (map (f x) ys)
    | _, [y] => Some (map (fun x => f x y) xs)
    | _, _ => None
    end.

(** [np.where(mask)] on a one-dimensional mask: the positions that hold
    [True], in increasing order. *)
Fixpoint where_from (start : nat) (mask : list bool) : list nat :=
  match mask with
  | [] => []
  | b :: mask' =>
      if b then start :: where_from (S start) mask'
      else where_from (S start) mask'
  end.

Definition np_where (mask : list bool) : list nat := where_from 0 mask.

(** [xs[indexes]]: indexing by an array of positions. *)
Fixpoint take (xs : array) (indexes : list nat) : option array :=
  match indexes with
  | [] => Some []
  | i :: indexes' =>
      x <- nth_error xs i ;;
      rest <- take xs indexes' ;;
      Some (x :: rest)
  end.

(** [np.transpose([a, b, c])] of three arrays of one length. *)
Fixpoint transpose3 (a b c : array) : array2 :=
  match a, b, c with
  | x :: a', y :: b', z :: c' => [x; y; z] :: transpose3 a' b' c'
  | _, _, _ => []
  end.

(** [row[i] = v], for [i] within the row. *)
Definition set_item (i : nat) (v : F) (row : list F) : list F :=
  firstn i row ++ v :: skipn (S i) row.

Definition data_is_not_null (datapoints : F) : bool :=
  if fisnan datapoints then false else true.

(** The body of the [for] loop of [remove_null_values]: the row after the
    assignments made to it in place, and [null_filtered_data] after the
    [vstack].  The conjunction is evaluated left to right and stops at the
    first null. *)
Definition remove_null_row (row : list F) (null_filtered_data : array2)
    : option (list F * array2) :=
  r0 <- nth_error row 0 ;;
  if data_is_not_null r0 then
    r1 <- nth_error row 1 ;;
    if data_is_not_null r1 then
      r2 <- nth_error row 2 ;;
      if data_is_not_null r2 then
        let row := set_item 0 (r0 * fint 3600) row in
        r1 <- nth_error row 1 ;;
        let row := set_item 1 (r1 * fint (10 ^ 12)) row in
        r2 <- nth_error row 2 ;;
        let row := set_item 2 (r2 * fint (10 ^ 12)) row in
        t0 <- nth_error row 0 ;;
        t1 <- nth_error row 1 ;;
        t2 <- nth_error row 2 ;;
        let temp := [t0; t1; t2] in
        Some (row, null_filtered_data ++ [temp])
      else Some (row, null_filtered_data)
    else Some (row, null_filtered_data)
  else Some (row, null_filtered_data).

Fixpoint remove_null_loop (file_ab : array2) (null_filtered_data : array2)
    : option (array2 * array2) :=
  match file_ab with
  | [] => Some ([], null_filtered_data)
  | row :: rest =>
      step <- remove_null_row row null_filtered_data ;;
      tail <- remove_null_loop rest (snd step) ;;
      Some (fst step :: fst tail, snd tail)
  end.

(** The result pairs [file_ab] as the loop leaves it (its rows are written
    in place) with the returned [null_filtered_data]. *)
Definition remove_null_values (file_ab : array2) : option (array2 * array2) :=
  remove_null_loop file_ab [].

Definition remove_outliers (trial_activity time activity
    activity_uncertainty : array) : option array2 :=
  deviation <- broadcast fsub trial_activity activity ;;
  mask <- broadcast flt (map fabs deviation)
            (map (fun u => fint 3 * u) activity_uncertainty) ;;
  let filtered_indexes := np_where mask in
  outlier_filtered_time <- take time filtered_indexes ;;
  outlier_filtered_activity <- take activity filtered_indexes ;;
  outlier_filtered_activity_uncertainty <-
    take activity_uncertainty filtered_indexes ;;
  let temp := transpose3 outlier_filtered_time outlier_filtered_activity
                outlier_filtered_activity_uncertainty in
  Some ([] ++ temp).

(** [x**2] on a float array is numpy's [square]: [x*x]. *)
Definition square (x : F) : F := x * x.

(** The first statement of [chi_squared_value]. *)
Definition chi_squared (dependent_variable error
    predicted_dependent_variable : array) : option F :=
  residual <- broadcast fsub dependent_variable predicted_dependent_variable ;;
  terms <- broadcast fdiv (map square residual) (map square error) ;;
  Some (np_sum terms).

Definition chi_squared_value (independent_variable dependent_variable error
    predicted_dependent_variable : array) (dataset : array2) : option F :=
  chi_squared <- chi_squared dependent_variable error
                   predicted_dependent_variable ;;
  let row_numbers := Z.of_nat (length independent_variable) in
  row0 <- nth_error dataset 0 ;;
  let column_numbers := (Z.of_nat (length row0) - 1)%Z in
  let degrees_of_freedom := (row_numbers - column_numbers)%Z in
  let reduced_chi_squared := chi_squared / fint degrees_of_freedom in
  Some reduced_chi_squared.

(** [a[:, i]]: one column of a two-dimensional array. *)
Fixpoint column (i : nat) (a : array2) : option array :=
  match a with
  | [] => Some []
  | row :: rows =>
      x <- nth_error row i ;;
      rest <- column i rows ;;
      Some (x :: rest)
  end.

(** What [np.genfromtxt] hands back for a file: a one-dimensional array when
    the file holds a single row (or a single column, or nothing), a
    two-dimensional one otherwise. *)
Inductive loaded : Type :=
| Line (values : array)
| Table (rows : array2).

(** [np.vstack((top, below))] for [top] of [columns] columns: a
    one-dimensional array is stacked as one row; a row of another width
    raises. *)
Definition vstack (columns : nat) (top : array2) (below : loaded)
    : option array2 :=
  let rows := match below with Line values => [values] | Table rows => rows end in
  if forallb (fun row => (length row =? columns)%nat) rows
  then Some (top ++ rows) else None.

(** [read_in], given what [genfromtxt] made of the two files.  Its first
    statement, [np.seterr(all='warn', over='raise')], is not modelled: see
    the head of this module. *)
Definition read_in (file_a file_b : loaded) : option array2 :=
  let file_ab := [] in
  file_ab <- vstack 3 file_ab file_a ;;
  file_ab <- vstack 3 file_ab file_b ;;
  Some file_ab.

(** The parts of the script that rest on functions of [math], numpy and
    scipy: these functions are parameters. *)
Section Fitting.
Variable fneg : F -> F.       (* unary minus *)
Variable e_power : F -> F.    (* [math.e ** x] *)
Variable np_log : F -> F.
Variable np_sqrt : F -> F.
Variable Avogadro : F.        (* [scipy.constants.Avogadro] *)

(** [scipy.optimize.curve_fit(f, xdata, ydata, p0, sigma)]: the fitted
    parameters and their covariance matrix, or an exception. *)
Variable curve_fit :
  (array -> F -> F -> array) -> array -> array -> list F -> option array ->
  option (list F * array2).

(** [Avogadro*10**-6]; the power of ten is the float nearest to 1e-06. *)
Definition INITIAL_STRONTIUM_NUCLEI_COUNT : F :=
  Avogadro * (fint 1 / fint (10 ^ 6)).
Definition INITIAL_RUBIDIUM_DECAY_CONSTANT : F := fint 5 / fint 10000.
Definition INITIAL_STRONTIUM_DECAY_CONSTANT : F := fint 5 / fint 1000.

(** [rubidium_activity] at one time. *)
Definition rubidium_activity_at (time strontium_decay_constant
    rubidium_decay_constant : F) : F :=
  let rubidium_nuclei_count :=
    INITIAL_STRONTIUM_NUCLEI_COUNT
    * (strontium_decay_constant
       / (rubidium_decay_constant - strontium_decay_constant))
    * (e_power (fneg strontium_decay_constant * time)
       - e_power (fneg rubidium_decay_constant * time)) in
  rubidium_decay_constant * rubidium_nuclei_count.

(** [rubidium_activity] on an array of times: every operation of the
    function is elementwise. *)
Definition rubidium_activity (time : array) (strontium_decay_constant
    rubidium_decay_constant : F) : array :=
  map (fun t => rubidium_activity_at t strontium_decay_constant
                  rubidium_decay_constant) time.

(** [plot_rubidium_activity] draws and saves a figure.  matplotlib is not
    modelled: its calls are taken to succeed.  Of the computation of the
    function itself [np.max(time)] fails, on an empty array. *)
Definition plot_rubidium_activity (time activity activity_uncertainty : array)
    (strontium_decay_constant rubidium_decay_constant : F) : option unit :=
  match time with
  | [] => None
  | _ :: _ => Some tt
  end.

(** [half_life]: the returned pair of half-lives in seconds, and the two
    uncertainties in minutes that it prints with them. *)
Definition half_life (final_fit : list F) (final_covariance : array2)
    : option ((F * F) * (F * F)) :=
  fit1 <- nth_error final_fit 1 ;;
  let rubidium_half_life := np_log (fint 2) / fit1 in
  fit0 <- nth_error final_fit 0 ;;
  let strontium_half_life := np_log (fint 2) / fit0 in
  covariance1 <- nth_error final_covariance 1 ;;
  covariance11 <- nth_error covariance1 1 ;;
  let rubidium_half_life_uncertainty :=
    rubidium_half_life / fint 60 * (np_sqrt covariance11 / fit1) in
  covariance0 <- nth_error final_covariance 0 ;;
  covariance00 <- nth_error covariance0 0 ;;
  let strontium_half_life_uncertainty :=
    strontium_half_life / fint 60 * (np_sqrt covariance00 / fit0) in
  Some ((rubidium_half_life, strontium_half_life),
        (rubidium_half_life_uncertainty, strontium_half_life_uncertainty)).

(** What a run of [main] leaves behind: the numbers it prints (before they
    are formatted), the filtered data, and the array written to
    [final_data.csv] when the user asks for it. *)
Record report : Type := {
  final_data : array2;
  reduced_chi_squared : F;
  half_lives : F * F;
  half_life_uncertainties : F * F;
  rubidium_decay_constant : F * F;
  strontium_decay_constant : F * F;
  activity_at_90_minutes : F;
  saved : option array2
}.

(** [main], given what [genfromtxt] made of the two files and the answer of
    the user to the last question.

    After [read_in] numpy raises a [FloatingPointError] where an operation
    overflows.  The model does not follow that flag: where the script would
    stop on an overflow the model goes on with an infinity.  A run of the
    script that reaches its end met no overflow, and of such a run the model
    returns the report; the properties of [main] are stated of the runs
    that return a report. *)
Definition main (file_a file_b : loaded) (save_data : string)
    : option report :=
  file_ab <- read_in file_a file_b ;;
  cleaned <- remove_null_values file_ab ;;
  let null_filtered_data := snd cleaned in
  time <- column 0 null_filtered_data ;;
  activity <- column 1 null_filtered_data ;;
  fitted <- curve_fit rubidium_activity time activity
              [INITIAL_STRONTIUM_DECAY_CONSTANT;
               INITIAL_RUBIDIUM_DECAY_CONSTANT] None ;;
  match fst fitted with
  | [initial_strontium_decay_constant; initial_rubidium_decay_constant] =>
      let fit := fst fitted in
      let trial_activity :=
        rubidium_activity time initial_strontium_decay_constant
          initial_rubidium_decay_constant in
      activity_uncertainty <- column 2 null_filtered_data ;;
      final_data <- remove_outliers trial_activity time activity
                      activity_uncertainty ;;
      final_time <- column 0 final_data ;;
      final_activity <- column 1 final_data ;;
      final_uncertainty <- column 2 final_data ;;
      refitted <- curve_fit rubidium_activity final_time final_activity
                    fit (Some final_uncertainty) ;;
      let final_fit := fst refitted in
      let final_covariance := snd refitted in
      fit1 <- nth_error final_fit 1 ;;
      fit0 <- nth_error final_fit 0 ;;
      _ <- plot_rubidium_activity final_time final_activity
             final_uncertainty fit1 fit0 ;;
      let ideal_activity := rubidium_activity final_time fit1 fit0 in
      reduced <- chi_squared_value final_time final_activity
                   final_uncertainty ideal_activity final_data ;;
      lives <- half_life final_fit final_covariance ;;
      let time_specific_activity :=
        rubidium_activity_at (fint 5400) fit1 fit0 in
      covariance1 <- nth_error final_covariance 1 ;;
      covariance11 <- nth_error covariance1 1 ;;
      covariance0 <- nth_error final_covariance 0 ;;
      covariance00 <- nth_error covariance0 0 ;;
      Some {| final_data := final_data;
              reduced_chi_squared := reduced;
              half_lives := fst lives;
              half_life_uncertainties := snd lives;
              rubidium_decay_constant := (fit1, np_sqrt covariance11);
              strontium_decay_constant := (fit0, np_sqrt covariance00);
              activity_at_90_minutes :=
                time_specific_activity / fint (10 ^ 12);
              saved := if String.eqb save_data "yes"
                       then Some final_data else None |}
  | _ => None
  end.
End Fitting.
End Decay.
End Decay.

(** ** Vocabulary of the properties *)

(** A list in which every element is strictly below the one before it. *)
Definition strictly_decreasing {F : Type} `{Arith F} (l : list F) : Prop :=
  Sorted (fun x y => flt y x = true) l.

(** In binary64: a run of [n] iterations of the height loop that pass the
    loop condition and end in a height which the multiplication rounds back
    to itself. *)
Fixpoint runs_into_fixpoint (n : nat) (h m c : float) : bool :=
  (m <? h)%float
  && match n with
     | O => PrimFloat.Leibniz.eqb (h * c)%float h
     | S n' => runs_into_fixpoint n' (h * c)%float m c
     end.

(** In exact arithmetic: after [n] further multiplications by [c] the height
    [h] is at or below the floor [m] as soon as
    [h * c <= m * (c + n * (1 - c))] (Bernoulli's inequality, with the
    division cleared). *)
Definition within_reach (n : nat) (h m c : Q) : Prop :=
  h * c <= m * (c + inject_Z (Z.of_nat n) * (1 - c)).

(** Fuel that suffices for a run from [initial_height] in exact arithmetic. *)
Definition enough_fuel (initial_height minimum_height c : Q) : nat :=
  S (Z.to_nat (Qceiling (initial_height * c / (minimum_height * (1 - c))))).

(** The heights that [n] multiplications by [c] make of [h], each the
    product of the one before it: [h*c], [(h*c)*c], ... *)
Fixpoint geometric {F : Type} `{Arith F} (n : nat) (h c : F) : list F :=
  match n with
  | O => []
  | S n' => fmul h c :: geometric n' (fmul h c) c
  end.

(** An entry of the user that is not the text "nan". *)
Definition entry_is_number (entry : option float) : Prop :=
  match entry with
  | Some x => is_nan x = false
  | None => True
  end.

Section Records.
Context {F : Type} `{Arith F}.
Local Open Scope num_scope.

(** A measurement record: time, activity, activity uncertainty. *)
Definition measurement : Type := F * F * F.

Definition as_row (r : measurement) : list F :=
  let '(t, a, u) := r in [t; a; u].

Definition no_field_missing (r : measurement) : bool :=
  let '(t, a, u) := r in
  negb (fisnan t) && negb (fisnan a) && negb (fisnan u).

(** Hours to seconds, tera-becquerel to becquerel. *)
Definition converted (r : measurement) : list F :=
  let '(t, a, u) := r in
  [t * fint 3600; a * fint (10 ^ 12); u * fint (10 ^ 12)].

(** One observation: the model prediction and the measurement record
    (time, activity, uncertainty) at one position of the four arrays that
    [remove_outliers] takes. *)
Definition observation : Type := F * F * F * F.

Definition prediction (o : observation) : F := fst (fst (fst o)).
Definition time (o : observation) : F := snd (fst (fst o)).
Definition activity (o : observation) : F := snd (fst o).
Definition activity_uncertainty (o : observation) : F := snd o.

(** The test of the filter: the distance between prediction and
    measurement is strictly below three uncertainties. *)
Definition within_three_sigma (o : observation) : bool :=
  fabs (prediction o - activity o) <? fint 3 * activity_uncertainty o.
End Records.

(** The rows that one file contributes to the stacked array. *)
Definition rows_of {F : Type} (file : @Decay.loaded F) : list (list F) :=
  match file with
  | Decay.Line values => [values]
  | Decay.Table rows => rows
  end.

(** In binary64: a row of three numbers, none of them NaN. *)
Definition complete_row (row : list float) : Prop :=
  length row = 3%nat /\ Forall (fun x => is_nan x = false) row.

Section CleanedRecords.
Context {F : Type} `{Arith F}.
Local Open Scope num_scope.

(** The fields of a record. *)
Definition time_of (r : measurement) : F := fst (fst r).
Definition activity_of (r : measurement) : F := snd (fst r).
Definition uncertainty_of (r : measurement) : F := snd r.

(** A complete record after the unit conversions of [remove_null_values]. *)
Definition converted_record (r : measurement) : measurement :=
  let '(t, a, u) := r in (t * fint 3600, a * fint (10 ^ 12), u * fint (10 ^ 12)).

(** The records that [remove_null_values] makes of the rows of a file. *)
Definition cleaned (records : list measurement) : list measurement :=
  map converted_record (filter no_field_missing records).

(** The test of the outlier filter on one record, for the activity that the
    trial fit predicts at each time. *)
Definition record_within_three_sigma (predict : F -> F) (r : measurement)
    : bool :=
  let '(t, a, u) := r in fabs (predict t - a) <? fint 3 * u.
End CleanedRecords.

(** In binary64: a row of time, activity and uncertainty that the fit can
    use: the time and the activity are numbers, the uncertainty is strictly
    positive. *)
Definition usable_row (row : list float) : Prop :=
  match row with
  | [t; a; u] =>
      is_nan t = false /\ is_nan a = false /\ (0 <? u)%float = true
  | _ => False
  end.

(** *** A run of the nuclear decay script on two small files

    Stand-ins for the library functions, to evaluate [main]: an exponential
    cut after its linear term, and a fitting routine that returns its start
    parameters with a fixed covariance matrix. *)
Definition example_e_power (x : float) : float := (1 + x)%float.
Definition example_np_log (x : float) : float := 0.6931471805599453%float.
Definition example_Avogadro : float := 6.02214076e23%float.

Definition example_curve_fit
    (f : list float -> float -> float -> list float)
    (xdata ydata p0 : list float) (sigma : option (list float))
    : option (list float * list (list float)) :=
  match xdata with
  | [] => None
  | _ :: _ => Some (p0, [[1e-8; 0]; [0; 1e-10]]%float)
  end.

(** Time in hours, activity and uncertainty in tera-becquerel; the first
    file has a row with a missing activity and an outlier, the second file
    holds a single row. *)
Definition example_file_a : @Decay.loaded float :=
  Decay.Table [[1; 5420; 100]; [2; nan; 50]; [2; 10800; 150];
               [2.5; 99999; 10]]%float.
Definition example_file_b : @Decay.loaded float :=
  Decay.Line [3; 16000; 200]%float.

Definition example_main (save_data : string) : option (@Decay.report float) :=
  Decay.main PrimFloat.opp example_e_power example_np_log PrimFloat.sqrt
    example_Avogadro example_curve_fit example_file_a example_file_b save_data.

(** *** Binary64 numbers in their order *)

(** The smallest normal number of binary64, 2^-1022 (about 2.2e-308). *)
Definition smallest_normal : float := 0x1p-1022%float.

(** The place of a strictly positive finite number among the numbers of the
    format, counted from the smallest one; zero for every other value. *)
Definition rank (x : spec_float) : Z :=
  match x with
  | S754_finite false m e => ((e - emin) * 2 ^ 53 + Zpos m)%Z
  | _ => 0%Z
  end.

(** Fuel that suffices for a run from [initial_height] in binary64. *)
Definition enough_fuel_binary64 (initial_height : float) : nat :=
  S (Z.to_nat (rank (Prim2SF initial_height))).

(** What [n] binary shifts ([shr_1]) leave of an integer [M]: the quotient
    by [2 ^ n], and a round bit that is set only when the remainder is at
    least one half. *)
Definition shifted (M n : Z) (mrs : shr_record) : Prop :=
  (0 <= shr_m mrs
   /\ 0 <= M - shr_m mrs * 2 ^ n < 2 ^ n
   /\ (shr_r mrs = true -> 2 ^ n <= 2 * (M - shr_m mrs * 2 ^ n)))%Z.

(** A binary64 value that is a finite number: neither an infinity nor NaN. *)
Definition finite_number (x : spec_float) : Prop :=
  match x with
  | S754_zero _ | S754_finite _ _ _ => True
  | S754_infinity _ | S754_nan => False
  end.

(** The specification-level view of a binary64 number ([spec_float]): a
    rounded result carries the sign it was given, unless it is NaN. *)
Definition has_sign (s : bool) (x : spec_float) : Prop :=
  match x with
  | S754_zero s' | S754_infinity s' | S754_finite s' _ _ => s' = s
  | S754_nan => True
  end.

(** Strictly positive: a positive finite number or plus infinity. *)
Definition is_positive (x : spec_float) : Prop :=
  match x with
  | S754_infinity false | S754_finite false _ _ => True
  | _ => False
  end.

(** Rescaling by a power of two, which binary64 does exactly away from
    overflow and underflow. *)

(** The binary64 number [x * 2 ^ j], when [x] is finite: the same mantissa,
    the exponent moved by [j]. *)
Definition scale (j : Z) (x : spec_float) : spec_float :=
  match x with
  | S754_finite s m e => S754_finite s m (e + j)
  | _ => x
  end.

(** The power of two [2 ^ j] as a binary64 number. *)
Definition power_of_two (j : Z) : spec_float :=
  S754_finite false 4503599627370496 (j - 52).

(** A normal number (a mantissa of 53 digits) whose magnitude is at least
    [2 ^ lo] and less than [2 ^ hi]. *)
Definition magnitude_between (lo hi : Z) (x : spec_float) : Prop :=
  match x with
  | S754_finite _ m e => Zpos (digits2_pos m) = prec /\ (lo <= e + 52 < hi)%Z
  | _ => False
  end.

(** Zero of either sign, or a number with the property [P]. *)
Definition zero_or (P : spec_float -> Prop) (x : spec_float) : Prop :=
  match x with
  | S754_zero _ => True
  | _ => P x
  end.

(** Zero, or a positive normal number with its exponent between [lo] and
    [hi]. *)
Definition steady (lo hi : Z) (x : spec_float) : Prop :=
  match x with
  | S754_zero false => True
  | S754_finite false m e => Zpos (digits2_pos m) = prec /\ (lo <= e <= hi)%Z
  | _ => False
  end.

(** * Part II: the properties *)

(** ** Rounding to binary64

    Facts about the rounding function of the specification of binary64
    ([binary_round_aux]), through which the products of the scripts go. *)

Module RoundingFacts.
Local Open Scope Z_scope.

Lemma binary_round_aux_sign (s : bool) (m e : Z) (l : location) :
  has_sign s (binary_round_aux prec emax s m e l).
Proof.
  unfold binary_round_aux.
  destruct (shr_fexp prec emax m e l) as [mrs' e'].
  destruct (shr_fexp prec emax _ e' loc_Exact) as [mrs'' e''].
  destruct (shr_m mrs''); [reflexivity| |exact I].
  destruct (Z.leb e'' (emax - prec)); reflexivity.
Qed.

(** The number of digits of a mantissa is its binary logarithm plus one. *)
Lemma digits2_pos_size (m : positive) : digits2_pos m = Pos.size m.
Proof. induction m as [m IH|m IH|]; cbn; congruence. Qed.

Lemma digits2_pos_log2 (m : positive) :
  Zpos (digits2_pos m) = Z.log2 (Zpos m) + 1.
Proof.
  rewrite digits2_pos_size.
  change (Zpos (Pos.size m)) with (Z.log2 (Zpos m~0)).
  change (Zpos m~0) with (2 * Zpos m).
  rewrite Z.log2_double by lia. lia.
Qed.

(** One shift halves the mantissa; [n] shifts divide it by [2 ^ n]. *)
Lemma shr_1_half (mrs : shr_record) :
  0 <= shr_m mrs -> shr_m (shr_1 mrs) = shr_m mrs / 2.
Proof.
  destruct mrs as [m r s]. cbn. intros Hm.
  destruct m as [|[p|p|]|p]; cbn; try lia; try reflexivity.
  - now rewrite Pos2Z.inj_xI, Z.add_comm, Z.mul_comm, Z.div_add by lia.
  - now rewrite Pos2Z.inj_xO, Z.mul_comm, Z.div_mul by lia.
Qed.

Lemma shr_1_nonneg (mrs : shr_record) :
  0 <= shr_m mrs -> 0 <= shr_m (shr_1 mrs).
Proof.
  destruct mrs as [m r s]. cbn.
  destruct m as [|[p|p|]|[p|p|]]; cbn; lia.
Qed.

Lemma iter_shr_1 (p : positive) : forall mrs,
  0 <= shr_m mrs ->
  0 <= shr_m (iter_pos shr_1 p mrs)
  /\ shr_m (iter_pos shr_1 p mrs) = shr_m mrs / 2 ^ Zpos p.
Proof.
  induction p as [p IH|p IH|]; intros mrs Hm; cbn [iter_pos].
  - pose proof (shr_1_nonneg mrs Hm) as H1.
    destruct (IH _ H1) as [H2 E2]. destruct (IH _ H2) as [H3 E3].
    split; [exact H3|]. rewrite E3, E2, shr_1_half by exact Hm.
    pose proof (Z.pow_pos_nonneg 2 (Zpos p)) as Hpow.
    rewrite !Z.div_div by lia. f_equal.
    replace (Zpos p~1) with (1 + Zpos p + Zpos p) by lia.
    rewrite !Z.pow_add_r by lia. change (2 ^ 1) with 2. ring.
  - destruct (IH _ Hm) as [H2 E2]. destruct (IH _ H2) as [H3 E3].
    split; [exact H3|]. rewrite E3, E2.
    pose proof (Z.pow_pos_nonneg 2 (Zpos p)) as Hpow.
    rewrite !Z.div_div by lia. f_equal.
    replace (Zpos p~0) with (Zpos p + Zpos p) by lia.
    rewrite !Z.pow_add_r by lia. ring.
  - split; [now apply shr_1_nonneg | now apply shr_1_half].
Qed.

(** What a shift to the exponent of the format leaves of a mantissa. *)
Lemma shr_fexp_spec (m e : Z) (l : location) :
  0 <= m ->
  snd (shr_fexp prec emax m e l) = Z.max e (fexp prec emax (Zdigits2 m + e))
  /\ shr_m (fst (shr_fexp prec emax m e l))
     = m / 2 ^ (snd (shr_fexp prec emax m e l) - e).
Proof.
  intros Hm. set (e' := Z.max e (fexp prec emax (Zdigits2 m + e))).
  enough (snd (shr_fexp prec emax m e l) = e'
          /\ shr_m (fst (shr_fexp prec emax m e l)) = m / 2 ^ (e' - e))
    as [E1 E2] by (rewrite E1; auto).
  unfold shr_fexp, shr.
  assert (Hrec : shr_m (shr_record_of_loc m l) = m)
    by (destruct l as [|[]]; reflexivity).
  destruct (fexp prec emax (Zdigits2 m + e) - e) as [|p|p] eqn:En;
    cbn [fst snd].
  - split; [lia|]. replace (e' - e) with 0 by lia.
    now rewrite Hrec, Z.div_1_r.
  - assert (He : e' - e = Zpos p) by lia. split; [lia|]. rewrite He.
    rewrite <- Hrec at 2. apply iter_shr_1. now rewrite Hrec.
  - split; [lia|]. replace (e' - e) with 0 by lia.
    now rewrite Hrec, Z.div_1_r.
Qed.

Lemma round_nearest_even_bounds (m : Z) (l : location) :
  m <= round_nearest_even m l <= m + 1.
Proof. destruct l as [|[]]; cbn; try lia. destruct (Z.even m); lia. Qed.

(** Number of digits, and the exponent of the format, are monotone. *)
Lemma Zdigits2_le (a b : Z) : 0 <= a <= b -> Zdigits2 a <= Zdigits2 b.
Proof.
  intros [Ha Hab]. destruct a as [|a|a], b as [|b|b]; cbn [Zdigits2]; try lia.
  rewrite !digits2_pos_log2.
  pose proof (Z.log2_le_mono (Zpos a) (Zpos b) Hab). lia.
Qed.

Lemma Zdigits2_mul_pow2 (m : positive) (n : Z) :
  0 <= n -> Zdigits2 (Zpos m * 2 ^ n) = Zpos (digits2_pos m) + n.
Proof.
  intros Hn. pose proof (Z.pow_pos_nonneg 2 n ltac:(lia) Hn) as Hpow.
  assert (Hpos : 0 < Zpos m * 2 ^ n) by (apply Z.mul_pos_pos; lia).
  destruct (Zpos m * 2 ^ n) as [|q|q] eqn:E; try lia. cbn [Zdigits2].
  rewrite !digits2_pos_log2, <- E, Z.log2_mul_pow2 by lia. lia.
Qed.

Lemma fexp_le (a b : Z) : a <= b -> fexp prec emax a <= fexp prec emax b.
Proof. unfold fexp. lia. Qed.

(** Rounding a positive value strictly below a number of the format gives
    at most that number. *)
Lemma binary_round_aux_le (P : positive) (E : Z) (mh : positive) (eh : Z) :
  bounded prec emax mh eh = true ->
  E <= eh ->
  Zpos P < Zpos mh * 2 ^ (eh - E) ->
  SFleb (binary_round_aux prec emax false (Zpos P) E loc_Exact)
        (S754_finite false mh eh) = true.
Proof.
  intros Hb HE HP. unfold bounded, canonical_mantissa in Hb.
  apply andb_prop in Hb as [Hcan Hmax].
  apply Z.eqb_eq in Hcan. apply Z.leb_le in Hmax.
  unfold binary_round_aux.
  (* first shift *)
  pose proof (shr_fexp_spec (Zpos P) E loc_Exact ltac:(lia)) as S1.
  destruct (shr_fexp prec emax (Zpos P) E loc_Exact) as [mrs' e'].
  cbn [fst snd] in S1. destruct S1 as [He' Hm'].
  assert (Hd1 : Zdigits2 (Zpos P) + E <= Zpos (digits2_pos mh) + eh).
  { pose proof (Zdigits2_le (Zpos P) (Zpos mh * 2 ^ (eh - E)) ltac:(lia))
      as D.
    rewrite Zdigits2_mul_pow2 in D by lia. lia. }
  assert (He'h : E <= e' <= eh).
  { pose proof (fexp_le _ _ Hd1). lia. }
  set (H' := Zpos mh * 2 ^ (eh - e')).
  assert (Hm'lt : 0 <= shr_m mrs' < H').
  { rewrite Hm'. split; [apply Z.div_pos; [lia|apply Z.pow_pos_nonneg; lia]|].
    apply Z.div_lt_upper_bound; [apply Z.pow_pos_nonneg; lia|].
    unfold H'. rewrite Z.mul_comm, <- Z.mul_assoc, <- Z.pow_add_r by lia.
    replace (eh - e' + (e' - E)) with (eh - E) by lia. exact HP. }
  (* rounding *)
  pose proof (round_nearest_even_bounds (shr_m mrs') (loc_of_shr_record mrs'))
    as Hr.
  set (m1 := round_nearest_even (shr_m mrs') (loc_of_shr_record mrs')) in *.
  (* second shift *)
  pose proof (shr_fexp_spec m1 e' loc_Exact ltac:(lia)) as S2.
  destruct (shr_fexp prec emax m1 e' loc_Exact) as [mrs'' e''].
  cbn [fst snd] in S2. destruct S2 as [He'' Hm''].
  assert (Hd2 : Zdigits2 m1 + e' <= Zpos (digits2_pos mh) + eh).
  { pose proof (Zdigits2_le m1 H' ltac:(lia)) as D. unfold H' in D.
    rewrite Zdigits2_mul_pow2 in D by lia. lia. }
  assert (He''h : e' <= e'' <= eh).
  { pose proof (fexp_le _ _ Hd2). lia. }
  assert (Hm''le : shr_m mrs'' <= Zpos mh * 2 ^ (eh - e'')).
  { rewrite Hm''. apply Z.div_le_upper_bound; [apply Z.pow_pos_nonneg; lia|].
    rewrite Z.mul_comm, <- Z.mul_assoc, <- Z.pow_add_r by lia.
    replace (eh - e'' + (e'' - e')) with (eh - e') by lia. fold H'. lia. }
  destruct (shr_m mrs'') as [|m''|m''] eqn:Em.
  - reflexivity.
  - replace (e'' <=? emax - prec) with true by (symmetry; apply Z.leb_le; lia).
    unfold SFleb. cbn. destruct (Z.compare_spec e'' eh) as [Heq|Hlt|Hgt].
    + rewrite Heq, Z.sub_diag, Z.mul_1_r in Hm''le.
      change (Pos.compare_cont Eq m'' mh) with (Pos.compare m'' mh).
      destruct (Pos.compare_spec m'' mh); try reflexivity. lia.
    + reflexivity.
    + lia.
  - pose proof (Z.div_pos m1 (2 ^ (e'' - e')) ltac:(lia)
                  ltac:(apply Z.pow_pos_nonneg; lia)). lia.
Qed.

Lemma shr_fexp_nonneg (m e : Z) (l : location) :
  0 <= m -> 0 <= shr_m (fst (shr_fexp prec emax m e l)).
Proof.
  intros Hm. destruct (shr_fexp_spec m e l Hm) as [He ->].
  apply Z.div_pos; [exact Hm|]. apply Z.pow_pos_nonneg; lia.
Qed.

(** Rounding never makes a NaN of a number. *)
Lemma binary_round_aux_not_nan (s : bool) (m e : Z) (l : location) :
  0 <= m -> binary_round_aux prec emax s m e l <> S754_nan.
Proof.
  intros Hm. unfold binary_round_aux.
  pose proof (shr_fexp_nonneg m e l Hm) as H1.
  destruct (shr_fexp prec emax m e l) as [mrs' e']. cbn [fst] in H1.
  pose proof (round_nearest_even_bounds (shr_m mrs') (loc_of_shr_record mrs'))
    as Hr.
  pose proof (shr_fexp_nonneg _ e' loc_Exact (Z.le_trans _ _ _ H1 (proj1 Hr)))
    as H2.
  destruct (shr_fexp prec emax _ e' loc_Exact) as [mrs'' e'']. cbn [fst] in H2.
  destruct (shr_m mrs'') as [|p|p]; [discriminate| |lia].
  destruct (Z.leb e'' (emax - prec)); discriminate.
Qed.

(** A number of the format that lies strictly below a power of two, one at
    most, has a negative exponent and a mantissa below the matching power of
    two. *)
Lemma below_power_fraction (mc : positive) (ec : Z) (m1 : positive) (e1 : Z) :
  bounded prec emax mc ec = true ->
  Zpos m1 = 2 ^ (- e1) -> e1 <= -52 ->
  SFltb (S754_finite false mc ec) (S754_finite false m1 e1) = true ->
  ec < 0 /\ Zpos mc < 2 ^ (- ec).
Proof.
  intros Hb Hm1 He1 Hlt. unfold bounded, canonical_mantissa in Hb.
  apply andb_prop in Hb as [Hcan _]. apply Z.eqb_eq in Hcan.
  assert (Hdigits : Z.log2 (Zpos mc) < 53).
  { rewrite digits2_pos_log2 in Hcan. unfold fexp in Hcan.
    change prec with 53 in Hcan. lia. }
  apply Z.log2_lt_pow2 in Hdigits; [|lia].
  unfold SFltb in Hlt. cbn [SFcompare] in Hlt.
  rewrite Pos.compare_cont_spec in Hlt. cbn [Pos.switch_Eq] in Hlt.
  destruct (Z.compare_spec ec e1) as [Heq|Hl|Hg]; [| |discriminate Hlt].
  - split; [lia|]. subst e1. rewrite <- Hm1.
    destruct (Pos.compare_spec mc m1) as [?|Hmc|?];
      [discriminate Hlt| |discriminate Hlt].
    exact Hmc.
  - split; [lia|]. eapply Z.lt_le_trans; [exact Hdigits|].
    apply Z.pow_le_mono_r; lia.
Qed.
End RoundingFacts.

(** The round bit of a shift, and what it says of the rounded mantissa. *)
Module StrictRounding.
Local Open Scope Z_scope.

Lemma iter_pos_invariant {A : Type} (f : A -> A) (P : Z -> A -> Prop) :
  (forall n x, 0 <= n -> P n x -> P (n + 1) (f x)) ->
  forall p n x, 0 <= n -> P n x -> P (n + Zpos p) (iter_pos f p x).
Proof.
  intros Hf. induction p as [p IH|p IH|]; intros n x Hn Hx; cbn [iter_pos].
  - replace (n + Zpos p~1) with (n + 1 + Zpos p + Zpos p) by lia.
    apply IH; [lia|]. apply IH; [lia|]. now apply Hf.
  - replace (n + Zpos p~0) with (n + Zpos p + Zpos p) by lia.
    apply IH; [lia|]. now apply IH.
  - now apply Hf.
Qed.

Lemma shifted_shr_1 (M n : Z) (mrs : shr_record) :
  0 <= n -> shifted M n mrs -> shifted M (n + 1) (shr_1 mrs).
Proof.
  intros Hn (Hm & Hv & Hr). unfold shifted.
  rewrite Z.pow_add_r by lia. change (2 ^ 1) with 2.
  pose proof (Z.pow_pos_nonneg 2 n ltac:(lia) Hn) as Hpow.
  revert Hm Hv Hr. generalize (2 ^ n) Hpow. intros B HB.
  destruct mrs as [m r s]. cbn [shr_m shr_r shr_1].
  destruct m as [|[p|p|]|p]; cbn [shr_m shr_r]; intros Hm Hv Hr;
    try lia; (split; [lia|]); (split; [nia|]); intros Hb;
    try discriminate Hb; nia.
Qed.

Lemma shr_fexp_shifted (M e : Z) :
  0 <= M ->
  shifted M (snd (shr_fexp prec emax M e loc_Exact) - e)
    (fst (shr_fexp prec emax M e loc_Exact)).
Proof.
  intros HM. unfold shr_fexp, shr. cbn [shr_record_of_loc].
  assert (H0 : shifted M 0 {| shr_m := M; shr_r := false; shr_s := false |}).
  { unfold shifted. cbn [shr_m shr_r]. change (2 ^ 0) with 1.
    split; [lia|]. split; [lia|discriminate]. }
  destruct (fexp prec emax (Zdigits2 M + e) - e) as [|p|p]; cbn [fst snd].
  - now rewrite Z.sub_diag.
  - replace (e + Zpos p - e) with (0 + Zpos p) by lia.
    apply (iter_pos_invariant shr_1 (shifted M)); [|lia|exact H0].
    intros n x Hn. now apply shifted_shr_1.
  - now rewrite Z.sub_diag.
Qed.

(** Rounding to nearest goes up only on a set round bit. *)
Lemma round_up_bit (mrs : shr_record) :
  round_nearest_even (shr_m mrs) (loc_of_shr_record mrs) = shr_m mrs + 1 ->
  shr_r mrs = true.
Proof.
  destruct mrs as [m [|] [|]]; cbn; try reflexivity; lia.
Qed.

Lemma digits2_bounds (p : positive) :
  2 ^ (Zpos (digits2_pos p) - 1) <= Zpos p < 2 ^ Zpos (digits2_pos p).
Proof.
  rewrite RoundingFacts.digits2_pos_log2.
  replace (Z.log2 (Zpos p) + 1 - 1) with (Z.log2 (Zpos p)) by lia.
  pose proof (Z.log2_spec (Zpos p) ltac:(lia)) as L.
  replace (Z.succ (Z.log2 (Zpos p))) with (Z.log2 (Zpos p) + 1) in L by lia.
  exact L.
Qed.
(** The rounded product of a number of the format above the smallest normal
    number and of a fraction below one is not that number again. *)
Lemma binary_round_aux_fraction_moves (mh mc : positive) (eh ec : Z) :
  bounded prec emax mh eh = true ->
  bounded prec emax mc ec = true ->
  ec < 0 -> Zpos mc < 2 ^ (- ec) ->
  2 ^ 52 < Zpos mh * 2 ^ (eh - emin) ->
  binary_round_aux prec emax false (Zpos (mh * mc)) (eh + ec) loc_Exact
  <> S754_finite false mh eh.
Proof.
  intros Hbh Hbc Hec Hmc Hnormal Hround.
  unfold bounded, canonical_mantissa in Hbh, Hbc.
  apply andb_prop in Hbh as [Hcanh _]. apply Z.eqb_eq in Hcanh.
  apply andb_prop in Hbc as [Hcanc _]. apply Z.eqb_eq in Hcanc.
  pose proof (digits2_bounds mc) as Hdc.
  pose proof (digits2_bounds (mh * mc)) as HdP.
  assert (Hmc53 : Zpos mc < 2 ^ 53).
  { eapply Z.lt_le_trans; [exact (proj2 Hdc)|].
    apply Z.pow_le_mono_r; [lia|]. unfold fexp, emin in Hcanc.
    change prec with 53 in Hcanc. lia. }
  assert (Hemin : emin <= eh).
  { unfold fexp in Hcanh. lia. }
  unfold binary_round_aux in Hround.
  pose proof (RoundingFacts.shr_fexp_spec (Zpos (mh * mc)) (eh + ec) loc_Exact
                ltac:(lia)) as S1.
  pose proof (shr_fexp_shifted (Zpos (mh * mc)) (eh + ec) ltac:(lia)) as Sh.
  destruct (shr_fexp prec emax (Zpos (mh * mc)) (eh + ec) loc_Exact)
    as [mrs' e'].
  cbn [fst snd] in S1, Sh. destruct S1 as [He' _].
  destruct Sh as (Hm'0 & Hv & Hbit).
  pose proof (RoundingFacts.round_nearest_even_bounds (shr_m mrs')
                (loc_of_shr_record mrs')) as Hr.
  pose proof (round_up_bit mrs') as Hup.
  revert Hround Hr Hup.
  generalize (round_nearest_even (shr_m mrs') (loc_of_shr_record mrs')).
  intros m1 Hround Hr Hup.
  pose proof (RoundingFacts.shr_fexp_spec m1 e' loc_Exact ltac:(lia)) as S2.
  destruct (shr_fexp prec emax m1 e' loc_Exact) as [mrs'' e''].
  cbn [fst snd] in S2. destruct S2 as [He'' Hm''].
  destruct (shr_m mrs'') as [|m''|m'']; try discriminate Hround.
  destruct (e'' <=? emax - prec); try discriminate Hround.
  injection Hround as Em Ee. subst m'' e''.
  cbn [Zdigits2] in He'.
  (* the exponents *)
  assert (Hle : e' <= eh) by lia.
  assert (HE : eh + ec <= e') by lia.
  (* the powers of two at hand *)
  set (n1 := e' - (eh + ec)) in *.
  set (j := eh - e') in *.
  assert (Hk : - ec = n1 + j) by (unfold n1, j; lia).
  assert (Hn1 : 0 <= n1) by (unfold n1; lia).
  assert (Hj : 0 <= j) by (unfold j; lia).
  rewrite Hk, Z.pow_add_r in Hmc by lia.
  pose proof (Z.pow_pos_nonneg 2 n1 ltac:(lia) Hn1) as HA.
  pose proof (Z.pow_pos_nonneg 2 j ltac:(lia) Hj) as HJ.
  rewrite Pos2Z.inj_mul in *.
  (* the second shift is exact and gives back the mantissa *)
  assert (Hm1 : Zpos mh * 2 ^ j <= m1 < (Zpos mh + 1) * 2 ^ j).
  { rewrite (Z.div_mod m1 (2 ^ j)) by lia.
    pose proof (Z.mod_pos_bound m1 (2 ^ j) HJ). rewrite <- Hm''. nia. }
  assert (Hm' : shr_m mrs' < Zpos mh * 2 ^ j).
  { apply Z.mul_lt_mono_pos_r with (p := 2 ^ n1); [exact HA|]. nia. }
  assert (Hone : m1 = shr_m mrs' + 1) by lia.
  specialize (Hbit (Hup Hone)).
  (* so the mantissa of the height is below half the first shift *)
  assert (HG : 2 * Zpos mh <= 2 ^ n1).
  { assert (Hlow : (Zpos mh * 2 ^ j - 1) * 2 ^ n1 <= shr_m mrs' * 2 ^ n1)
      by (apply Z.mul_le_mono_nonneg_r; lia).
    assert (Hhigh : Zpos mh * Zpos mc <= Zpos mh * (2 ^ n1 * 2 ^ j - 1))
      by (apply Z.mul_le_mono_nonneg_l; lia).
    replace ((Zpos mh * 2 ^ j - 1) * 2 ^ n1)
      with (Zpos mh * (2 ^ n1 * 2 ^ j) - 2 ^ n1) in Hlow by ring.
    replace (Zpos mh * (2 ^ n1 * 2 ^ j - 1))
      with (Zpos mh * (2 ^ n1 * 2 ^ j) - Zpos mh) in Hhigh by ring.
    lia. }
  assert (Hn1pos : 0 < n1).
  { destruct (Z.eq_dec n1 0) as [Hz|]; [|lia]. rewrite Hz in HG.
    change (2 ^ 0) with 1 in HG. lia. }
  unfold fexp in He'.
  destruct (Z.le_ge_cases (emin)
              (Zpos (digits2_pos (mh * mc)) + (eh + ec) - prec)) as [Hbig|Hsmall].
  - (* the product is normal *)
    assert (Hd : Zpos (digits2_pos (mh * mc)) = n1 + 53).
    { unfold n1. change prec with 53 in *. lia. }
    rewrite Hd in HdP. replace (n1 + 53 - 1) with (n1 + 52) in HdP by lia.
    rewrite Z.pow_add_r in HdP by lia.
    assert (H53 : 2 ^ 53 = 2 * 2 ^ 52) by reflexivity.
    destruct HdP as [HdP _]. revert HdP Hmc53 HG HA. rewrite H53.
    generalize (2 ^ 52) (2 ^ n1). intros T A HdP Hmc53 HG HA.
    assert (H1 : 2 * (Zpos mh * Zpos mc) <= A * Zpos mc).
    { replace (2 * (Zpos mh * Zpos mc)) with (2 * Zpos mh * Zpos mc) by ring.
      apply Z.mul_le_mono_nonneg_r; lia. }
    assert (H2 : A * Zpos mc < A * (2 * T))
      by (apply Z.mul_lt_mono_pos_l; lia).
    lia.
  - (* the product is subnormal: the shift goes down to the least exponent *)
    assert (Hjj : eh - emin = j) by (unfold j; lia).
    rewrite Hjj in Hnormal.
    assert (H53 : 2 ^ 53 = 2 * 2 ^ 52) by reflexivity.
    assert (Hk54 : 4 * 2 ^ 52 <= 2 ^ n1 * 2 ^ j).
    { rewrite <- Z.pow_add_r by lia.
      assert (Hlt : 2 ^ 53 < 2 ^ (n1 + j)).
      { rewrite Z.pow_add_r by lia. rewrite H53.
        apply Z.lt_le_trans with (2 * (Zpos mh * 2 ^ j)); [lia|].
        replace (2 * (Zpos mh * 2 ^ j)) with (2 * Zpos mh * 2 ^ j) by ring.
        apply Z.mul_le_mono_nonneg_r; lia. }
      apply Z.pow_lt_mono_r_iff in Hlt; [|lia|lia].
      change (4 * 2 ^ 52) with (2 ^ 54). apply Z.pow_le_mono_r; lia. }
    assert (Hm'eq : shr_m mrs' = Zpos mh * 2 ^ j - 1) by lia.
    rewrite Hm'eq in Hbit.
    revert Hk54 Hmc53 Hbit HA HJ. rewrite H53.
    generalize (2 ^ 52) (2 ^ n1) (2 ^ j). intros T A J.
    intros Hk54 Hmc53 Hbit HA HJ.
    assert (HY : (Zpos mh * J - 1) * A = Zpos mh * (A * J) - A) by ring.
    rewrite HY in Hbit.
    assert (H1 : 2 * (Zpos mh * Zpos mc) < Zpos mh * (A * J)).
    { replace (2 * (Zpos mh * Zpos mc)) with (Zpos mh * (2 * Zpos mc)) by ring.
      apply Z.mul_lt_mono_pos_l; lia. }
    assert (H2 : A * 1 <= A * (Zpos mh * J)).
    { apply Z.mul_le_mono_nonneg_l; [lia|].
      assert (0 < Zpos mh * J) by (apply Z.mul_pos_pos; lia). lia. }
    replace (A * (Zpos mh * J)) with (Zpos mh * (A * J)) in H2 by ring.
    lia.
Qed.
End StrictRounding.

(** Rounding away from the subnormal numbers and from overflow: the rounded
    mantissa does not depend on the exponent, so that a multiplication by a
    power of two commutes with the operations. *)
Module ScalingFacts.
Local Open Scope Z_scope.

(** A shift moves the exponent by the number of places, whatever the
    exponent is. *)
Lemma shr_exponent (mrs : shr_record) (e n : Z) :
  shr mrs e n = (fst (shr mrs 0 n), e + Z.max 0 n).
Proof. unfold shr. destruct n; cbn [fst]; f_equal; lia. Qed.

(** Away from the subnormal numbers the number of places of the shift is the
    number of digits in excess, whatever the exponent is. *)
Lemma shr_fexp_normal (m e : Z) (l : location) :
  emin <= Zdigits2 m + e - prec ->
  shr_fexp prec emax m e l
  = (fst (shr (shr_record_of_loc m l) 0 (Zdigits2 m - prec)),
     e + Z.max 0 (Zdigits2 m - prec)).
Proof.
  intros H. unfold shr_fexp.
  replace (fexp prec emax (Zdigits2 m + e) - e) with (Zdigits2 m - prec)
    by (unfold fexp; lia).
  apply shr_exponent.
Qed.

Lemma shr_mantissa (m n : Z) (l : location) :
  0 <= m ->
  shr_m (fst (shr (shr_record_of_loc m l) 0 n)) = m / 2 ^ Z.max 0 n.
Proof.
  intros Hm.
  assert (Hrec : shr_m (shr_record_of_loc m l) = m)
    by (destruct l as [|[]]; reflexivity).
  unfold shr. destruct n as [|p|p]; cbn [fst].
  - now rewrite Hrec, Z.div_1_r.
  - replace (Z.max 0 (Zpos p)) with (Zpos p) by lia.
    rewrite <- Hrec at 2. apply RoundingFacts.iter_shr_1. now rewrite Hrec.
  - now rewrite Hrec, Z.div_1_r.
Qed.

(** The number of digits of an integer between two powers of two. *)
Lemma digits2_of_bounds (z d : Z) :
  0 < d -> 2 ^ (d - 1) <= z < 2 ^ d -> Zdigits2 z = d.
Proof.
  intros Hd [Hlow Hhigh].
  pose proof (Z.pow_pos_nonneg 2 (d - 1) ltac:(lia) ltac:(lia)) as Hpow.
  destruct z as [|p|p]; try lia. cbn [Zdigits2].
  rewrite RoundingFacts.digits2_pos_log2.
  rewrite (Z.log2_unique (Zpos p) (d - 1)); [lia|lia|].
  replace (Z.succ (d - 1)) with d by lia. lia.
Qed.

Lemma digits2_pos_of_bounds (p : positive) (d : Z) :
  0 < d -> 2 ^ (d - 1) <= Zpos p < 2 ^ d -> Zpos (digits2_pos p) = d.
Proof. intros Hd Hb. exact (digits2_of_bounds (Zpos p) d Hd Hb). Qed.

(** Rounding a mantissa of at least [prec] digits away from the subnormal
    numbers: the mantissa of the result and the move of the exponent depend
    on the mantissa only, not on the exponent. *)
Lemma binary_round_aux_normal (s : bool) (P : positive) (l : location) :
  prec <= Zpos (digits2_pos P) ->
  exists (m : positive) (off : Z),
    Zpos (digits2_pos m) = prec
    /\ Zpos (digits2_pos P) - prec <= off <= Zpos (digits2_pos P) - prec + 1
    /\ forall E, emin <= Zpos (digits2_pos P) + E - prec ->
         binary_round_aux prec emax s (Zpos P) E l
         = if E + off <=? emax - prec then S754_finite s m (E + off)
           else S754_infinity s.
Proof.
  intros Hd. assert (Hprec : prec = 53) by reflexivity.
  set (d := Zpos (digits2_pos P)) in *. set (n := d - prec).
  set (mrs1 := fst (shr (shr_record_of_loc (Zpos P) l) 0 n)).
  assert (Hq : 2 ^ (prec - 1) <= shr_m mrs1 < 2 ^ prec).
  { unfold mrs1. rewrite shr_mantissa by lia.
    replace (Z.max 0 n) with n by lia.
    pose proof (StrictRounding.digits2_bounds P) as [Hlow Hhigh]. fold d in Hlow, Hhigh.
    pose proof (Z.pow_pos_nonneg 2 n ltac:(lia) ltac:(lia)) as Hpow.
    split.
    - apply Z.div_le_lower_bound; [lia|].
      rewrite <- Z.pow_add_r by lia.
      replace (n + (prec - 1)) with (d - 1) by lia. exact Hlow.
    - apply Z.div_lt_upper_bound; [lia|].
      rewrite <- Z.pow_add_r by lia.
      replace (n + prec) with d by lia. exact Hhigh. }
  pose proof (RoundingFacts.round_nearest_even_bounds (shr_m mrs1)
                (loc_of_shr_record mrs1)) as Hr.
  set (m' := round_nearest_even (shr_m mrs1) (loc_of_shr_record mrs1)) in *.
  assert (Hstage1 : forall E, emin <= d + E - prec ->
            binary_round_aux prec emax s (Zpos P) E l
            = let '(mrs'', e'') := shr_fexp prec emax m' (E + n) loc_Exact in
              match shr_m mrs'' with
              | Z0 => S754_zero s
              | Zpos m => if e'' <=? emax - prec then S754_finite s m e''
                          else S754_infinity s
              | Zneg _ => S754_nan
              end).
  { intros E HE. unfold binary_round_aux.
    rewrite (shr_fexp_normal (Zpos P) E l) by (cbn [Zdigits2]; fold d; lia).
    cbn [Zdigits2]. fold d. fold n. fold mrs1.
    replace (Z.max 0 n) with n by lia. reflexivity. }
  destruct (Z.eq_dec m' (2 ^ prec)) as [Htop|Hbelow].
  - exists (Z.to_pos (2 ^ (prec - 1))), (n + 1).
    split; [reflexivity|]. split; [lia|].
    intros E HE. rewrite (Hstage1 E HE), Htop.
    rewrite shr_fexp_normal by (change (Zdigits2 (2 ^ prec)) with 54; lia).
    change (Zdigits2 (2 ^ prec) - prec) with 1.
    change (shr_m (fst (shr (shr_record_of_loc (2 ^ prec) loc_Exact) 0 1)))
      with (Zpos (Z.to_pos (2 ^ (prec - 1)))).
    replace (E + n + Z.max 0 1) with (E + (n + 1)) by lia. reflexivity.
  - assert (Hm' : 2 ^ (prec - 1) <= m' < 2 ^ prec) by lia.
    pose proof (digits2_of_bounds m' prec ltac:(lia) Hm') as Hd'.
    exists (Z.to_pos m'), n.
    assert (Hpos : Zpos (Z.to_pos m') = m').
    { apply Z2Pos.id.
      pose proof (Z.pow_pos_nonneg 2 (prec - 1) ltac:(lia) ltac:(lia)). lia. }
    split; [apply digits2_pos_of_bounds; [lia|rewrite Hpos; exact Hm']|].
    split; [lia|].
    intros E HE. rewrite (Hstage1 E HE).
    rewrite shr_fexp_normal by lia. rewrite Hd', Z.sub_diag.
    cbn [shr fst shr_record_of_loc shr_m]. rewrite <- Hpos at 1.
    replace (E + n + Z.max 0 0) with (E + n) by lia. reflexivity.
Qed.


(** Rounding a mantissa of [prec] digits followed by [n] zeros gives that
    mantissa back, whatever the sign. *)
Lemma binary_round_aux_representable (s : bool) (m : positive) (n E : Z) :
  Zpos (digits2_pos m) = prec -> 0 <= n -> emin <= E + n <= emax - prec ->
  binary_round_aux prec emax s (Zpos m * 2 ^ n) E loc_Exact
  = S754_finite s m (E + n).
Proof.
  intros Hd Hn HE. assert (Hprec : prec = 53) by reflexivity.
  pose proof (Z.pow_pos_nonneg 2 n ltac:(lia) Hn) as Hpow.
  pose proof (RoundingFacts.Zdigits2_mul_pow2 m n Hn) as HdP.
  set (P := Zpos m * 2 ^ n) in *.
  assert (HP : 0 <= P) by (unfold P; lia).
  pose proof (StrictRounding.shr_fexp_shifted P E HP) as Hs.
  unfold binary_round_aux.
  rewrite (shr_fexp_normal P E loc_Exact) in * by lia.
  cbn [fst snd] in Hs. rewrite HdP in *.
  replace (Zpos (digits2_pos m) + n - prec) with n in * by lia.
  replace (E + Z.max 0 n - E) with n in Hs by lia.
  set (mrs1 := fst (shr (shr_record_of_loc P loc_Exact) 0 n)) in *.
  assert (Hm1 : shr_m mrs1 = Zpos m).
  { unfold mrs1. rewrite shr_mantissa by exact HP.
    replace (Z.max 0 n) with n by lia. unfold P. apply Z.div_mul. lia. }
  destruct Hs as (_ & _ & Hbit). rewrite Hm1 in Hbit.
  assert (Hround : round_nearest_even (shr_m mrs1) (loc_of_shr_record mrs1)
                   = Zpos m).
  { pose proof (RoundingFacts.round_nearest_even_bounds (shr_m mrs1)
                  (loc_of_shr_record mrs1)) as Hr.
    destruct (Z.eq_dec (round_nearest_even (shr_m mrs1)
                          (loc_of_shr_record mrs1)) (shr_m mrs1 + 1))
      as [Hup|Hkeep]; [|lia].
    apply StrictRounding.round_up_bit in Hup. apply Hbit in Hup.
    unfold P in Hup. lia. }
  rewrite Hround.
  rewrite shr_fexp_normal by (cbn [Zdigits2]; lia).
  cbn [Zdigits2]. rewrite Hd, Z.sub_diag.
  cbn [shr fst shr_record_of_loc shr_m].
  replace (E + Z.max 0 n + Z.max 0 0) with (E + n) by lia.
  replace (E + n <=? emax - prec) with true
    by (symmetry; apply Z.leb_le; lia).
  reflexivity.
Qed.

(** The product of two mantissas of [prec] digits has [2 * prec - 1] digits
    or one more. *)
Lemma digits2_product (ma mb : positive) :
  Zpos (digits2_pos ma) = prec -> Zpos (digits2_pos mb) = prec ->
  2 * prec - 1 <= Zpos (digits2_pos (ma * mb)) <= 2 * prec.
Proof.
  intros Ha Hb. assert (Hprec : prec = 53) by reflexivity.
  pose proof (StrictRounding.digits2_bounds ma) as [La Ua].
  pose proof (StrictRounding.digits2_bounds mb) as [Lb Ub].
  rewrite Ha in La, Ua. rewrite Hb in Lb, Ub.
  assert (Hlow : 2 ^ (2 * prec - 2) <= Zpos (ma * mb)).
  { rewrite Pos2Z.inj_mul.
    replace (2 * prec - 2) with ((prec - 1) + (prec - 1)) by lia.
    rewrite Z.pow_add_r by lia. apply Z.mul_le_mono_nonneg; lia. }
  assert (Hhigh : Zpos (ma * mb) < 2 ^ (2 * prec)).
  { rewrite Pos2Z.inj_mul.
    replace (2 * prec) with (prec + prec) by lia.
    rewrite Z.pow_add_r by lia. apply Z.mul_lt_mono_nonneg; lia. }
  pose proof (StrictRounding.digits2_bounds (ma * mb)) as [L U].
  assert (H1 : 2 * prec - 2 < Zpos (digits2_pos (ma * mb))).
  { apply (Z.pow_lt_mono_r_iff 2); [lia|lia|].
    eapply Z.le_lt_trans; [exact Hlow|exact U]. }
  assert (H2 : Zpos (digits2_pos (ma * mb)) - 1 < 2 * prec).
  { apply (Z.pow_lt_mono_r_iff 2); [lia|lia|].
    eapply Z.le_lt_trans; [exact L|exact Hhigh]. }
  lia.
Qed.


(** The product of two normal numbers: mantissa and move of the exponent
    depend on the mantissas only. *)
Lemma SFmul_normal (sa sb : bool) (ma mb : positive) :
  Zpos (digits2_pos ma) = prec -> Zpos (digits2_pos mb) = prec ->
  exists (m : positive) (off : Z),
    Zpos (digits2_pos m) = prec
    /\ prec - 1 <= off <= prec + 1
    /\ forall ea eb, emin <= ea + eb + prec - 1 ->
         SFmul prec emax (S754_finite sa ma ea) (S754_finite sb mb eb)
         = if ea + eb + off <=? emax - prec
           then S754_finite (xorb sa sb) m (ea + eb + off)
           else S754_infinity (xorb sa sb).
Proof.
  intros Ha Hb. pose proof (digits2_product ma mb Ha Hb) as Hd.
  assert (Hprec : prec = 53) by reflexivity.
  destruct (binary_round_aux_normal (xorb sa sb) (ma * mb) loc_Exact
              ltac:(lia)) as (m & off & Hm & Hoff & Hround).
  exists m, off. split; [exact Hm|]. split; [lia|].
  intros ea eb He. cbn [SFmul]. apply Hround. lia.
Qed.

(** The product with a power of two is exact. *)
Lemma SFmul_power_of_two (j : Z) (s : bool) (m : positive) (e : Z) :
  Zpos (digits2_pos m) = prec -> emin <= e + j <= emax - prec ->
  SFmul prec emax (power_of_two j) (S754_finite s m e)
  = S754_finite s m (e + j).
Proof.
  intros Hm He. unfold power_of_two. cbn [SFmul xorb].
  rewrite Pos2Z.inj_mul, Z.mul_comm.
  change (Zpos 4503599627370496) with (2 ^ 52).
  rewrite binary_round_aux_representable by (try exact Hm; lia).
  f_equal. lia.
Qed.

(** The quotient of two normal numbers: mantissa and move of the exponent
    depend on the mantissas only. *)
Lemma SFdiv_normal (sa sb : bool) (ma mb : positive) :
  Zpos (digits2_pos ma) = prec -> Zpos (digits2_pos mb) = prec ->
  exists (m : positive) (off : Z),
    Zpos (digits2_pos m) = prec
    /\ - prec <= off <= - prec + 2
    /\ forall ea eb, emin <= ea - eb - prec ->
         SFdiv prec emax (S754_finite sa ma ea) (S754_finite sb mb eb)
         = if ea - eb + off <=? emax - prec
           then S754_finite (xorb sa sb) m (ea - eb + off)
           else S754_infinity (xorb sa sb).
Proof.
  intros Ha Hb. assert (Hprec : prec = 53) by reflexivity.
  pose proof (StrictRounding.digits2_bounds ma) as [La Ua].
  pose proof (StrictRounding.digits2_bounds mb) as [Lb Ub].
  rewrite Ha in La, Ua. rewrite Hb in Lb, Ub.
  destruct (Z.div_eucl (Zpos ma * 2 ^ prec) (Zpos mb)) as [q r] eqn:Ediv.
  pose proof (Z_div_mod (Zpos ma * 2 ^ prec) (Zpos mb) ltac:(lia)) as Hdiv.
  rewrite Ediv in Hdiv. destruct Hdiv as [Hdiv Hr].
  assert (Hq : 2 ^ (prec - 1) <= q < 2 ^ (prec + 1)).
  { replace (2 ^ (prec + 1)) with (2 * 2 ^ prec)
      by (rewrite Z.pow_add_r by lia; change (2 ^ 1) with 2; lia).
    pose proof (Z.pow_pos_nonneg 2 prec ltac:(lia) ltac:(lia)) as Hpow.
    pose proof (Z.pow_pos_nonneg 2 (prec - 1) ltac:(lia) ltac:(lia)) as Hpow'.
    assert (Hhalf : 2 ^ prec = 2 * 2 ^ (prec - 1)).
    { replace prec with (1 + (prec - 1)) at 1 by lia.
      rewrite Z.pow_add_r by lia. reflexivity. }
    split.
    - apply Z.nlt_ge. intros Hlt.
      assert (Zpos mb * q <= Zpos mb * (2 ^ (prec - 1) - 1))
        by (apply Z.mul_le_mono_nonneg_l; lia).
      assert (2 ^ (prec - 1) * 2 ^ prec <= Zpos ma * 2 ^ prec)
        by (apply Z.mul_le_mono_nonneg_r; lia).
      assert (Zpos mb * 2 ^ (prec - 1) <= 2 ^ prec * 2 ^ (prec - 1))
        by (apply Z.mul_le_mono_nonneg_r; lia).
      lia.
    - apply Z.nle_gt. intros Hge.
      assert (Zpos mb * (2 * 2 ^ prec) <= Zpos mb * q)
        by (apply Z.mul_le_mono_nonneg_l; lia).
      assert (Zpos ma * 2 ^ prec < 2 ^ prec * 2 ^ prec)
        by (apply Z.mul_lt_mono_pos_r; lia).
      assert (2 ^ (prec - 1) * (2 * 2 ^ prec) <= Zpos mb * (2 * 2 ^ prec))
        by (apply Z.mul_le_mono_nonneg_r; lia).
      lia. }
  pose proof (Z.pow_pos_nonneg 2 (prec - 1) ltac:(lia) ltac:(lia)) as Hpow'.
  destruct q as [|q|q]; try lia.
  assert (Hdq : prec <= Zpos (digits2_pos q) <= prec + 1).
  { pose proof (StrictRounding.digits2_bounds q) as [L U].
    assert (prec - 1 < Zpos (digits2_pos q)).
    { apply (Z.pow_lt_mono_r_iff 2); [lia|lia|]. lia. }
    assert (Zpos (digits2_pos q) - 1 < prec + 1).
    { apply (Z.pow_lt_mono_r_iff 2); [lia|lia|]. lia. }
    lia. }
  destruct (binary_round_aux_normal (xorb sa sb) q
              (new_location (Zpos mb) r) ltac:(lia))
    as (m & off & Hm & Hoff & Hround).
  exists m, (off - prec). split; [exact Hm|]. split; [lia|].
  intros ea eb He. cbn [SFdiv]. unfold SFdiv_core_binary.
  cbn [Zdigits2]. rewrite Ha, Hb.
  replace (Z.min (fexp prec emax (prec + ea - (prec + eb))) (ea - eb))
    with (ea - eb - prec) by (unfold fexp; lia).
  replace (ea - eb - (ea - eb - prec)) with prec by lia.
  change (match prec with
          | 0 => Zpos ma
          | Zpos _ => Z.shiftl (Zpos ma) prec
          | Zneg _ => 0
          end) with (Z.shiftl (Zpos ma) prec).
  rewrite Z.shiftl_mul_pow2 by lia. rewrite Ediv.
  rewrite Hround by lia.
  replace (ea - eb - prec + off) with (ea - eb + (off - prec)) by lia.
  reflexivity.
Qed.


(** The quotient by a power of two is exact. *)
Lemma SFdiv_power_of_two (i : Z) (s : bool) (m : positive) (e : Z) :
  Zpos (digits2_pos m) = prec -> emin < e - i <= emax - prec ->
  SFdiv prec emax (S754_finite s m e) (power_of_two i)
  = S754_finite s m (e - i).
Proof.
  intros Hm He. assert (Hprec : prec = 53) by reflexivity.
  unfold power_of_two. cbn [SFdiv]. unfold SFdiv_core_binary.
  cbn [Zdigits2]. rewrite Hm.
  change (Zpos (digits2_pos 4503599627370496)) with prec.
  replace (Z.min (fexp prec emax (prec + e - (prec + (i - 52))))
             (e - (i - 52)))
    with (e - i - 1) by (unfold fexp; lia).
  replace (e - (i - 52) - (e - i - 1)) with prec by lia.
  change (match prec with
          | 0 => Zpos m
          | Zpos _ => Z.shiftl (Zpos m) prec
          | Zneg _ => 0
          end) with (Z.shiftl (Zpos m) prec).
  rewrite Z.shiftl_mul_pow2 by lia.
  pose proof (Z_div_mod (Zpos m * 2 ^ prec) (Zpos 4503599627370496)
                ltac:(lia)) as Hdiv.
  destruct (Z.div_eucl (Zpos m * 2 ^ prec) (Zpos 4503599627370496))
    as [q r]. destruct Hdiv as [Hdiv Hr].
  change (2 ^ prec) with 9007199254740992 in Hdiv.
  assert (Hq : q = Zpos m * 2 ^ 1) by (change (2 ^ 1) with 2; lia).
  assert (Hr0 : r = 0) by lia. subst q r.
  change (new_location (Zpos 4503599627370496) 0) with loc_Exact.
  rewrite binary_round_aux_representable by (try exact Hm; lia).
  rewrite xorb_false_r. f_equal. lia.
Qed.


(** Rounding a mantissa after bringing it to at least [prec] digits. *)
Lemma binary_round_normal (s : bool) (p : positive) :
  exists (m : positive) (off : Z),
    Zpos (digits2_pos m) = prec
    /\ Zpos (digits2_pos p) - prec <= off <= Zpos (digits2_pos p) - prec + 1
    /\ forall e, emin <= Zpos (digits2_pos p) + e - prec ->
         binary_round prec emax s p e
         = if e + off <=? emax - prec then S754_finite s m (e + off)
           else S754_infinity s.
Proof.
  assert (Hprec : prec = 53) by reflexivity.
  set (d := Zpos (digits2_pos p)).
  destruct (Z.le_gt_cases prec d) as [Hlong|Hshort].
  - destruct (binary_round_aux_normal s p loc_Exact Hlong)
      as (m & off & Hm & Hoff & Hround).
    exists m, off. split; [exact Hm|]. split; [exact Hoff|].
    intros e He. unfold binary_round, shl_align. fold d.
    replace (fexp prec emax (d + e) - e) with (d - prec)
      by (unfold fexp; lia).
    destruct (d - prec) as [|k|k] eqn:Ek; try lia; now apply Hround.
  - destruct (prec - d) as [|k|k] eqn:Ek; try lia.
    assert (Hd : Zpos (digits2_pos (shift_pos k p)) = prec).
    { pose proof (RoundingFacts.Zdigits2_mul_pow2 p (Zpos k) ltac:(lia))
        as Hmul.
      rewrite Z.mul_comm in Hmul. change (2 ^ Zpos k) with (Z.pow_pos 2 k)
        in Hmul.
      rewrite <- shift_pos_correct in Hmul. cbn [Zdigits2] in Hmul.
      fold d in Hmul. lia. }
    destruct (binary_round_aux_normal s (shift_pos k p) loc_Exact ltac:(lia))
      as (m & off & Hm & Hoff & Hround).
    exists m, (off - Zpos k). split; [exact Hm|]. split; [lia|].
    intros e He. unfold binary_round, shl_align. fold d.
    replace (fexp prec emax (d + e) - e) with (Zneg k)
      by (unfold fexp; lia).
    change (Pos.iter xO p k) with (shift_pos k p).
    replace (fexp prec emax (d + e)) with (e - Zpos k)
      by (unfold fexp; lia).
    rewrite Hround by lia.
    replace (e - Zpos k + off) with (e + (off - Zpos k)) by lia.
    reflexivity.
Qed.

(** Aligning a mantissa to a smaller exponent does not make it smaller. *)
Lemma shl_align_grows (m : positive) (e e' : Z) :
  Zpos m <= Zpos (fst (shl_align m e e')).
Proof.
  unfold shl_align. destruct (e' - e) as [|k|k]; cbn [fst]; try lia.
  change (Pos.iter xO m k) with (shift_pos k m).
  rewrite shift_pos_correct.
  pose proof (Z.pow_pos_nonneg 2 (Zpos k) ltac:(lia) ltac:(lia)) as Hpow.
  change (Z.pow_pos 2 k) with (2 ^ Zpos k). nia.
Qed.

(** The sum of two positive normal numbers: mantissa and move of the
    exponent depend on the mantissas and on the difference of the exponents
    only. *)
Lemma SFadd_normal (ma mb : positive) (ea eb : Z) :
  Zpos (digits2_pos ma) = prec ->
  exists (m : positive) (off : Z),
    Zpos (digits2_pos m) = prec
    /\ 0 <= off
    /\ forall j, emin <= Z.min ea eb + j ->
         SFadd prec emax (S754_finite false ma (ea + j))
           (S754_finite false mb (eb + j))
         = if Z.min ea eb + j + off <=? emax - prec
           then S754_finite false m (Z.min ea eb + j + off)
           else S754_infinity false.
Proof.
  intros Ha. assert (Hprec : prec = 53) by reflexivity.
  set (ez := Z.min ea eb).
  set (pa := fst (shl_align ma ea ez)). set (pb := fst (shl_align mb eb ez)).
  assert (Hd : prec <= Zpos (digits2_pos (pa + pb))).
  { pose proof (shl_align_grows ma ea ez) as Hpa. fold pa in Hpa.
    pose proof (RoundingFacts.Zdigits2_le (Zpos ma) (Zpos (pa + pb))
                  ltac:(lia)) as Hle.
    cbn [Zdigits2] in Hle. lia. }
  destruct (binary_round_normal false (pa + pb))
    as (m & off & Hm & Hoff & Hround).
  exists m, off. split; [exact Hm|]. split; [lia|].
  intros j Hj. cbn [SFadd cond_Zopp].
  replace (Z.min (ea + j) (eb + j)) with (ez + j) by (unfold ez; lia).
  assert (Hsame : forall m0 e0,
            fst (shl_align m0 (e0 + j) (ez + j)) = fst (shl_align m0 e0 ez)).
  { intros m0 e0. unfold shl_align.
    replace (ez + j - (e0 + j)) with (ez - e0) by lia.
    destruct (ez - e0); reflexivity. }
  rewrite !Hsame. fold pa pb.
  change (Zpos pa + Zpos pb) with (Zpos (pa + pb)).
  cbn [binary_normalize]. apply Hround. lia.
Qed.


(** The conversion of a non-zero integer of at most 64 bits is a normal
    number with the sign of the integer. *)
Lemma float_of_Z_normal (z : Z) :
  z <> 0 -> Z.abs z < 2 ^ 64 ->
  exists (m : positive) (e : Z),
    Prim2SF (float_of_Z z) = S754_finite (z <? 0) m e
    /\ Zpos (digits2_pos m) = prec /\ -52 <= e <= 12.
Proof.
  intros Hz Hbound. assert (Hprec : prec = 53) by reflexivity.
  assert (Hemin : emin = -1074) by reflexivity.
  assert (Hemax : emax = 1024) by reflexivity.
  assert (Hround : forall (s : bool) (p : positive), Zpos p < 2 ^ 64 ->
            exists (m : positive) (e : Z),
              binary_round prec emax s p 0 = S754_finite s m e
              /\ Zpos (digits2_pos m) = prec /\ -52 <= e <= 12).
  { intros s p Hp.
    pose proof (StrictRounding.digits2_bounds p) as [L U].
    assert (Hd : Zpos (digits2_pos p) - 1 < 64).
    { apply (Z.pow_lt_mono_r_iff 2); [lia|lia|]. lia. }
    destruct (binary_round_normal s p) as (m & off & Hm & Hoff & Hr).
    exists m, off. rewrite (Hr 0) by lia. cbn [Z.add].
    replace (off <=? emax - prec) with true
      by (symmetry; apply Z.leb_le; lia).
    split; [reflexivity|]. split; [exact Hm|lia]. }
  assert (Hvalid : forall s m e, Zpos (digits2_pos m) = prec ->
            -52 <= e <= 12 -> valid_binary (S754_finite s m e) = true).
  { intros s m e Hm He. cbn [SpecFloat.valid_binary].
    unfold bounded, canonical_mantissa. rewrite Hm.
    apply andb_true_intro. split; [apply Z.eqb_eq|apply Z.leb_le].
    - unfold fexp. lia.
    - lia. }
  unfold float_of_Z. destruct z as [|p|p]; [congruence| |];
    cbn [binary_normalize Z.abs] in *;
    [destruct (Hround false p Hbound) as (m & e & -> & Hm & He)
    |destruct (Hround true p Hbound) as (m & e & -> & Hm & He)];
    exists m, e; (split; [|split; assumption]);
    now rewrite Prim2SF_SF2Prim by (apply Hvalid; assumption).
Qed.

End ScalingFacts.

(** ** Binary64 comparisons *)

Module FloatFacts.
Local Open Scope float_scope.

(** The specification-level view of a float is never NaN exactly when
    [is_nan] says so. *)
Lemma SFcompare_refl (x : spec_float) :
  x <> S754_nan -> SFcompare x x = Some Eq.
Proof.
  destruct x as [s|s| |s m e]; intros Hx; try congruence; cbn.
  - reflexivity.
  - now destruct s.
  - rewrite Z.compare_refl, Pos.compare_cont_refl. now destruct s.
Qed.

Lemma is_nan_spec (x : float) : is_nan x = true <-> Prim2SF x = S754_nan.
Proof.
  unfold is_nan. rewrite eqb_spec. unfold SFeqb. split.
  - destruct (Prim2SF x) as [s|s| |s m e] eqn:E; try reflexivity;
      rewrite SFcompare_refl by discriminate; discriminate.
  - intros ->. reflexivity.
Qed.

Lemma SFcompare_swap (x y : spec_float) :
  SFcompare y x = option_map CompOpp (SFcompare x y).
Proof.
  destruct x as [s|s| |s m e], y as [s'|s'| |s' m' e']; cbn;
    try reflexivity; try (now destruct s); try (now destruct s');
    try (now destruct s, s').
  rewrite (Z.compare_antisym e e').
  destruct s, s', (e ?= e')%Z; cbn; try reflexivity;
    rewrite ?Pos.compare_cont_antisym; cbn;
    now rewrite ?CompOpp_involutive.
Qed.

Lemma SFcompare_none (x y : spec_float) :
  SFcompare x y = None <-> x = S754_nan \/ y = S754_nan.
Proof.
  destruct x as [s|s| |s m e], y as [s'|s'| |s' m' e']; cbn;
    split; intros Hn; try discriminate Hn; auto;
    destruct Hn; discriminate.
Qed.

(** On numbers, [<=] and [>] are complementary; with a NaN on either side
    both are false. *)
Lemma leb_false (x y : float) :
  (x <=? y) = false <-> (y <? x) = true \/ is_nan x = true \/ is_nan y = true.
Proof.
  rewrite leb_spec, ltb_spec, !is_nan_spec. unfold SFleb, SFltb.
  rewrite (SFcompare_swap (Prim2SF x) (Prim2SF y)).
  pose proof (SFcompare_none (Prim2SF x) (Prim2SF y)) as Hn.
  destruct (SFcompare (Prim2SF x) (Prim2SF y)) as [[]|]; cbn;
    intuition congruence.
Qed.

Lemma ltb_false (x y : float) :
  (x <? y) = false <-> (y <=? x) = true \/ is_nan x = true \/ is_nan y = true.
Proof.
  rewrite leb_spec, ltb_spec, !is_nan_spec. unfold SFleb, SFltb.
  rewrite (SFcompare_swap (Prim2SF x) (Prim2SF y)).
  pose proof (SFcompare_none (Prim2SF x) (Prim2SF y)) as Hn.
  destruct (SFcompare (Prim2SF x) (Prim2SF y)) as [[]|]; cbn;
    intuition congruence.
Qed.

(** A NaN compares false with everything. *)
Lemma nan_ltb_l (x y : float) : is_nan x = true -> (x <? y) = false.
Proof. rewrite is_nan_spec, ltb_spec. intros ->. reflexivity. Qed.

Lemma nan_ltb_r (x y : float) : is_nan y = true -> (x <? y) = false.
Proof.
  rewrite is_nan_spec, ltb_spec. intros ->. unfold SFltb.
  now destruct (Prim2SF x).
Qed.

Lemma nan_leb_l (x y : float) : is_nan x = true -> (x <=? y) = false.
Proof. rewrite is_nan_spec, leb_spec. intros ->. reflexivity. Qed.

Lemma nan_leb_r (x y : float) : is_nan y = true -> (x <=? y) = false.
Proof.
  rewrite is_nan_spec, leb_spec. intros ->. unfold SFleb.
  now destruct (Prim2SF x).
Qed.

(** *** Signs *)

(** Nothing that is an absolute value lies strictly below a negative
    number, a zero or a NaN. *)
Lemma SFltb_abs_positive (x y : spec_float) :
  SFltb (SFabs x) y = true -> is_positive y.
Proof.
  unfold SFltb.
  destruct x as [sx|sx| |sx mx ex], y as [sy|sy| |sy my ey]; cbn;
    try discriminate; destruct sy; try discriminate; intros _; exact I.
Qed.

(** A product with a positive finite factor is positive only when the
    other factor is. *)
Lemma SFmul_positive (mc : positive) (ec : Z) (u : spec_float) :
  is_positive (SF64mul (S754_finite false mc ec) u) -> is_positive u.
Proof.
  destruct u as [s|s| |s m e]; cbn; try (intros []; fail);
    try (destruct s; intros []; exact I).
  pose proof (RoundingFacts.binary_round_aux_sign s (Z.pos (mc * m)) (ec + e)
                loc_Exact) as Hs.
  destruct (binary_round_aux prec emax s (Z.pos (mc * m)) (ec + e) loc_Exact)
    as [s'|s'| |s' m' e']; cbn in Hs |- *; try (intros []; fail);
    subst s'; destruct s; intros []; exact I.
Qed.

Lemma is_positive_ltb (u : float) :
  is_positive (Prim2SF u) -> (0 <? u) = true.
Proof.
  rewrite ltb_spec. change (Prim2SF 0) with (S754_zero false).
  unfold SFltb. destruct (Prim2SF u) as [s|s| |s m e]; cbn;
    try (intros []; fail); destruct s; intros []; reflexivity.
Qed.

(** The test of the outlier filter can only succeed on a strictly positive
    uncertainty. *)
Lemma within_three_sigma_positive (deviation u : float) :
  (abs deviation <? 3 * u) = true -> (0 <? u) = true.
Proof.
  rewrite ltb_spec, abs_spec, mul_spec. intros Hlt.
  apply SFltb_abs_positive in Hlt.
  apply is_positive_ltb.
  assert (E3 : exists m e, Prim2SF 3 = S754_finite false m e).
  { vm_compute. eauto. }
  destruct E3 as (m & e & E3). rewrite E3 in Hlt.
  exact (SFmul_positive m e _ Hlt).
Qed.

Lemma ltb_is_positive (u : float) :
  (0 <? u) = true -> is_positive (Prim2SF u).
Proof.
  rewrite ltb_spec. change (Prim2SF 0) with (S754_zero false).
  unfold SFltb. destruct (Prim2SF u) as [s|s| |s m e]; cbn;
    try discriminate; destruct s; try discriminate; intros _; exact I.
Qed.

(** A number strictly above a non-negative one is strictly positive. *)
Lemma above_floor_positive (m h : float) :
  (0 <=? m) = true -> (m <? h) = true -> (0 <? h) = true.
Proof.
  rewrite leb_spec, ltb_spec. change (Prim2SF 0) with (S754_zero false).
  intros Hm Hh. apply is_positive_ltb. revert Hm Hh. unfold SFleb, SFltb.
  destruct (Prim2SF m) as [s|s| |s mm em], (Prim2SF h) as [s'|s'| |s' mh eh];
    cbn; try discriminate;
    try (destruct s; try discriminate); try (destruct s'; try discriminate);
    intros _ _; exact I.
Qed.

(** The product of a strictly positive number and a strictly positive number
    below one is a number. *)
Lemma mul_fraction_not_nan (h c : float) :
  (0 <? h) = true -> (0 <? c) = true -> (c <? 1) = true ->
  is_nan (h * c) = false.
Proof.
  intros Hh Hc Hc1. apply ltb_is_positive in Hh, Hc.
  apply Bool.not_true_iff_false. rewrite is_nan_spec, mul_spec.
  rewrite ltb_spec in Hc1. revert Hc1. unfold SFltb.
  assert (E1 : exists m e, Prim2SF 1 = S754_finite false m e).
  { vm_compute. eauto. }
  destruct E1 as (m1 & e1 & ->).
  destruct (Prim2SF h) as [s|s| |s mh eh]; try contradiction;
    destruct s; try contradiction;
    destruct (Prim2SF c) as [s'|s'| |s' mc ec]; try contradiction;
    destruct s'; try contradiction; cbn; try discriminate.
  intros _. apply RoundingFacts.binary_round_aux_not_nan. lia.
Qed.

(** *** Products with a fraction *)

(** Multiplying a strictly positive number by a strictly positive number
    below one never gives more: rounding to nearest is monotone. *)
Lemma mul_fraction_le (h c : float) :
  (0 <? h) = true -> (0 <? c) = true -> (c <? 1) = true ->
  (h * c <=? h) = true.
Proof.
  intros Hh Hc Hc1. apply ltb_is_positive in Hh, Hc.
  rewrite leb_spec, mul_spec. rewrite ltb_spec in Hc1.
  assert (E1 : exists m1 e1, Prim2SF 1 = S754_finite false m1 e1
                             /\ Zpos m1 = (2 ^ (- e1))%Z /\ (e1 <= -52)%Z).
  { vm_compute. do 2 eexists. split; [reflexivity|].
    split; [reflexivity|discriminate]. }
  destruct E1 as (m1 & e1 & E1 & Hm1 & He1). rewrite E1 in Hc1. clear E1.
  pose proof (Prim2SF_valid h) as Vh. pose proof (Prim2SF_valid c) as Vc.
  destruct (Prim2SF h) as [s|s| |s mh eh]; try contradiction;
    destruct s; try contradiction;
    destruct (Prim2SF c) as [s'|s'| |s' mc ec]; try contradiction;
    destruct s'; try contradiction.
  - discriminate Hc1.
  - reflexivity.
  - discriminate Hc1.
  - cbn [valid_binary] in Vh, Vc.
    destruct (RoundingFacts.below_power_fraction mc ec m1 e1 Vc Hm1 He1 Hc1)
      as [Hec Hmc].
    unfold SF64mul, SFmul. cbn [xorb].
    apply RoundingFacts.binary_round_aux_le; [exact Vh|lia|].
    replace (eh - (eh + ec))%Z with (- ec)%Z by lia.
    rewrite Pos2Z.inj_mul. apply Zmult_lt_compat_l; lia.
Qed.

Lemma leb_cases (x y : float) :
  (x <=? y) = true -> (x <? y) = true \/ (x =? y) = true.
Proof.
  rewrite leb_spec, ltb_spec, eqb_spec. unfold SFleb, SFltb, SFeqb.
  destruct (SFcompare (Prim2SF x) (Prim2SF y)) as [[]|]; auto.
Qed.

(** Two numbers that compare equal, one of them strictly positive, are the
    same number. *)
Lemma eqb_positive_eq (x y : float) :
  (0 <? y) = true -> (x =? y) = true -> x = y.
Proof.
  intros Hy. apply ltb_is_positive in Hy. rewrite eqb_spec. unfold SFeqb.
  intros He. apply Prim2SF_inj. revert Hy He.
  destruct (Prim2SF x) as [s|s| |s m e], (Prim2SF y) as [s'|s'| |s' m' e'];
    cbn; try contradiction; try discriminate;
    destruct s'; try contradiction; destruct s; try discriminate;
    intros _; try reflexivity.
  destruct (Z.compare_spec e e') as [->| |]; try discriminate.
  change (Pos.compare_cont Eq m m') with (Pos.compare m m').
  destruct (Pos.compare_spec m m') as [->| |]; try discriminate.
  reflexivity.
Qed.

(** So such a product is strictly smaller, unless it is rounded back to the
    number itself. *)
Lemma mul_fraction_lt_or_stuck (h c : float) :
  (0 <? h) = true -> (0 <? c) = true -> (c <? 1) = true ->
  (h * c <? h) = true \/ h * c = h.
Proof.
  intros Hh Hc Hc1.
  destruct (leb_cases _ _ (mul_fraction_le h c Hh Hc Hc1)) as [Hlt|Heq];
    [now left|right].
  exact (eqb_positive_eq _ _ Hh Heq).
Qed.
End FloatFacts.

(** ** Exact arithmetic: order facts *)

Lemma Qltb_lt (a b : Q) : Qltb a b = true <-> a < b.
Proof.
  unfold Qltb. rewrite Qlt_alt. destruct (a ?= b); split; congruence.
Qed.

Lemma Qltb_ge (a b : Q) : Qltb a b = false <-> b <= a.
Proof.
  rewrite <- Bool.not_true_iff_false, Qltb_lt. split.
  - apply Qnot_lt_le.
  - intros Hle Hlt. exact (Qlt_not_le _ _ Hlt Hle).
Qed.

Lemma Qshrink (h c : Q) : 0 < h -> 0 < c -> c < 1 -> 0 < h * c /\ h * c < h.
Proof. intros. split; nra. Qed.

(** ** Constants *)

(** In binary64 the quotient that models the gravitational constant is the
    literal of the script. *)
Example GRAVITATIONAL_ACCELERATION_CONSTANT_binary64 :
  Bounce.GRAVITATIONAL_ACCELERATION_CONSTANT = 9.807%float.
Proof. reflexivity. Qed.

(** ** The height loop, in any arithmetic *)

Section HeightLoopFacts.
Context {F : Type} `{Arith F}.
Local Open Scope num_scope.
Variables minimum_height energy_loss_coefficient : F.

Local Abbreviation loop fuel h acc :=
  (Bounce.height_loop fuel h minimum_height energy_loss_coefficient acc).

(** The loop only ever appends to the list it was given. *)
Lemma height_loop_extends fuel : forall h acc l,
  loop fuel h acc = Some l -> exists p, l = acc ++ p.
Proof.
  induction fuel as [|fuel IH]; intros h acc l E; [discriminate|].
  cbn in E. destruct (h >? minimum_height).
  - apply IH in E. destruct E as [p ->].
    exists ((h * energy_loss_coefficient) :: p). now rewrite <- app_assoc.
  - injection E as <-. exists []. now rewrite app_nil_r.
Qed.

(** More fuel does not change a result. *)
Lemma height_loop_more_fuel fuel : forall extra h acc l,
  loop fuel h acc = Some l -> loop (fuel + extra) h acc = Some l.
Proof.
  induction fuel as [|fuel IH]; intros extra h acc l E; [discriminate|].
  cbn in E |- *. destruct (h >? minimum_height); [now apply IH | exact E].
Qed.

(** A height that passes the loop condition and that the multiplication
    leaves unchanged keeps the loop running for ever. *)
Lemma height_loop_stuck h :
  (h >? minimum_height) = true -> h * energy_loss_coefficient = h ->
  forall fuel acc, loop fuel h acc = None.
Proof.
  intros G E fuel. induction fuel as [|fuel IH]; intros acc; [reflexivity|].
  cbn. rewrite G, E. apply IH.
Qed.

(** When the loop is entered, what it appends ends with the first height
    that fails the loop condition, and every height before that one passes
    it.  That last height is the product of the coefficient and of a height
    that passed the loop condition. *)
Lemma height_loop_shape fuel : forall h acc l,
  (h >? minimum_height) = true -> loop fuel h acc = Some l ->
  exists p last previous,
    l = acc ++ p ++ [last]
    /\ Forall (fun x => (x >? minimum_height) = true) (h :: p)
    /\ (last >? minimum_height) = false
    /\ In previous (h :: p)
    /\ last = previous * energy_loss_coefficient.
Proof.
  induction fuel as [|fuel IH]; intros h acc l G E; [discriminate|].
  cbn in E. rewrite G in E.
  set (h' := h * energy_loss_coefficient) in *.
  destruct (h' >? minimum_height) eqn:G'.
  - destruct (IH _ _ _ G' E)
      as (p & last & previous & -> & Hp & Hl & Hin & Hprod).
    exists (h' :: p), last, previous. rewrite <- app_assoc. cbn [app].
    repeat split; auto. now right.
  - destruct fuel as [|fuel]; [discriminate|].
    cbn in E. fold h' in E. rewrite G' in E. injection E as <-.
    exists [], h', h. cbn [app]. repeat split; auto. now left.
Qed.
End HeightLoopFacts.

(** ** The heights decrease *)

(** In exact arithmetic. *)
Lemma height_loop_decreasing_exact (m c : Q) :
  0 < c -> c < 1 ->
  forall fuel h acc l,
  0 < h -> Bounce.height_loop fuel h m c acc = Some l ->
  exists p, l = acc ++ p /\ strictly_decreasing (h :: p).
Proof.
  intros Hc0 Hc1 fuel.
  induction fuel as [|fuel IH]; intros h acc l Hh E; [discriminate|].
  cbn in E. destruct (Qltb m h).
  - destruct (Qshrink _ _ Hh Hc0 Hc1) as [Hpos Hlt].
    destruct (IH _ _ _ Hpos E) as (p & -> & Hs).
    exists ((h * c) :: p). rewrite <- app_assoc.
    split; [reflexivity|]. constructor; [exact Hs|].
    constructor. now apply Qltb_lt.
  - injection E as <-. exists []. rewrite app_nil_r.
    split; [reflexivity|]. repeat constructor.
Qed.

Lemma calculate_height_values_strictly_decreasing_exact
    (fuel : nat) (h0 m c : Q) (l : list Q) :
  0 < h0 -> 0 < c -> c < 1 ->
  Bounce.calculate_height_values fuel h0 m c = Some l ->
  strictly_decreasing (h0 :: l).
Proof.
  intros Hh0 Hc0 Hc1 E.
  destruct (height_loop_decreasing_exact m c Hc0 Hc1 fuel h0 [] l Hh0 E)
    as (p & -> & Hs).
  exact Hs.
Qed.

(** In binary64: a product with the coefficient is never above the height,
    and where it is rounded back to the height itself the loop never
    returns. *)
Lemma height_loop_decreasing_binary64 (m c : float) :
  (0 <=? m)%float = true -> (0 <? c)%float = true -> (c <? 1)%float = true ->
  forall fuel h acc l,
  Bounce.height_loop fuel h m c acc = Some l ->
  exists p, l = acc ++ p /\ strictly_decreasing (h :: p).
Proof.
  intros Hm Hc0 Hc1 fuel.
  induction fuel as [|fuel IH]; intros h acc l E; [discriminate|].
  cbn [Bounce.height_loop] in E. destruct (flt m h) eqn:G.
  - pose proof (FloatFacts.above_floor_positive m h Hm G) as Hh.
    destruct (FloatFacts.mul_fraction_lt_or_stuck h c Hh Hc0 Hc1)
      as [Hlt|Hstuck].
    + destruct (IH _ _ _ E) as (p & -> & Hs).
      exists (fmul h c :: p). rewrite <- app_assoc.
      split; [reflexivity|]. constructor; [exact Hs|].
      constructor. exact Hlt.
    + change (fmul h c) with (h * c)%float in E. rewrite Hstuck in E.
      now rewrite (height_loop_stuck m c h G Hstuck) in E.
  - injection E as <-. exists []. rewrite app_nil_r.
    split; [reflexivity|]. repeat constructor.
Qed.

(** C4. For every valid input triple (initial height > 0, 0 <= minimum height
    < initial height, 0 < coefficient < 1), the height list returned by
    [calculate_height_values] is strictly decreasing: each element is
    strictly smaller than its predecessor, and the first element is strictly
    smaller than the initial height.  Stated in binary64, for the list
    returned with any amount of fuel. *)
Theorem calculate_height_values_strictly_decreasing :
  forall (fuel : nat)
         (initial_height minimum_height energy_loss_coefficient : float)
         (height_list : list float),
    (0 <? initial_height)%float = true ->
    (0 <=? minimum_height)%float = true ->
    (minimum_height <? initial_height)%float = true ->
    (0 <? energy_loss_coefficient)%float = true ->
    (energy_loss_coefficient <? 1)%float = true ->
    Bounce.calculate_height_values fuel initial_height minimum_height
      energy_loss_coefficient = Some height_list ->
    strictly_decreasing (initial_height :: height_list).
Proof.
  intros fuel h0 m c l _ Hm _ Hc0 Hc1 E.
  destruct (height_loop_decreasing_binary64 m c Hm Hc0 Hc1 fuel h0 [] l E)
    as (p & -> & Hs).
  exact Hs.
Qed.

Lemma calculate_height_values_strictly_decreasing_witness :
  (exists height_list,
     Bounce.calculate_height_values 10 2 0.01 0.5 = Some height_list
     /\ strictly_decreasing (2 :: height_list))%float.
Proof.
  eexists. split; [reflexivity|].
  apply (calculate_height_values_strictly_decreasing 10 2 0.01 0.5)%float;
    reflexivity.
Defined.

(** ** The slice taken by [calculate_time_values] *)

Lemma slice_all_but_last {F : Type} (p : list F) (last : F) :
  slice_to (Z.of_nat (length (p ++ [last])) - 1) (p ++ [last]) = p.
Proof.
  unfold slice_to. rewrite length_app. cbn [length].
  replace (Z.of_nat (length p + 1) - 1)%Z with (Z.of_nat (length p)) by lia.
  destruct (Z.ltb_spec (Z.of_nat (length p)) 0) as [Hneg|_]; [lia|].
  rewrite Nat2Z.id, firstn_app, Nat.sub_diag, firstn_all. cbn.
  apply app_nil_r.
Qed.

Lemma slice_removelast {F : Type} (l : list F) :
  slice_to (Z.of_nat (length l) - 1) l = removelast l.
Proof.
  destruct l as [|x l] using rev_ind; [reflexivity|].
  now rewrite slice_all_but_last, removelast_last.
Qed.

(** ** The last height is the one at or below the floor *)

(** In exact arithmetic. *)
Lemma height_list_ends_at_floor_exact (fuel : nat) (h0 m c : Q) (l : list Q) :
  m < h0 ->
  Bounce.calculate_height_values fuel h0 m c = Some l ->
  exists above last,
    l = above ++ [last] /\ Forall (fun h => m < h) above /\ last <= m.
Proof.
  intros Hm E. apply Qltb_lt in Hm.
  destruct (height_loop_shape (H:=Q_arith) m c fuel h0 [] l Hm E)
    as (p & last & previous & -> & Hp & Hl & _ & _).
  exists p, last. cbn [app]. repeat split.
  - apply Forall_inv_tail in Hp. eapply Forall_impl; [|exact Hp].
    intros h Hh. now apply Qltb_lt.
  - now apply Qltb_ge.
Qed.

(** C10. For every valid input triple, the height list returned by
    [calculate_height_values] is non-empty: it is some heights followed by a
    last one; every element except the last is strictly greater than the
    minimum height, and the last element is less than or equal to the
    minimum height; the per-bounce time sum in [calculate_time_values] runs
    over exactly the elements before that last one.  Stated in binary64, for
    the list returned with any amount of fuel. *)
Theorem height_list_ends_at_floor :
  forall (fuel : nat)
         (initial_height minimum_height energy_loss_coefficient : float)
         (height_list : list float),
    (0 <? initial_height)%float = true ->
    (0 <=? minimum_height)%float = true ->
    (minimum_height <? initial_height)%float = true ->
    (0 <? energy_loss_coefficient)%float = true ->
    (energy_loss_coefficient <? 1)%float = true ->
    Bounce.calculate_height_values fuel initial_height minimum_height
      energy_loss_coefficient = Some height_list ->
    exists above last,
      height_list = above ++ [last]
      /\ Forall (fun h => (minimum_height <? h)%float = true) above
      /\ (last <=? minimum_height)%float = true
      /\ Bounce.bounce_time_list PrimFloat.sqrt height_list
         = map (Bounce.bounce_time PrimFloat.sqrt) above
      /\ Bounce.calculate_time_values PrimFloat.sqrt initial_height height_list
         = (np_sum (map (Bounce.bounce_time PrimFloat.sqrt) above)
            + Bounce.zeroth_bounce_time PrimFloat.sqrt initial_height)%float.
Proof.
  intros fuel h0 m c l _ Hm0 Hm Hc0 Hc1 E.
  destruct (height_loop_shape (H:=float_arith) m c fuel h0 [] l Hm E)
    as (p & last & previous & -> & Hp & Hl & Hin & Hprod).
  exists p, last. cbn [app].
  assert (Hslice : Bounce.bounce_time_list PrimFloat.sqrt (p ++ [last])
                   = map (Bounce.bounce_time PrimFloat.sqrt) p).
  { unfold Bounce.bounce_time_list. now rewrite slice_all_but_last. }
  repeat split.
  - exact (Forall_inv_tail Hp).
  - (* the last height is a number, and so is the floor *)
    assert (Hprev : (0 <? previous)%float = true).
    { apply (FloatFacts.above_floor_positive m previous Hm0).
      exact (proj1 (Forall_forall _ _) Hp previous Hin). }
    assert (Hnum : is_nan last = false).
    { rewrite Hprod.
      exact (FloatFacts.mul_fraction_not_nan previous c Hprev Hc0 Hc1). }
    assert (Hfloor : is_nan m = false).
    { destruct (is_nan m) eqn:N; [|reflexivity].
      now rewrite (FloatFacts.nan_leb_r 0 m N) in Hm0. }
    apply FloatFacts.ltb_false in Hl.
    destruct Hl as [Hle|[Hn|Hn]]; [exact Hle| |]; congruence.
  - exact Hslice.
  - unfold Bounce.calculate_time_values. now rewrite Hslice.
Qed.

Lemma height_list_ends_at_floor_witness :
  (exists height_list above last,
     Bounce.calculate_height_values 10 2 0.01 0.5 = Some height_list
     /\ height_list = above ++ [last]
     /\ Forall (fun h => (0.01 <? h) = true) above
     /\ (last <=? 0.01) = true
     /\ Bounce.bounce_time_list PrimFloat.sqrt height_list
        = map (Bounce.bounce_time PrimFloat.sqrt) above)%float.
Proof.
  eexists.
  destruct (height_list_ends_at_floor 10 2 0.01 0.5 _
              eq_refl eq_refl eq_refl eq_refl eq_refl eq_refl)%float
    as (above & last & E & Ha & Hl & Ht & _).
  exists above, last. repeat split; assumption.
Defined.

(** ** Termination of the height loop *)

(** In exact arithmetic a floor of zero is never reached: the heights stay
    positive. *)
Lemma height_loop_zero_floor_exact (c : Q) :
  0 < c -> forall fuel h acc,
  0 < h -> Bounce.height_loop fuel h 0 c acc = None.
Proof.
  intros Hc fuel. induction fuel as [|fuel IH]; intros h acc Hh; [reflexivity|].
  cbn. apply Qltb_lt in Hh as G. rewrite G. apply IH.
  apply Qmult_lt_0_compat; assumption.
Qed.

(** A run that ends in a fixpoint above the floor never leaves the loop. *)
Lemma runs_into_fixpoint_diverges (m c : float) (n : nat) : forall h,
  runs_into_fixpoint n h m c = true ->
  forall fuel acc, Bounce.height_loop fuel h m c acc = None.
Proof.
  induction n as [|n IH]; intros h R; cbn in R;
    apply andb_prop in R as [G R].
  - apply FloatAxioms.Leibniz.eqb_spec in R.
    exact (height_loop_stuck m c h G R).
  - intros [|fuel] acc; [reflexivity|]. cbn. rewrite G. apply IH, R.
Qed.

(** C3 (the code diverges from the claim). The triple initial height 1.0,
    minimum height 0.0, coefficient 0.9 is accepted by the validation loops,
    and on it the loop of [calculate_height_values] does not terminate: the
    height decays to the subnormal 5 * 2^-1074, where multiplying by 0.9
    rounds back to the same value, which is still above the floor.  No amount
    of fuel yields a list. *)
Theorem calculate_height_values_zero_floor_diverges :
  Bounce.read_inputs [Some 1; Some 0; Some 0.9]%float = Some (1, 0, 0.9)%float
  /\ forall fuel,
       (Bounce.calculate_height_values fuel 1 0 0.9)%float = None.
Proof.
  split; [reflexivity|]. intros fuel.
  apply (runs_into_fixpoint_diverges 0 0.9 (Z.to_nat 8000)).
  vm_compute. reflexivity.
Qed.

(** In exact arithmetic a strictly positive floor is always reached. *)
Lemma within_reach_step (n : nat) (h m c : Q) :
  0 < m -> 0 < c -> c < 1 ->
  within_reach (S n) h m c -> within_reach n (h * c) m c.
Proof.
  unfold within_reach. intros Hm Hc0 Hc1.
  rewrite Nat2Z.inj_succ, <- Z.add_1_r, inject_Z_plus.
  set (q := inject_Z (Z.of_nat n)).
  assert (Hq : 0 <= q).
  { unfold q. change 0 with (inject_Z 0). rewrite <- Zle_Qle. lia. }
  intros Hreach.
  assert (H1 : h * c * c <= m * (c + (q + inject_Z 1) * (1 - c)) * c).
  { apply Qmult_le_compat_r; [exact Hreach | now apply Qlt_le_weak]. }
  assert (H2 : 0 <= m * (1 - c) * (q * (1 - c))).
  { apply Qmult_le_0_compat.
    - apply Qmult_le_0_compat; lra.
    - apply Qmult_le_0_compat; lra. }
  change (inject_Z 1) with 1 in H1.
  lra.
Qed.

Lemma height_loop_reaches_floor (m c : Q) :
  0 < m -> 0 < c -> c < 1 ->
  forall n h acc, within_reach n h m c ->
  exists l, Bounce.height_loop (S n) h m c acc = Some l.
Proof.
  intros Hm Hc0 Hc1 n. induction n as [|n IH]; intros h acc Hreach.
  - cbn. destruct (Qltb m h) eqn:G; [|eauto].
    exfalso. apply Qltb_lt in G. unfold within_reach in Hreach.
    change (inject_Z (Z.of_nat 0)) with 0 in Hreach.
    assert (Hlt : m * c < h * c) by (apply Qmult_lt_compat_r; assumption).
    lra.
  - cbn [Bounce.height_loop]. destruct (flt m h); [|eauto].
    apply IH. now apply within_reach_step.
Qed.

Lemma calculate_height_values_terminates_exact (h0 m c : Q) :
  0 < h0 -> 0 < m -> 0 < c -> c < 1 ->
  exists l, Bounce.calculate_height_values (enough_fuel h0 m c) h0 m c = Some l.
Proof.
  intros Hh Hm Hc0 Hc1. unfold Bounce.calculate_height_values, enough_fuel.
  apply height_loop_reaches_floor; try assumption.
  unfold within_reach.
  set (x := h0 * c / (m * (1 - c))).
  assert (Hd : 0 < m * (1 - c)) by (apply Qmult_lt_0_compat; lra).
  assert (Hx : x <= inject_Z (Z.of_nat (Z.to_nat (Qceiling x)))).
  { eapply Qle_trans; [apply Qle_ceiling|].
    rewrite <- Zle_Qle. lia. }
  set (q := inject_Z (Z.of_nat (Z.to_nat (Qceiling x)))) in *.
  assert (Hxe : x * (m * (1 - c)) == h0 * c).
  { unfold x. field. lra. }
  assert (Hq : x * (m * (1 - c)) <= q * (m * (1 - c))).
  { apply Qmult_le_compat_r; [exact Hx | now apply Qlt_le_weak]. }
  assert (Hmc : 0 <= m * c) by (apply Qmult_le_0_compat; lra).
  rewrite Hxe in Hq. lra.
Qed.

Lemma calculate_height_values_terminates_exact_witness :
  exists l,
    Bounce.calculate_height_values (enough_fuel 2 (1 # 100) (1 # 2))
      2 (1 # 100) (1 # 2) = Some l.
Proof.
  apply (calculate_height_values_terminates_exact 2 (1 # 100) (1 # 2));
    reflexivity.
Defined.

(** ** Total time of the bounces *)

(** C7 (as amended). For every initial height and every height list, in
    particular every list produced by [calculate_height_values], the total
    time returned by [calculate_time_values] equals the zeroth-bounce fall
    time sqrt(2*h0/g) added to the sum of the per-bounce flight times
    sqrt(8*h/g) of the listed heights except the last one. *)
Theorem calculate_time_values_sums_all_but_last :
  forall (F : Type) (A : Arith F) (np_sqrt : F -> F) (initial_height : F)
         (height_list : list F),
    Bounce.calculate_time_values np_sqrt initial_height height_list
    = fadd
        (np_sum
           (map (fun h =>
                   np_sqrt (fdiv (fmul (fint 8) h)
                              Bounce.GRAVITATIONAL_ACCELERATION_CONSTANT))
                (removelast height_list)))
        (np_sqrt (fdiv (fmul (fint 2) initial_height)
                    Bounce.GRAVITATIONAL_ACCELERATION_CONSTANT)).
Proof.
  intros F A np_sqrt h0 l.
  unfold Bounce.calculate_time_values, Bounce.bounce_time_list.
  now rewrite slice_removelast.
Qed.

(** C7 as stated fails: dropped from 2 with floor 1 and coefficient 0.5 the
    ball has the height list [1.0]; the total time is the fall time alone,
    about 0.639, and not the fall time plus the flight time of the listed
    height, about 1.542. *)
Lemma calculate_time_values_omits_last_height :
  (Bounce.calculate_height_values 2 2 1 0.5 = Some [1]
   /\ Bounce.calculate_time_values PrimFloat.sqrt 2 [1]
      = Bounce.zeroth_bounce_time PrimFloat.sqrt 2
   /\ (Bounce.calculate_time_values PrimFloat.sqrt 2 [1]
       <? Bounce.zeroth_bounce_time PrimFloat.sqrt 2
          + np_sum (map (Bounce.bounce_time PrimFloat.sqrt) [1])) = true
   /\ Bounce.calculate_time_values PrimFloat.sqrt 2 [1]
      <> Bounce.zeroth_bounce_time PrimFloat.sqrt 2
         + np_sum (map (Bounce.bounce_time PrimFloat.sqrt) [1]))%float.
Proof.
  split; [reflexivity|]. split; [reflexivity|]. split; [reflexivity|].
  intros E.
  apply (f_equal (fun x => (x <? 1)%float)) in E.
  vm_compute in E. discriminate E.
Qed.

(** ** The validation loops of the bounce script *)

(** An entry that is refused costs one message and the loop moves on to the
    next entry; an entry that is accepted ends the loop. *)
Lemma validation_loop_reprompt {F : Type} (body : option F -> Bounce.verdict)
    (entry : option F) (rest : list (option F)) (message : string) :
  body entry = Bounce.Reprompt message ->
  Bounce.validation_loop body (entry :: rest)
  = match Bounce.validation_loop body rest with
    | Some (value, messages, rest') => Some (value, message :: messages, rest')
    | None => None
    end.
Proof. intros E. cbn. now rewrite E. Qed.

Lemma validation_loop_accept {F : Type} (body : option F -> Bounce.verdict)
    (entry : option F) (rest : list (option F)) (value : F) :
  body entry = Bounce.Accept value ->
  Bounce.validation_loop body (entry :: rest) = Some (value, [], rest).
Proof. intros E. cbn. now rewrite E. Qed.

(** Whatever the loop returns was accepted by its body. *)
Lemma validation_loop_sound {F : Type} (body : option F -> Bounce.verdict)
    (entries : list (option F)) (value : F) (messages : list string)
    (rest : list (option F)) :
  Bounce.validation_loop body entries = Some (value, messages, rest) ->
  exists entry, In entry entries /\ body entry = Bounce.Accept value.
Proof.
  revert messages. induction entries as [|entry entries IH]; intros messages E;
    [discriminate|].
  cbn in E. destruct (body entry) as [v|msg] eqn:B.
  - injection E as <- _ _. exists entry. split; [now left | exact B].
  - destruct (Bounce.validation_loop body entries) as [[[v ms] r]|] eqn:L;
      [|discriminate].
    injection E as Hv _ Hr. subst v r.
    destruct (IH ms eq_refl) as (e & Hin & He).
    exists e. split; [now right | exact He].
Qed.

(** In exact arithmetic each loop accepts exactly the values of its domain. *)
Lemma initial_height_body_exact (h : Q) :
  Bounce.initial_height_body (Some h) = Bounce.Accept h <-> 0 < h.
Proof.
  cbn. unfold inject_Z. destruct (Qle_bool h 0) eqn:E.
  - apply Qle_bool_iff in E. split; [discriminate|].
    intros Hlt. exfalso. exact (Qlt_not_le _ _ Hlt E).
  - split; [|reflexivity]. intros _. apply Qnot_le_lt. intros Hle.
    apply Qle_bool_iff in Hle. congruence.
Qed.

Lemma minimum_height_body_exact (h0 m : Q) :
  Bounce.minimum_height_body h0 (Some m) = Bounce.Accept m
  <-> 0 <= m /\ m < h0.
Proof.
  cbn. unfold inject_Z. destruct (Qltb m 0) eqn:E1.
  - apply Qltb_lt in E1. split; [discriminate|]. intros [H0 _].
    exfalso. exact (Qlt_not_le _ _ E1 H0).
  - apply Qltb_ge in E1. destruct (Qle_bool h0 m) eqn:E2.
    + apply Qle_bool_iff in E2. split; [discriminate|]. intros [_ Hlt].
      exfalso. exact (Qlt_not_le _ _ Hlt E2).
    + split; [|reflexivity]. intros _. split; [exact E1|].
      apply Qnot_le_lt. intros Hle. apply Qle_bool_iff in Hle. congruence.
Qed.

Lemma energy_loss_coefficient_body_exact (c : Q) :
  Bounce.energy_loss_coefficient_body (Some c) = Bounce.Accept c
  <-> 0 < c /\ c < 1.
Proof.
  cbn. unfold inject_Z. destruct (Qle_bool c 0) eqn:E1; cbn.
  - apply Qle_bool_iff in E1. split; [discriminate|]. intros [Hlt _].
    exfalso. exact (Qlt_not_le _ _ Hlt E1).
  - assert (H0 : 0 < c).
    { apply Qnot_le_lt. intros Hle. apply Qle_bool_iff in Hle. congruence. }
    destruct (Qle_bool 1 c) eqn:E2.
    + apply Qle_bool_iff in E2. split; [discriminate|]. intros [_ Hlt].
      exfalso. exact (Qlt_not_le _ _ Hlt E2).
    + split; [|reflexivity]. intros _. split; [exact H0|].
      apply Qnot_le_lt. intros Hle. apply Qle_bool_iff in Hle. congruence.
Qed.

(** In binary64 each loop accepts the values of its domain and, besides
    them, NaN: every comparison with a NaN is false, so no test refuses it. *)
Lemma initial_height_body_binary64 (h : float) :
  Bounce.initial_height_body (Some h) = Bounce.Accept h
  <-> (0 <? h)%float = true \/ is_nan h = true.
Proof.
  unfold Bounce.initial_height_body.
  change (fint 0) with 0%float. change (@fle float _) with PrimFloat.leb.
  pose proof (FloatFacts.leb_false h 0) as L.
  change (is_nan 0) with false in L.
  destruct (h <=? 0)%float; split; intros Hx; try reflexivity;
    try discriminate; intuition congruence.
Qed.

Lemma minimum_height_body_binary64 (h0 m : float) :
  Bounce.minimum_height_body h0 (Some m) = Bounce.Accept m
  <-> is_nan m = true \/ is_nan h0 = true /\ (0 <=? m)%float = true
      \/ (0 <=? m)%float = true /\ (m <? h0)%float = true.
Proof.
  unfold Bounce.minimum_height_body.
  change (fint 0) with 0%float. change (@fle float _) with PrimFloat.leb.
  change (@flt float _) with PrimFloat.ltb.
  pose proof (FloatFacts.ltb_false m 0) as L1.
  pose proof (FloatFacts.leb_false h0 m) as L2.
  change (is_nan 0) with false in L1.
  pose proof (FloatFacts.nan_leb_r 0 m) as N1.
  pose proof (FloatFacts.nan_ltb_l m h0) as N2.
  destruct (m <? 0)%float, (h0 <=? m)%float, (is_nan m), (is_nan h0);
    split; intros Hx; try reflexivity; try discriminate;
    intuition congruence.
Qed.

Lemma energy_loss_coefficient_body_binary64 (c : float) :
  Bounce.energy_loss_coefficient_body (Some c) = Bounce.Accept c
  <-> is_nan c = true \/ (0 <? c)%float = true /\ (c <? 1)%float = true.
Proof.
  unfold Bounce.energy_loss_coefficient_body.
  change (fint 0) with 0%float. change (fint 1) with 1%float.
  change (@fle float _) with PrimFloat.leb.
  pose proof (FloatFacts.leb_false c 0) as L1.
  pose proof (FloatFacts.leb_false 1 c) as L2.
  change (is_nan 0) with false in L1. change (is_nan 1) with false in L2.
  pose proof (FloatFacts.nan_ltb_r 0 c) as N1.
  destruct (c <=? 0)%float, (1 <=? c)%float, (is_nan c); cbn;
    split; intros Hx; try reflexivity; try discriminate;
    intuition congruence.
Qed.

(** The three loops together, in binary64: apart from NaN, the
    initial-height loop accepts exactly the strictly positive numbers, the
    minimum-height loop exactly the non-negative numbers strictly below the
    initial height, and the coefficient loop exactly the numbers strictly
    between 0 and 1; a NaN entry is accepted by each of them, and after a NaN
    initial height every non-negative minimum height is accepted. *)
Theorem validation_accepts_valid_or_nan :
  forall initial_height entry : float,
    (Bounce.initial_height_body (Some entry) = Bounce.Accept entry
     <-> (0 <? entry)%float = true \/ is_nan entry = true)
    /\ (Bounce.minimum_height_body initial_height (Some entry)
        = Bounce.Accept entry
        <-> is_nan entry = true
            \/ is_nan initial_height = true /\ (0 <=? entry)%float = true
            \/ (0 <=? entry)%float = true
               /\ (entry <? initial_height)%float = true)
    /\ (Bounce.energy_loss_coefficient_body (Some entry) = Bounce.Accept entry
        <-> is_nan entry = true
            \/ (0 <? entry)%float = true /\ (entry <? 1)%float = true).
Proof.
  intros h0 x. split; [apply initial_height_body_binary64|].
  split; [apply minimum_height_body_binary64|].
  apply energy_loss_coefficient_body_binary64.
Qed.

(** The run of the specification's example: dropped from 2.0 with floor 0.01
    and coefficient 0.5, after one refused entry, the ball makes the eight
    listed heights, which is reported as 7 bounces, in about 3.45 seconds. *)
Example main_example :
  (exists total_time,
     Bounce.main 20 PrimFloat.sqrt [None; Some 2; Some 0.01; Some 0.5]
     = Some ([1; 0.5; 0.25; 0.125; 0.0625; 0.03125; 0.015625; 0.0078125],
             total_time)
     /\ Bounce.reported_bounces
          [1; 0.5; 0.25; 0.125; 0.0625; 0.03125; 0.015625; 0.0078125] = 7%Z
     /\ (3.4497 <? total_time) = true /\ (total_time <? 3.4498) = true)%float.
Proof. eexists. repeat split. Qed.

(** C8 (the code diverges from the claim). The entry "nan" is turned into a
    NaN by [float], without a [ValueError], and a NaN passes the tests of the
    initial-height loop and of the coefficient loop although it is neither
    positive nor between 0 and 1: both loops accept it at once, with no
    message and no new prompt.  After a NaN initial height the
    minimum-height loop accepts any non-negative number, here one, and the
    run ends with an empty height list, reported as -1 bounces. *)
Theorem validation_loops_accept_nan :
  Bounce.validation_loop Bounce.initial_height_body [Some nan]
    = Some (nan, [], [])
  /\ (0 <? nan)%float = false
  /\ Bounce.validation_loop Bounce.energy_loss_coefficient_body [Some nan]
    = Some (nan, [], [])
  /\ ((0 <? nan)%float && (nan <? 1)%float) = false
  /\ Bounce.read_inputs [Some nan; Some 1%float; Some nan]
    = Some (nan, 1%float, nan)
  /\ Bounce.calculate_height_values 1 nan 1%float nan = Some []
  /\ Bounce.reported_bounces (@nil float) = (-1)%Z.
Proof. repeat split. Qed.

(** ** Cleaning the measurements *)

Section NullValues.
Context {F : Type} `{Arith F}.
Local Open Scope num_scope.

Lemma remove_null_row_measurement (r : measurement) (acc : Decay.array2) :
  Decay.remove_null_row (as_row r) acc
  = Some (if no_field_missing r
          then (converted r, acc ++ [converted r])
          else (as_row r, acc)).
Proof.
  destruct r as [[t a] u].
  unfold Decay.remove_null_row, Decay.data_is_not_null, no_field_missing,
    as_row, converted, Decay.set_item.
  cbn [nth_error firstn skipn app].
  destruct (fisnan t), (fisnan a), (fisnan u); reflexivity.
Qed.

Lemma remove_null_loop_measurements (rows : list measurement) :
  forall acc,
  Decay.remove_null_loop (map as_row rows) acc
  = Some (map (fun r => if no_field_missing r then converted r else as_row r)
            rows,
          acc ++ map converted (filter no_field_missing rows)).
Proof.
  induction rows as [|r rows IH]; intros acc.
  - cbn. now rewrite app_nil_r.
  - cbn [map Decay.remove_null_loop filter].
    rewrite remove_null_row_measurement.
    destruct (no_field_missing r); cbn [fst snd]; rewrite IH; cbn [fst snd].
    + now rewrite <- app_assoc.
    + reflexivity.
Qed.
End NullValues.

(** C6. For every input array of (time, activity, activity uncertainty)
    rows, what [remove_null_values] returns is exactly the rows in which none
    of the three fields is missing (NaN), in their order, each retained row
    having its time multiplied by 3600 and its activity and uncertainty
    multiplied by 10^12; a row with a missing field is discarded, contributes
    nothing to the output, and is itself left as it was.  (The first
    component is the input array after the call: retained rows are
    overwritten in place with their converted values.)  Stated of the calls
    that return: in the script the function runs after [read_in] has set
    numpy to raise on overflow, and a call in which a conversion overflows
    ends in a [FloatingPointError] and returns nothing. *)
Theorem remove_null_values_retains_complete_rows :
  forall (F : Type) (A : Arith F) (rows : list (@measurement F))
         (file_ab null_filtered_data : list (list F)),
    Decay.remove_null_values (map as_row rows)
    = Some (file_ab, null_filtered_data) ->
    file_ab
    = map (fun r => if no_field_missing r then converted r else as_row r) rows
    /\ null_filtered_data = map converted (filter no_field_missing rows).
Proof.
  intros F A rows file_ab out. unfold Decay.remove_null_values.
  rewrite remove_null_loop_measurements. cbn [app].
  intros E. injection E as <- <-. split; reflexivity.
Qed.

Lemma remove_null_values_retains_complete_rows_witness :
  ([[3600; 2e12; 3e12]; [2; nan; 1]; [7200; 5e12; 1e12]]
   = map (fun r => if no_field_missing r then converted r else as_row r)
       [(1, 2, 3); (2, nan, 1); (2, 5, 1)]
   /\ [[3600; 2e12; 3e12]; [7200; 5e12; 1e12]]
      = map converted
          (filter no_field_missing [(1, 2, 3); (2, nan, 1); (2, 5, 1)]))%float.
Proof.
  apply (remove_null_values_retains_complete_rows float float_arith
           [(1, 2, 3); (2, nan, 1); (2, 5, 1)]
           [[3600; 2e12; 3e12]; [2; nan; 1]; [7200; 5e12; 1e12]]
           [[3600; 2e12; 3e12]; [7200; 5e12; 1e12]])%float.
  reflexivity.
Defined.

(** ** Reduced chi-squared *)

(** C5. For every dataset passed to [chi_squared_value] whose rows have the
    three fields time, activity and activity uncertainty, the reduced
    chi-squared equals the chi-squared sum divided by the degrees of freedom,
    where the degrees of freedom are the sample count (the number of time
    points) minus two.  When the arrays do not broadcast there is no
    chi-squared sum and the call raises. *)
Theorem chi_squared_value_degrees_of_freedom :
  forall (F : Type) (A : Arith F)
         (independent_variable dependent_variable error
          predicted_dependent_variable : list F) (dataset : list (list F)),
    dataset <> [] ->
    Forall (fun row => length row = 3%nat) dataset ->
    Decay.chi_squared_value independent_variable dependent_variable error
      predicted_dependent_variable dataset
    = match Decay.chi_squared dependent_variable error
              predicted_dependent_variable with
      | Some chi_squared =>
          Some (fdiv chi_squared
                  (fint (Z.of_nat (length independent_variable) - 2)))
      | None => None
      end.
Proof.
  intros F A t d e p dataset Hne Hrows.
  destruct dataset as [|row0 rest]; [congruence|].
  apply Forall_inv in Hrows.
  unfold Decay.chi_squared_value.
  destruct (Decay.chi_squared d e p); [|reflexivity].
  cbn [nth_error]. rewrite Hrows.
  replace (Z.of_nat (length t) - (Z.of_nat 3 - 1))%Z
    with (Z.of_nat (length t) - 2)%Z by lia.
  reflexivity.
Qed.

Lemma chi_squared_value_degrees_of_freedom_witness :
  (Decay.chi_squared_value [0; 1; 2; 3] [4; 2; 1; 1] [1; 1; 1; 1] [3; 2; 1; 1]
     [[0; 4; 1]; [1; 2; 1]; [2; 1; 1]; [3; 1; 1]]
   = Some (1 / 2))%float.
Proof.
  rewrite (chi_squared_value_degrees_of_freedom float float_arith);
    [reflexivity | discriminate | repeat constructor].
Defined.

(** ** The outlier filter *)

Section Outliers.
Context {F : Type} `{Arith F}.
Local Open Scope num_scope.

(** Arrays of one length broadcast element by element. *)
Lemma broadcast_map {A B : Type} (f : F -> F -> B) (g h : A -> F)
    (l : list A) :
  Decay.broadcast f (map g l) (map h l) = Some (map (fun x => f (g x) (h x)) l).
Proof.
  unfold Decay.broadcast. rewrite !length_map, Nat.eqb_refl. f_equal.
  induction l as [|x l IH]; [reflexivity|]. cbn. now rewrite IH.
Qed.

(** Indexing by the positions of a mask selects the masked elements. *)
Lemma take_where {A : Type} (g : A -> F) (w : A -> bool) (l : list A) :
  forall before : list F,
  Decay.take (before ++ map g l)
    (Decay.where_from (length before) (map w l))
  = Some (map g (filter w l)).
Proof.
  induction l as [|x l IH]; intros before; [reflexivity|].
  assert (Hshift : before ++ map g (x :: l) = (before ++ [g x]) ++ map g l).
  { now rewrite <- app_assoc. }
  assert (Hlen : S (length before) = length (before ++ [g x])).
  { rewrite length_app. cbn. lia. }
  cbn [map Decay.where_from filter]. destruct (w x).
  - cbn [Decay.take map].
    rewrite nth_error_app2, Nat.sub_diag by lia. cbn [nth_error].
    change (g x :: map g l) with (map g (x :: l)).
    rewrite Hshift, Hlen, IH. reflexivity.
  - change (g x :: map g l) with (map g (x :: l)).
    rewrite Hshift, Hlen, IH. reflexivity.
Qed.

Lemma take_np_where {A : Type} (g : A -> F) (w : A -> bool) (l : list A) :
  Decay.take (map g l) (Decay.np_where (map w l)) = Some (map g (filter w l)).
Proof. exact (take_where g w l []). Qed.

Lemma transpose3_map {A : Type} (f g h : A -> F) (l : list A) :
  Decay.transpose3 (map f l) (map g l) (map h l)
  = map (fun x => [f x; g x; h x]) l.
Proof. induction l as [|x l IH]; [reflexivity|]. cbn. now rewrite IH. Qed.

Lemma remove_outliers_filter (observations : list observation) :
  Decay.remove_outliers (map prediction observations) (map time observations)
    (map activity observations) (map activity_uncertainty observations)
  = Some (map (fun o => [time o; activity o; activity_uncertainty o])
            (filter within_three_sigma observations)).
Proof.
  unfold Decay.remove_outliers.
  rewrite broadcast_map, !map_map, broadcast_map.
  match goal with
  | |- context [Decay.np_where ?mask] =>
      change mask with (map within_three_sigma observations)
  end.
  rewrite !take_np_where. now rewrite transpose3_map.
Qed.
End Outliers.

(** C1 (as amended). For every array of model-predicted activities, measured
    activities and measurement uncertainties (all of equal length), what the
    outlier filter returns is, in order, exactly the rows whose measured
    activity lies strictly less than three measurement-uncertainties from the
    model prediction; all others are discarded: a row deviating by exactly
    three uncertainties is discarded.  Stated of the calls that return: in
    the script the filter runs after [read_in] has set numpy to raise on
    overflow, and a call in which [trial_activity - activity] or
    [3*activity_uncertainty] overflows ends in a [FloatingPointError] and
    returns nothing. *)
Theorem remove_outliers_retains_strictly_within_three_sigma :
  forall (F : Type) (A : Arith F) (observations : list (@observation F))
         (outlier_filtered_data : list (list F)),
    Decay.remove_outliers (map prediction observations) (map time observations)
      (map activity observations) (map activity_uncertainty observations)
    = Some outlier_filtered_data ->
    outlier_filtered_data
    = map (fun o => [time o; activity o; activity_uncertainty o])
        (filter (fun o =>
                   flt (fabs (fsub (prediction o) (activity o)))
                       (fmul (fint 3) (activity_uncertainty o)))
                observations).
Proof.
  intros F A observations out. rewrite remove_outliers_filter.
  intros E. injection E as <-. reflexivity.
Qed.

Lemma remove_outliers_retains_strictly_within_three_sigma_witness :
  ([[1; 10; 1]; [3; 12; 2]]
   = map (fun o => [time o; activity o; activity_uncertainty o])
       (filter (fun o =>
                  flt (fabs (fsub (prediction o) (activity o)))
                      (fmul (fint 3) (activity_uncertainty o)))
               [(11, 1, 10, 1); (11, 2, 20, 1); (11, 3, 12, 2);
                (3, 4, 0, 1)]))%float.
Proof.
  apply (remove_outliers_retains_strictly_within_three_sigma float float_arith
           [(11, 1, 10, 1); (11, 2, 20, 1); (11, 3, 12, 2); (3, 4, 0, 1)]
           [[1; 10; 1]; [3; 12; 2]])%float.
  reflexivity.
Defined.

(** C1 as stated fails: the prediction 3 with measurement 0 and uncertainty 1
    is exactly three uncertainties away, which is within three
    uncertainties, and the row is discarded. *)
Lemma remove_outliers_discards_exactly_three_sigma :
  ((PrimFloat.abs (3 - 0) <=? 3 * 1) = true
   /\ Decay.remove_outliers [3] [0] [0] [1] = Some []
   /\ Decay.remove_outliers [3] [0] [0] [1]
      <> Some (map (fun o => [time o; activity o; activity_uncertainty o])
                (filter (fun o =>
                           PrimFloat.abs (prediction o - activity o)
                           <=? 3 * activity_uncertainty o)
                        [(3, 0, 0, 1)])))%float.
Proof. repeat split. discriminate. Qed.

(** ** Rows of the outlier filter, for arrays of any shape *)

Section OutlierRows.
Context {F : Type} `{Arith F}.

(** Where the second array has an element at a position of a broadcast
    result, the result there was computed from that element. *)
Lemma broadcast_nth {A : Type} (f : F -> F -> A) (xs ys : list F) (l : list A) :
  Decay.broadcast f xs ys = Some l ->
  forall i b y, nth_error l i = Some b -> nth_error ys i = Some y ->
  exists x, In x xs /\ b = f x y.
Proof.
  unfold Decay.broadcast. destruct (length xs =? length ys)%nat.
  - intros E. injection E as <-. intros i b y Hb Hy.
    rewrite nth_error_map in Hb.
    destruct (nth_error (combine xs ys) i) as [[x y']|] eqn:C; [|discriminate].
    injection Hb as <-. cbn.
    pose proof (nth_error_In _ _ C) as Hin.
    exists x. split; [exact (in_combine_l _ _ _ _ Hin)|].
    clear Hin. revert i ys Hy C.
    induction xs as [|x0 xs IH]; intros i ys Hy C; [destruct i; discriminate|].
    destruct ys as [|y0 ys]; [destruct i; discriminate|].
    destruct i as [|i]; cbn in *.
    + congruence.
    + exact (IH i ys Hy C).
  - intros E i b y Hb Hy.
    assert (Hmap_l : forall x, l = map (f x) ys -> In x xs ->
              exists x', In x' xs /\ b = f x' y).
    { intros x -> Hin. rewrite nth_error_map, Hy in Hb.
      injection Hb as <-. eauto. }
    assert (Hmap_r : forall y0, ys = [y0] -> l = map (fun x => f x y0) xs ->
              exists x', In x' xs /\ b = f x' y).
    { intros y0 -> ->. destruct i as [|i]; [|destruct i; discriminate].
      injection Hy as <-. rewrite nth_error_map in Hb.
      destruct (nth_error xs 0) as [x|] eqn:X; [|discriminate].
      injection Hb as <-. exists x. split; [exact (nth_error_In _ _ X)|].
      reflexivity. }
    destruct xs as [|x [|x' xs]].
    + destruct ys as [|y0 [|y1 ys]]; try discriminate.
      injection E as <-. destruct i; discriminate.
    + injection E as <-. apply (Hmap_l x eq_refl). now left.
    + destruct ys as [|y0 [|y1 ys]]; try discriminate.
      injection E as <-. exact (Hmap_r y0 eq_refl eq_refl).
Qed.

Lemma where_from_true (mask : list bool) : forall start i,
  In i (Decay.where_from start mask) ->
  (start <= i)%nat /\ nth_error mask (i - start) = Some true.
Proof.
  induction mask as [|b mask IH]; intros start i Hin; [contradiction|].
  cbn in Hin.
  assert (Hrest : In i (Decay.where_from (S start) mask) ->
            (start <= i)%nat /\ nth_error (b :: mask) (i - start) = Some true).
  { intros Hi. destruct (IH _ _ Hi) as [Hle Hn]. split; [lia|].
    replace (i - start)%nat with (S (i - S start)) by lia. exact Hn. }
  destruct b; [destruct Hin as [<-|Hin]|]; auto.
  split; [lia|]. now rewrite Nat.sub_diag.
Qed.

Lemma np_where_true (mask : list bool) (i : nat) :
  In i (Decay.np_where mask) -> nth_error mask i = Some true.
Proof.
  intros Hin. destruct (where_from_true mask 0 i Hin) as [_ Hn].
  now rewrite Nat.sub_0_r in Hn.
Qed.

(** The result of indexing lists, position by position, the elements at
    the indexes. *)
Lemma take_Forall2 (xs : list F) (indexes : list nat) : forall l,
  Decay.take xs indexes = Some l ->
  Forall2 (fun i x => nth_error xs i = Some x) indexes l.
Proof.
  induction indexes as [|i indexes IH]; intros l E; cbn in E.
  - injection E as <-. constructor.
  - destruct (nth_error xs i) as [x|] eqn:X; [|discriminate].
    destruct (Decay.take xs indexes) as [rest|]; [|discriminate].
    injection E as <-. constructor; auto.
Qed.

(** A row of the transposed arrays that were all indexed by [indexes]. *)
Lemma transpose3_taken (ts acts us : list F) (indexes : list nat) :
  forall lt la lu row,
  Forall2 (fun i x => nth_error ts i = Some x) indexes lt ->
  Forall2 (fun i x => nth_error acts i = Some x) indexes la ->
  Forall2 (fun i x => nth_error us i = Some x) indexes lu ->
  In row (Decay.transpose3 lt la lu) ->
  exists i t a u,
    In i indexes /\ row = [t; a; u]
    /\ nth_error ts i = Some t /\ nth_error acts i = Some a
    /\ nth_error us i = Some u.
Proof.
  induction indexes as [|i indexes IH]; intros lt la lu row Ht Ha Hu Hin.
  - inversion Ht; subst. contradiction.
  - inversion Ht as [|? t ? lt' Hti Ht']; subst.
    inversion Ha as [|? a ? la' Hai Ha']; subst.
    inversion Hu as [|? u ? lu' Hui Hu']; subst.
    cbn in Hin. destruct Hin as [<-|Hin].
    + exists i, t, a, u. cbn. auto.
    + destruct (IH _ _ _ _ Ht' Ha' Hu' Hin)
        as (j & t' & a' & u' & Hj & Hrow & H1 & H2 & H3).
      exists j, t', a', u'. cbn. auto.
Qed.

(** Every retained row is the measurement at a position where the test of
    the filter, on some deviation, succeeded for that row's uncertainty. *)
Lemma remove_outliers_row (trial_activity time_values activity_values
    uncertainties : list F) (out : list (list F)) (row : list F) :
  Decay.remove_outliers trial_activity time_values activity_values
    uncertainties = Some out ->
  In row out ->
  exists t a u deviation,
    row = [t; a; u] /\ In t time_values /\ In a activity_values
    /\ In u uncertainties
    /\ flt (fabs deviation) (fmul (fint 3) u) = true.
Proof.
  unfold Decay.remove_outliers. intros E Hin.
  destruct (Decay.broadcast fsub trial_activity activity_values)
    as [deviation|] eqn:D; [|discriminate].
  destruct (Decay.broadcast flt (map fabs deviation) _) as [mask|] eqn:M;
    [|discriminate].
  destruct (Decay.take time_values _) as [lt|] eqn:T; [|discriminate].
  destruct (Decay.take activity_values _) as [la|] eqn:A; [|discriminate].
  destruct (Decay.take uncertainties _) as [lu|] eqn:U; [|discriminate].
  injection E as <-. cbn [app] in Hin.
  destruct (transpose3_taken _ _ _ _ _ _ _ _
              (take_Forall2 _ _ _ T) (take_Forall2 _ _ _ A)
              (take_Forall2 _ _ _ U) Hin)
    as (i & t & a & u & Hi & -> & Ht & Ha & Hu).
  apply np_where_true in Hi.
  assert (Hu3 : nth_error (map (fun u => fmul (fint 3) u) uncertainties) i
                = Some (fmul (fint 3) u)).
  { now rewrite nth_error_map, Hu. }
  destruct (broadcast_nth _ _ _ _ M i _ _ Hi Hu3) as (x & Hx & Etrue).
  apply in_map_iff in Hx. destruct Hx as (d & <- & _).
  exists t, a, u, d. repeat split; eauto using nth_error_In.
Qed.
End OutlierRows.

(** C9 (as amended). Every row retained by [remove_outliers] has a strictly
    positive activity uncertainty: a row whose uncertainty is zero, negative
    or NaN is always discarded, since the strict comparison
    |prediction - activity| < 3 * uncertainty cannot hold for it.  So on
    outlier-filtered data [chi_squared_value] squares only strictly positive
    uncertainties.  Stated in binary64, for arrays of any shape. *)
Theorem retained_rows_have_positive_uncertainty :
  forall (trial_activity time_values activity_values uncertainties : list float)
         (out : list (list float)) (row : list float),
    Decay.remove_outliers trial_activity time_values activity_values
      uncertainties = Some out ->
    In row out ->
    exists t a u,
      row = [t; a; u] /\ In u uncertainties
      /\ (0 <? u)%float = true /\ (u <=? 0)%float = false
      /\ is_nan u = false.
Proof.
  intros trial ts acts us out row E Hin.
  destruct (remove_outliers_row trial ts acts us out row E Hin)
    as (t & a & u & d & -> & _ & _ & Hu & Htest).
  apply FloatFacts.within_three_sigma_positive in Htest.
  exists t, a, u. repeat split; try assumption.
  - apply FloatFacts.leb_false. now left.
  - destruct (is_nan u) eqn:N; [|reflexivity].
    now rewrite (FloatFacts.nan_ltb_r 0 u N) in Htest.
Qed.

Lemma retained_rows_have_positive_uncertainty_witness :
  (exists t a u,
     [1; 9.5; 0.25] = [t; a; u] /\ In u [1; 0.25; 0; -1; nan]
     /\ (0 <? u) = true /\ (u <=? 0) = false /\ is_nan u = false)%float.
Proof.
  apply (retained_rows_have_positive_uncertainty
           [3; 10; 5; 6; 7] [0; 1; 2; 3; 4] [0; 9.5; 5; 6; 7]
           [1; 0.25; 0; -1; nan] [[1; 9.5; 0.25]] [1; 9.5; 0.25])%float.
  - reflexivity.
  - now left.
Defined.

(** In exact arithmetic the square of the uncertainty of a retained row is
    not zero. *)
Lemma retained_rows_divide_by_nonzero_exact
    (trial_activity time_values activity_values uncertainties : list Q)
    (out : list (list Q)) (row : list Q) :
  Decay.remove_outliers trial_activity time_values activity_values
    uncertainties = Some out ->
  In row out ->
  exists t a u, row = [t; a; u] /\ 0 < u /\ ~ Decay.square u == 0.
Proof.
  intros E Hin.
  destruct (remove_outliers_row trial_activity time_values activity_values
              uncertainties out row E Hin)
    as (t & a & u & d & -> & _ & _ & _ & Htest).
  exists t, a, u. split; [reflexivity|].
  cbn in Htest. apply Qltb_lt in Htest.
  pose proof (Qabs_nonneg (d)) as Hd.
  assert (Hu : 0 < u).
  { unfold inject_Z in Htest. lra. }
  split; [exact Hu|]. unfold Decay.square. cbn. nra.
Qed.

(** C9 as stated fails in binary64: the row with prediction 0, measurement 0
    and uncertainty 1e-200 is retained, and the square of its uncertainty
    underflows to zero, so that [chi_squared_value] divides zero by zero and
    returns NaN. *)
Lemma retained_row_divides_by_zero :
  (Decay.remove_outliers [0] [0] [0] [1e-200] = Some [[0; 0; 1e-200]]
   /\ (0 <? 1e-200) = true
   /\ Decay.square 1e-200 = 0
   /\ exists reduced,
        Decay.chi_squared_value [0] [0] [1e-200] [0] [[0; 0; 1e-200]]
        = Some reduced /\ is_nan reduced = true)%float.
Proof.
  repeat split. eexists. split; reflexivity.
Qed.

(** ** Rescaling the uncertainties *)

Section BroadcastRelated.
Context {F : Type} `{Arith F}.

(** Broadcasting a first array against two second arrays that are related
    element by element gives results that are related element by element. *)
Lemma broadcast_Forall2_on {A : Type} (P : F -> Prop) (R : A -> A -> Prop)
    (f : F -> F -> A) (xs ys' ys : list F) (l : list A) :
  Forall P xs ->
  Forall2 (fun y' y => forall x, P x -> R (f x y') (f x y)) ys' ys ->
  Decay.broadcast f xs ys = Some l ->
  exists l', Decay.broadcast f xs ys' = Some l' /\ Forall2 R l' l.
Proof.
  intros Hxs Hys. pose proof (Forall2_length Hys) as Hlen.
  unfold Decay.broadcast. rewrite Hlen.
  destruct (length xs =? length ys)%nat.
  - intros E. injection E as <-. eexists. split; [reflexivity|].
    clear Hlen. revert xs Hxs. induction Hys as [|y' y ys' ys Hy Hys IH];
      intros [|x xs] Hxs; cbn; constructor.
    + apply Hy. now apply Forall_inv in Hxs.
    + apply IH. now apply Forall_inv_tail in Hxs.
  - assert (Hmap : forall x, P x ->
              Forall2 R (map (f x) ys') (map (f x) ys)).
    { intros x Hx. induction Hys; cbn; constructor; auto. }
    assert (Hleft : forall y' y zs,
              (forall x, P x -> R (f x y') (f x y)) -> Forall P zs ->
              Forall2 R (map (fun x => f x y') zs) (map (fun x => f x y) zs)).
    { intros y' y zs Hy Hzs. induction Hzs; cbn [map]; constructor; auto. }
    intros E. destruct xs as [|x [|x' xs]].
    + destruct Hys as [|y' y ? ? Hy [|]]; try discriminate.
      injection E as <-. eexists. split; [reflexivity|]. constructor.
    + injection E as <-. eexists. split; [reflexivity|]. apply Hmap.
      now apply Forall_inv in Hxs.
    + destruct Hys as [|y' y ? ? Hy [|]]; try discriminate.
      injection E as <-. eexists. split; [reflexivity|].
      exact (Hleft y' y (x :: x' :: xs) Hy Hxs).
Qed.
End BroadcastRelated.

Module RescalingFacts.
Import ScalingFacts.
Local Open Scope Z_scope.

Section Rescaling.
Variable j : Z.
Hypothesis Hj : 0 <= j <= 64.
Variable k : float.
Hypothesis Hk : Prim2SF k = power_of_two j.

Lemma format_constants : prec = 53 /\ emin = -1074 /\ emax = 1024.
Proof. repeat split. Qed.

(** An uncertainty times [k]. *)
Lemma scaled_uncertainty (u : float) :
  magnitude_between (-200) 200 (Prim2SF u) ->
  Prim2SF (k * u) = scale j (Prim2SF u).
Proof.
  destruct format_constants as (Hprec & Hemin & Hemax).
  rewrite mul_spec, Hk. unfold SF64mul.
  destruct (Prim2SF u) as [s|s| |s m e]; cbn [magnitude_between];
    try contradiction.
  intros [Hm He]. cbn [scale]. apply SFmul_power_of_two; [exact Hm|lia].
Qed.

(** The square of an uncertainty, and of that uncertainty times [k]. *)
Lemma squared_uncertainty (u : float) :
  magnitude_between (-200) 200 (Prim2SF u) ->
  exists (m : positive) (e : Z),
    Prim2SF (u * u) = S754_finite false m e
    /\ Zpos (digits2_pos m) = prec /\ -452 <= e <= 348
    /\ Prim2SF ((k * u) * (k * u)) = S754_finite false m (e + 2 * j).
Proof.
  destruct format_constants as (Hprec & Hemin & Hemax).
  intros Hu. rewrite !mul_spec, <- !mul_spec, (mul_spec (k * u)).
  rewrite (scaled_uncertainty u Hu), (mul_spec u). unfold SF64mul.
  destruct (Prim2SF u) as [s|s| |s m e]; cbn [magnitude_between] in Hu;
    try contradiction.
  destruct Hu as [Hm He]. cbn [scale].
  destruct (SFmul_normal s s m m Hm Hm) as (m2 & off & Hm2 & Hoff & Hmul).
  exists m2, (e + e + off). rewrite !Hmul by lia.
  rewrite xorb_nilpotent.
  replace (e + e + off <=? emax - prec) with true
    by (symmetry; apply Z.leb_le; lia).
  replace (e + j + (e + j) + off <=? emax - prec) with true
    by (symmetry; apply Z.leb_le; lia).
  split; [reflexivity|]. split; [exact Hm2|]. split; [lia|].
  f_equal. lia.
Qed.

(** The square of a residual. *)
Lemma squared_residual (r : float) :
  zero_or (magnitude_between (-200) 200) (Prim2SF r) ->
  steady (-452) 348 (Prim2SF (r * r)).
Proof.
  destruct format_constants as (Hprec & Hemin & Hemax).
  rewrite mul_spec. unfold SF64mul.
  destruct (Prim2SF r) as [s|s| |s m e];
    cbn [zero_or magnitude_between]; try contradiction.
  - intros _. cbn [SFmul]. rewrite xorb_nilpotent. exact I.
  - intros [Hm He].
    destruct (SFmul_normal s s m m Hm Hm) as (m2 & off & Hm2 & Hoff & Hmul).
    rewrite Hmul by lia. rewrite xorb_nilpotent.
    replace (e + e + off <=? emax - prec) with true
      by (symmetry; apply Z.leb_le; lia).
    cbn [steady]. split; [exact Hm2|lia].
Qed.

(** One term of the sum: a squared residual over a squared uncertainty. *)
Lemma scaled_term (x y y' : float) (m : positive) (e : Z) :
  steady (-452) 348 (Prim2SF x) ->
  Prim2SF y = S754_finite false m e ->
  Zpos (digits2_pos m) = prec -> -452 <= e <= 348 ->
  Prim2SF y' = S754_finite false m (e + 2 * j) ->
  Prim2SF (x / y') = scale (- (2 * j)) (Prim2SF (x / y))
  /\ steady (-853) (emax - prec) (Prim2SF (x / y)).
Proof.
  destruct format_constants as (Hprec & Hemin & Hemax).
  intros Hx Hy Hm He Hy'. rewrite !div_spec, Hy, Hy'. unfold SF64div.
  destruct (Prim2SF x) as [[|]|s| |[|] mx ex]; cbn [steady] in Hx;
    try contradiction.
  - cbn [SFdiv xorb scale steady]. split; [reflexivity|exact I].
  - destruct Hx as [Hmx Hex].
    destruct (SFdiv_normal false false mx m Hmx Hm)
      as (mq & off & Hmq & Hoff & Hdiv).
    rewrite !Hdiv by lia. cbn [xorb].
    replace (ex - e + off <=? emax - prec) with true
      by (symmetry; apply Z.leb_le; lia).
    replace (ex - (e + 2 * j) + off <=? emax - prec) with true
      by (symmetry; apply Z.leb_le; lia).
    cbn [scale steady]. split; [f_equal; lia|]. split; [exact Hmq|lia].
Qed.

(** One addition of the sum. *)
Lemma scaled_addition (a a' t t' : float) :
  steady (-853) (emax - prec) (Prim2SF a) ->
  steady (-853) (emax - prec) (Prim2SF t) ->
  Prim2SF a' = scale (- (2 * j)) (Prim2SF a) ->
  Prim2SF t' = scale (- (2 * j)) (Prim2SF t) ->
  finite_number (Prim2SF (a + t)) ->
  Prim2SF (a' + t') = scale (- (2 * j)) (Prim2SF (a + t))
  /\ steady (-853) (emax - prec) (Prim2SF (a + t)).
Proof.
  destruct format_constants as (Hprec & Hemin & Hemax).
  intros Ha Ht Ha' Ht'. rewrite !add_spec, Ha', Ht'. unfold SF64add.
  destruct (Prim2SF a) as [[|]|s| |[|] ma ea]; cbn [steady] in Ha;
    try contradiction;
    destruct (Prim2SF t) as [[|]|s'| |[|] mt et]; cbn [steady] in Ht;
    try contradiction; cbn [scale].
  - intros _. cbn. split; [reflexivity|exact I].
  - intros _. cbn [SFadd scale steady]. split; [reflexivity|exact Ht].
  - intros _. cbn [SFadd scale steady]. split; [reflexivity|exact Ha].
  - destruct Ha as [Hma Hea]. destruct Ht as [Hmt Het].
    destruct (SFadd_normal ma mt ea et Hma)
      as (m & off & Hm & Hoff & Hadd).
    pose proof (Hadd 0 ltac:(lia)) as H0.
    pose proof (Hadd (- (2 * j)) ltac:(lia)) as H1.
    rewrite !Z.add_0_r in H0. rewrite H0, H1.
    destruct (Z.leb_spec (Z.min ea et + off) (emax - prec)) as [Hle|Hgt];
      [|intros []].
    intros _.
    replace (Z.min ea et + - (2 * j) + off <=? emax - prec) with true
      by (symmetry; apply Z.leb_le; lia).
    cbn [scale steady]. split; [f_equal; lia|]. split; [exact Hm|lia].
Qed.

(** A sum that is a finite number started from a finite number. *)
Lemma sum_finite (terms : list float) : forall acc : float,
  finite_number (Prim2SF (fold_left PrimFloat.add terms acc)) ->
  finite_number (Prim2SF acc).
Proof.
  induction terms as [|t terms IH]; intros acc Hf; [exact Hf|].
  cbn [fold_left] in Hf. apply IH in Hf. rewrite add_spec in Hf.
  unfold SF64add in Hf.
  destruct (Prim2SF acc) as [s|s| |s m e]; try exact I;
    destruct (Prim2SF t) as [s'|s'| |s' m' e']; cbn in Hf;
    try contradiction; destruct s, s'; contradiction.
Qed.

(** The sum of the terms. *)
Lemma scaled_sum (terms' terms : list float) :
  Forall2 (fun t' t => Prim2SF t' = scale (- (2 * j)) (Prim2SF t)
                       /\ steady (-853) (emax - prec) (Prim2SF t))
    terms' terms ->
  forall acc' acc : float,
    steady (-853) (emax - prec) (Prim2SF acc) ->
    Prim2SF acc' = scale (- (2 * j)) (Prim2SF acc) ->
    finite_number (Prim2SF (fold_left PrimFloat.add terms acc)) ->
    Prim2SF (fold_left PrimFloat.add terms' acc')
    = scale (- (2 * j)) (Prim2SF (fold_left PrimFloat.add terms acc))
    /\ steady (-853) (emax - prec)
         (Prim2SF (fold_left PrimFloat.add terms acc)).
Proof.
  induction 1 as [|t' t terms' terms [Ht' Ht] Hterms IH];
    intros acc' acc Hacc Hacc' Hf; cbn [fold_left] in *.
  - split; assumption.
  - pose proof (sum_finite _ _ Hf) as Hstep.
    destruct (scaled_addition acc acc' t t' Hacc Ht Hacc' Ht' Hstep)
      as [Hs' Hs].
    now apply IH.
Qed.


(** [k * k] is [2 ^ (2 * j)]. *)
Lemma squared_factor : Prim2SF (k * k) = power_of_two (2 * j).
Proof.
  destruct format_constants as (Hprec & Hemin & Hemax).
  rewrite mul_spec, Hk. unfold SF64mul, power_of_two at 2.
  rewrite SFmul_power_of_two by (try reflexivity; lia).
  unfold power_of_two. f_equal. lia.
Qed.

(** The division by the degrees of freedom, and the division of the result
    by [k * k]. *)
Lemma scaled_quotient (chi chi' : float) (degrees_of_freedom : Z) :
  Z.abs degrees_of_freedom < 2 ^ 64 ->
  steady (-853) (emax - prec) (Prim2SF chi) ->
  Prim2SF chi' = scale (- (2 * j)) (Prim2SF chi) ->
  finite_number (Prim2SF (chi / float_of_Z degrees_of_freedom)) ->
  (chi' / float_of_Z degrees_of_freedom
   = chi / float_of_Z degrees_of_freedom / (k * k))%float
  /\ Prim2SF (chi' / float_of_Z degrees_of_freedom)
     = scale (- (2 * j)) (Prim2SF (chi / float_of_Z degrees_of_freedom)).
Proof.
  destruct format_constants as (Hprec & Hemin & Hemax).
  intros Hdof Hchi Hchi' Hf.
  enough (E : Prim2SF (chi' / float_of_Z degrees_of_freedom)
              = scale (- (2 * j))
                  (Prim2SF (chi / float_of_Z degrees_of_freedom))
              /\ Prim2SF (chi / float_of_Z degrees_of_freedom / (k * k))
                 = scale (- (2 * j))
                     (Prim2SF (chi / float_of_Z degrees_of_freedom))).
  { destruct E as [E1 E2]. split; [|exact E1].
    apply Prim2SF_inj. now rewrite E1, E2. }
  rewrite (div_spec _ (k * k)), squared_factor.
  rewrite div_spec in Hf. rewrite !div_spec, Hchi'. unfold SF64div in *.
  destruct (Z.eq_dec degrees_of_freedom 0) as [->|Hnz].
  - change (Prim2SF (float_of_Z 0)) with (S754_zero false) in *.
    destruct (Prim2SF chi) as [s|s| |s m e]; cbn in Hf; contradiction.
  - destruct (float_of_Z_normal degrees_of_freedom Hnz Hdof)
      as (md & ed & Ed & Hmd & Hed).
    rewrite Ed in *. clear Ed.
    set (sd := degrees_of_freedom <? 0) in *.
    destruct (Prim2SF chi) as [[|]|s| |[|] m e]; cbn [steady] in Hchi;
      try contradiction; cbn [scale].
    + cbn [SFdiv xorb scale]. unfold power_of_two. cbn [SFdiv].
      now rewrite xorb_false_r.
    + destruct Hchi as [Hm He].
      destruct (SFdiv_normal false sd m md Hm Hmd)
        as (mq & off & Hmq & Hoff & Hdiv).
      rewrite !Hdiv in * by lia. revert Hf.
      destruct (Z.leb_spec (e - ed + off) (emax - prec)) as [Hle|Hgt];
        [intros _|intros []].
      replace (e + - (2 * j) - ed + off <=? emax - prec) with true
        by (symmetry; apply Z.leb_le; lia).
      rewrite SFdiv_power_of_two by (try exact Hmq; lia).
      cbn [scale]. split; f_equal; lia.
Qed.

(** A finite number other than zero is not its multiple by a power of
    two. *)
Lemma scale_moves (x' x : float) :
  0 < j -> finite_number (Prim2SF x) -> (x =? 0)%float = false ->
  Prim2SF x' = scale (- (2 * j)) (Prim2SF x) -> x' <> x.
Proof.
  intros Hpos Hf Hnz E ->. rewrite eqb_spec in Hnz.
  change (Prim2SF 0) with (S754_zero false) in Hnz.
  destruct (Prim2SF x) as [[|]|s| |s m e]; cbn in Hf, Hnz;
    try contradiction; try discriminate Hnz.
  cbn [scale] in E. assert (He : e = e + - (2 * j)) by congruence. lia.
Qed.

(** A quotient that is a finite number has a finite dividend. *)
Lemma quotient_finite (x y : float) :
  finite_number (Prim2SF (x / y)) -> finite_number (Prim2SF x).
Proof.
  rewrite div_spec. unfold SF64div.
  destruct (Prim2SF x) as [s|s| |s m e]; try (intros _; exact I);
    destruct (Prim2SF y); cbn; intros [].
Qed.

End Rescaling.
End RescalingFacts.



(** For a factor that is not a power of two the quotient by k^2 is only
    approached: with the uncertainties 1, 1, 1 of the residuals 1, 1, 1
    multiplied by 10^12 the reduced chi-squared is 3.0000000000000003e-24,
    not 3 / (10^12 * 10^12) = 3e-24. *)
Lemma chi_squared_value_rescaled_up_to_rounding :
  (Decay.chi_squared_value [0; 1; 2] [1; 1; 1]
     (map (fun u => 1e12 * u) [1; 1; 1]) [0; 0; 0]
     [[0; 1; 1]; [1; 1; 1]; [2; 1; 1]] = Some 3.0000000000000003e-24
   /\ 3 / (1e12 * 1e12) = 3e-24
   /\ (3.0000000000000003e-24 =? 3e-24) = false)%float.
Proof. repeat split. Qed.


(** * Part III: further properties of the two scripts *)

(** ** The validation loops, entry by entry *)

Section ValidationLoop.
Context {F : Type}.
Variable body : option F -> @Bounce.verdict F.

Lemma validation_loop_split (entries : list (option F)) :
  forall value messages rest,
  Bounce.validation_loop body entries = Some (value, messages, rest) ->
  exists refused accepted,
    entries = refused ++ accepted :: rest
    /\ body accepted = Bounce.Accept value
    /\ Forall2 (fun entry message => body entry = Bounce.Reprompt message)
         refused messages.
Proof.
  induction entries as [|entry entries IH]; intros value messages rest E;
    [discriminate|].
  cbn in E. destruct (body entry) as [v|message] eqn:B.
  - injection E as <- <- <-. exists [], entry. cbn. auto.
  - destruct (Bounce.validation_loop body entries) as [[[v ms] r]|] eqn:L;
      [|discriminate].
    injection E as <- <- <-.
    destruct (IH _ _ _ eq_refl) as (refused & accepted & -> & Ha & Hr).
    exists (entry :: refused), accepted. cbn. auto.
Qed.

Lemma validation_loop_joined (refused : list (option F)) :
  forall accepted rest value messages,
  body accepted = Bounce.Accept value ->
  Forall2 (fun entry message => body entry = Bounce.Reprompt message)
    refused messages ->
  Bounce.validation_loop body (refused ++ accepted :: rest)
  = Some (value, messages, rest).
Proof.
  induction refused as [|entry refused IH];
    intros accepted rest value messages Ha Hr;
    inversion Hr as [|? message ? messages' Hentry Hrest]; subst; cbn.
  - now rewrite Ha.
  - rewrite Hentry. now rewrite (IH accepted rest value messages' Ha Hrest).
Qed.

Lemma validation_loop_exhausted (entries : list (option F)) :
  Bounce.validation_loop body entries = None
  <-> Forall (fun entry => exists message, body entry = Bounce.Reprompt message)
        entries.
Proof.
  induction entries as [|entry entries IH]; cbn.
  - split; [constructor|reflexivity].
  - destruct (body entry) as [v|message] eqn:B.
    + split; [discriminate|]. intros Hall. apply Forall_inv in Hall.
      destruct Hall as [message Hm]. congruence.
    + destruct (Bounce.validation_loop body entries) as [[[v ms] r]|].
      * split; [discriminate|]. intros Hall. apply Forall_inv_tail in Hall.
        apply IH in Hall. discriminate.
      * split; [|reflexivity]. intros _. constructor; [eauto|].
        now apply IH.
Qed.
End ValidationLoop.

(** A validation loop returns the first entry that its body accepts,
    together with one message for each entry refused before it, in order,
    and with the entries that follow it unread; it runs out of input exactly
    when its body refuses every entry. *)
Theorem validation_loop_first_accepted :
  forall (F : Type) (body : option F -> Bounce.verdict)
         (entries : list (option F)),
    (forall value messages rest,
       Bounce.validation_loop body entries = Some (value, messages, rest)
       <-> exists refused accepted,
             entries = refused ++ accepted :: rest
             /\ body accepted = Bounce.Accept value
             /\ Forall2
                  (fun entry message => body entry = Bounce.Reprompt message)
                  refused messages)
    /\ (Bounce.validation_loop body entries = None
        <-> Forall
              (fun entry => exists message,
                 body entry = Bounce.Reprompt message) entries).
Proof.
  intros F body entries. split.
  - intros value messages rest. split.
    + apply validation_loop_split.
    + intros (refused & accepted & -> & Ha & Hr).
      now apply validation_loop_joined.
  - apply validation_loop_exhausted.
Qed.

(** ** What the validation hands to the calculations *)

Lemma initial_height_body_entry (entry : option float) (value : float) :
  Bounce.initial_height_body entry = Bounce.Accept value -> entry = Some value.
Proof.
  destruct entry as [h|]; cbn; [|discriminate].
  destruct (PrimFloat.leb h _); [discriminate|]. now intros [= ->].
Qed.

Lemma minimum_height_body_entry (h0 : float) (entry : option float)
    (value : float) :
  Bounce.minimum_height_body h0 entry = Bounce.Accept value ->
  entry = Some value.
Proof.
  destruct entry as [m|]; cbn; [|discriminate].
  destruct (PrimFloat.ltb m _); [discriminate|].
  destruct (PrimFloat.leb h0 m); [discriminate|]. now intros [= ->].
Qed.

Lemma energy_loss_coefficient_body_entry (entry : option float)
    (value : float) :
  Bounce.energy_loss_coefficient_body entry = Bounce.Accept value ->
  entry = Some value.
Proof.
  destruct entry as [c|]; cbn; [|discriminate].
  destruct (PrimFloat.leb c _ || PrimFloat.leb _ c); [discriminate|].
  now intros [= ->].
Qed.

(** The value a loop accepts is one of the entries, and the entries left
    are entries too. *)
Lemma validation_loop_number (body : option float -> Bounce.verdict)
    (entries : list (option float)) (value : float) (messages : list string)
    (rest : list (option float)) :
  (forall entry v, body entry = Bounce.Accept v -> entry = Some v) ->
  Forall entry_is_number entries ->
  Bounce.validation_loop body entries = Some (value, messages, rest) ->
  body (Some value) = Bounce.Accept value
  /\ is_nan value = false /\ Forall entry_is_number rest.
Proof.
  intros Hbody Hall E.
  destruct (validation_loop_split body entries value messages rest E)
    as (refused & accepted & -> & Ha & _).
  apply Forall_app in Hall as [_ Hall].
  pose proof (Hbody _ _ Ha) as ->.
  split; [exact Ha|]. split.
  - exact (Forall_inv Hall).
  - exact (Forall_inv_tail Hall).
Qed.

(** The three values that [main] reads, when no entry is NaN: each one is a
    number that the body of its loop accepts. *)
Lemma read_inputs_accepted (entries : list (option float))
    (initial_height minimum_height energy_loss_coefficient : float) :
  Forall entry_is_number entries ->
  Bounce.read_inputs entries
  = Some (initial_height, minimum_height, energy_loss_coefficient) ->
  (Bounce.initial_height_body (Some initial_height)
   = Bounce.Accept initial_height /\ is_nan initial_height = false)
  /\ (Bounce.minimum_height_body initial_height (Some minimum_height)
      = Bounce.Accept minimum_height /\ is_nan minimum_height = false)
  /\ (Bounce.energy_loss_coefficient_body (Some energy_loss_coefficient)
      = Bounce.Accept energy_loss_coefficient
      /\ is_nan energy_loss_coefficient = false).
Proof.
  intros Hall E. unfold Bounce.read_inputs in E.
  destruct (Bounce.validation_loop Bounce.initial_height_body entries)
    as [[[h0' ms1] rest1]|] eqn:L1; [|discriminate].
  destruct (validation_loop_number _ _ _ _ _ initial_height_body_entry Hall L1)
    as (A1 & N1 & Hall1).
  destruct (Bounce.validation_loop (Bounce.minimum_height_body h0') rest1)
    as [[[m' ms2] rest2]|] eqn:L2; [|discriminate].
  destruct (validation_loop_number _ _ _ _ _
              (minimum_height_body_entry h0') Hall1 L2) as (A2 & N2 & Hall2).
  destruct (Bounce.validation_loop Bounce.energy_loss_coefficient_body rest2)
    as [[[c' ms3] rest3]|] eqn:L3; [|discriminate].
  destruct (validation_loop_number _ _ _ _ _
              energy_loss_coefficient_body_entry Hall2 L3) as (A3 & N3 & _).
  injection E as <- <- <-. auto.
Qed.

(** Whatever the user types, as long as no entry is "nan", the three
    values that [main] reads and hands to the calculations form a valid
    triple: initial height > 0, 0 <= minimum height < initial height, and
    0 < coefficient < 1.  In binary64. *)
Theorem read_inputs_valid :
  forall (entries : list (option float))
         (initial_height minimum_height energy_loss_coefficient : float),
    Forall entry_is_number entries ->
    Bounce.read_inputs entries
    = Some (initial_height, minimum_height, energy_loss_coefficient) ->
    (0 <? initial_height)%float = true
    /\ (0 <=? minimum_height)%float = true
    /\ (minimum_height <? initial_height)%float = true
    /\ (0 <? energy_loss_coefficient)%float = true
    /\ (energy_loss_coefficient <? 1)%float = true.
Proof.
  intros entries h0 m c Hall E.
  destruct (read_inputs_accepted entries h0 m c Hall E)
    as ((A1 & N1) & (A2 & N2) & (A3 & N3)).
  apply initial_height_body_binary64 in A1.
  apply minimum_height_body_binary64 in A2.
  apply energy_loss_coefficient_body_binary64 in A3.
  intuition congruence.
Qed.

Lemma read_inputs_valid_witness :
  ((0 <? 2) = true /\ (0 <=? 0.01) = true /\ (0.01 <? 2) = true
   /\ (0 <? 0.5) = true /\ (0.5 <? 1) = true)%float.
Proof.
  apply (read_inputs_valid
           [None; Some (-1); Some 2; Some 3; Some 0.01; Some 1.5; Some 0.5]
           2 0.01 0.5)%float.
  - repeat constructor.
  - reflexivity.
Defined.

(** ** The message of the minimum-height loop *)

(** In binary64, after a strictly positive initial height, an entry that
    does what the last message of the minimum-height loop asks for, a
    minimum height greater than the initial height, is refused with that
    same message: the loop accepts only entries that are below the initial
    height. *)
Theorem minimum_height_message_refuses_what_it_asks :
  forall (initial_height minimum_height : float),
    (0 <? initial_height)%float = true ->
    (initial_height <? minimum_height)%float = true ->
    Bounce.minimum_height_body initial_height (Some minimum_height)
    = Bounce.Reprompt "Minimum height must be greater than initial height".
Proof.
  intros h0 m Hh Hm. unfold Bounce.minimum_height_body.
  change (fint 0) with 0%float. change (@fle float _) with PrimFloat.leb.
  change (@flt float _) with PrimFloat.ltb.
  assert (Hle : (h0 <=? m)%float = true).
  { rewrite leb_spec. rewrite ltb_spec in Hm. unfold SFleb, SFltb in *.
    destruct (SFcompare (Prim2SF h0) (Prim2SF m)) as [[]|];
      try discriminate; reflexivity. }
  assert (Hpos : (m <? 0)%float = false).
  { apply FloatFacts.ltb_is_positive in Hh.
    rewrite ltb_spec in Hm |- *. change (Prim2SF 0) with (S754_zero false).
    unfold SFltb in *.
    destruct (Prim2SF h0) as [s|s| |s mh eh]; try contradiction;
      destruct s; try contradiction;
      destruct (Prim2SF m) as [s'|s'| |s' mm em]; try discriminate;
      destruct s'; try discriminate; reflexivity. }
  now rewrite Hpos, Hle.
Qed.

Lemma minimum_height_message_refuses_what_it_asks_witness :
  (Bounce.minimum_height_body 2 (Some 3)
   = Bounce.Reprompt "Minimum height must be greater than initial height")%float.
Proof.
  apply (minimum_height_message_refuses_what_it_asks 2 3)%float; reflexivity.
Defined.

(** ** The heights, one by one *)

Section Heights.
Context {F : Type} `{Arith F}.

Lemma geometric_length (n : nat) : forall h c : F,
  length (geometric n h c) = n.
Proof. induction n as [|n IH]; intros h c; cbn; [|rewrite IH]; reflexivity. Qed.

Lemma height_loop_geometric (m c : F) (fuel : nat) : forall h acc l,
  Bounce.height_loop fuel h m c acc = Some l ->
  exists n, l = acc ++ geometric n h c.
Proof.
  induction fuel as [|fuel IH]; intros h acc l E; [discriminate|].
  cbn in E. destruct (flt m h).
  - destruct (IH _ _ _ E) as [n ->]. exists (S n).
    now rewrite <- app_assoc.
  - injection E as <-. exists O. now rewrite app_nil_r.
Qed.
End Heights.

(** Every height that [calculate_height_values] lists is the product of
    the coefficient and of the height before it in the list, the first one
    the product of the coefficient and of the initial height: the list is
    the geometric sequence of its length.  In any arithmetic, rounding
    included. *)
Theorem calculate_height_values_geometric :
  forall (F : Type) (A : Arith F) (fuel : nat)
         (initial_height minimum_height energy_loss_coefficient : F)
         (height_list : list F),
    Bounce.calculate_height_values fuel initial_height minimum_height
      energy_loss_coefficient = Some height_list ->
    height_list
    = geometric (length height_list) initial_height energy_loss_coefficient.
Proof.
  intros F A fuel h0 m c l E.
  destruct (height_loop_geometric m c fuel h0 [] l E) as [n ->].
  cbn [app]. now rewrite geometric_length.
Qed.

Lemma calculate_height_values_geometric_witness :
  ([1; 0.5; 0.25; 0.125] = geometric 4 2 0.5)%float.
Proof.
  exact (calculate_height_values_geometric float float_arith 10 2 0.2 0.5
           [1; 0.5; 0.25; 0.125] eq_refl)%float.
Defined.

(** When the initial height is above the minimum height, the number of
    bounces that [calculate_height_values] reports, [len(height_list)-1], is
    the number of listed heights that are strictly above the minimum
    height.  In any arithmetic. *)
Theorem reported_bounces_counts_heights_above_floor :
  forall (F : Type) (A : Arith F) (fuel : nat)
         (initial_height minimum_height energy_loss_coefficient : F)
         (height_list : list F),
    flt minimum_height initial_height = true ->
    Bounce.calculate_height_values fuel initial_height minimum_height
      energy_loss_coefficient = Some height_list ->
    Bounce.reported_bounces height_list
    = Z.of_nat (length (filter (fun h => flt minimum_height h) height_list)).
Proof.
  intros F A fuel h0 m c l G E.
  destruct (height_loop_shape m c fuel h0 [] l G E)
    as (p & last & previous & -> & Hp & Hl & _ & _).
  cbn [app]. apply Forall_inv_tail in Hp.
  unfold Bounce.reported_bounces.
  rewrite filter_app, !length_app. cbn [filter]. rewrite Hl. cbn [length].
  replace (filter (fun h => flt m h) p) with p; [lia|].
  clear -Hp. induction Hp as [|x p Hx Hp IH]; cbn; [reflexivity|].
  now rewrite Hx, <- IH.
Qed.

Lemma reported_bounces_counts_heights_above_floor_witness :
  (Bounce.reported_bounces [1; 0.5; 0.25; 0.125]
   = Z.of_nat (length (filter (fun h => 0.2 <? h) [1; 0.5; 0.25; 0.125])))%float.
Proof.
  exact (reported_bounces_counts_heights_above_floor float float_arith 10
           2 0.2 0.5 [1; 0.5; 0.25; 0.125] eq_refl eq_refl)%float.
Defined.

(** ** Runs that never end, and runs that end by underflow *)

(** An infinite height stays infinite under the coefficient. *)
Lemma mul_infinity (c : float) :
  (0 <? c)%float = true -> (infinity * c)%float = infinity.
Proof.
  intros Hc. apply FloatFacts.ltb_is_positive in Hc.
  apply Prim2SF_inj. rewrite mul_spec.
  change (Prim2SF infinity) with (S754_infinity false).
  destruct (Prim2SF c) as [s|s| |s m e]; try contradiction;
    destruct s; try contradiction; reflexivity.
Qed.

(** An infinite initial height (the entry "inf", which the
    initial-height loop accepts as a positive number) makes the loop of
    [calculate_height_values] run for ever, whatever the minimum height
    below it and whatever the positive coefficient: the height stays
    infinite.  In binary64. *)
Theorem calculate_height_values_infinite_height_diverges :
  forall (minimum_height energy_loss_coefficient : float) (fuel : nat),
    (0 <? energy_loss_coefficient)%float = true ->
    (minimum_height <? infinity)%float = true ->
    Bounce.calculate_height_values fuel infinity minimum_height
      energy_loss_coefficient = None.
Proof.
  intros m c fuel Hc Hm. unfold Bounce.calculate_height_values.
  exact (height_loop_stuck m c infinity Hm (mul_infinity c Hc) fuel []).
Qed.

Lemma calculate_height_values_infinite_height_diverges_witness :
  (Bounce.initial_height_body (Some infinity) = Bounce.Accept infinity
   /\ Bounce.calculate_height_values 1000 infinity 0.01 0.5 = None)%float.
Proof.
  split; [reflexivity|].
  apply (calculate_height_values_infinite_height_diverges 0.01 0.5 1000)%float;
    reflexivity.
Defined.

(** In binary64, with the minimum height zero (which the minimum-height
    loop accepts) the loop of [calculate_height_values] can end in one way
    only: by a product that underflows to zero.  For every initial height
    > 0 and every coefficient > 0, a list that is returned ends with the
    height 0.0, and every height before it is strictly positive. *)
Theorem calculate_height_values_zero_floor_ends_by_underflow :
  forall (fuel : nat) (initial_height energy_loss_coefficient : float)
         (height_list : list float),
    (0 <? initial_height)%float = true ->
    (0 <? energy_loss_coefficient)%float = true ->
    Bounce.calculate_height_values fuel initial_height 0%float
      energy_loss_coefficient = Some height_list ->
    exists above,
      height_list = above ++ [0%float]
      /\ Forall (fun h => (0 <? h)%float = true) above.
Proof.
  intros fuel h0 c l Hh Hc E.
  destruct (height_loop_shape (H:=float_arith) 0%float c fuel h0 [] l Hh E)
    as (p & last & previous & -> & Hp & Hl & Hin & Hprod).
  cbn [app] in *. exists p. split; [|exact (Forall_inv_tail Hp)].
  do 2 f_equal. apply Prim2SF_inj. change (Prim2SF 0) with (S754_zero false).
  assert (Hprev : (0 <? previous)%float = true)
    by exact (proj1 (Forall_forall _ _) Hp previous Hin).
  apply FloatFacts.ltb_is_positive in Hprev, Hc.
  change (@flt float _ 0%float last) with (0 <? last)%float in Hl.
  rewrite ltb_spec in Hl. change (Prim2SF 0) with (S754_zero false) in Hl.
  rewrite Hprod. rewrite Hprod in Hl.
  change (fmul previous c) with (previous * c)%float in *.
  rewrite mul_spec in *. unfold SF64mul in *.
  destruct (Prim2SF previous) as [s|s| |s mp ep]; try contradiction;
    destruct s; try contradiction;
    destruct (Prim2SF c) as [s'|s'| |s' mc ec]; try contradiction;
    destruct s'; try contradiction; cbn [SFmul xorb] in *;
    try discriminate Hl.
  pose proof (RoundingFacts.binary_round_aux_sign false (Zpos (mp * mc))
                (ep + ec) loc_Exact) as Hs.
  pose proof (RoundingFacts.binary_round_aux_not_nan false (Zpos (mp * mc))
                (ep + ec) loc_Exact ltac:(lia)) as Hn.
  destruct (binary_round_aux prec emax false (Zpos (mp * mc)) (ep + ec)
              loc_Exact) as [s|s| |s m e]; cbn in Hs, Hl;
    try subst s; try discriminate Hl; try reflexivity.
  now elim Hn.
Qed.

Lemma calculate_height_values_zero_floor_ends_by_underflow_witness :
  (exists height_list above,
     Bounce.calculate_height_values 1100 1 0 0.5 = Some height_list
     /\ length height_list = 1075%nat
     /\ height_list = above ++ [0]
     /\ Forall (fun h => (0 <? h) = true) above)%float.
Proof.
  destruct (Bounce.calculate_height_values 1100 1 0 0.5)%float
    as [height_list|] eqn:E; [|vm_compute in E; discriminate E].
  destruct (calculate_height_values_zero_floor_ends_by_underflow 1100 1 0.5
              height_list)%float as (above & Ha & Hp);
    [reflexivity|reflexivity|exact E|].
  exists height_list, above. split; [reflexivity|]. split; [|split; assumption].
  apply (f_equal (option_map (@length float))) in E.
  vm_compute in E. injection E as E. symmetry. exact E.
Defined.

(** ** Reading and cleaning the data *)

Section ReadIn.
Context {F : Type} `{Arith F}.

(** Rows of three fields are measurement records. *)
Lemma rows_of_width_three (rows : list (list F)) :
  forallb (fun row => (length row =? 3)%nat) rows = true ->
  exists records : list measurement, rows = map as_row records.
Proof.
  induction rows as [|row rows IH]; cbn [forallb]; intros Hw.
  - exists []. reflexivity.
  - apply andb_prop in Hw as [Hrow Hrows].
    destruct (IH Hrows) as (records & ->).
    destruct row as [|t [|a [|u [|? ?]]]]; try discriminate Hrow.
    exists ((t, a, u) :: records). reflexivity.
Qed.

Lemma read_in_rows (file_a file_b : @Decay.loaded F) :
  Decay.read_in file_a file_b
  = if forallb (fun row => (length row =? 3)%nat)
         (rows_of file_a ++ rows_of file_b)
    then Some (rows_of file_a ++ rows_of file_b) else None.
Proof.
  unfold Decay.read_in, Decay.vstack.
  change (match file_a with
          | Decay.Line values => [values]
          | Decay.Table rows => rows
          end) with (rows_of file_a).
  change (match file_b with
          | Decay.Line values => [values]
          | Decay.Table rows => rows
          end) with (rows_of file_b).
  rewrite forallb_app.
  destruct (forallb _ (rows_of file_a)); [|reflexivity].
  destruct (forallb _ (rows_of file_b)); reflexivity.
Qed.
End ReadIn.


(** ** Cleaned data holds no NaN *)

Module CleanFacts.
Local Open Scope float_scope.

(** Multiplying a number by a finite constant other than zero gives a
    number. *)
Lemma mul_finite_not_nan (x k : float) (s : bool) (m : positive) (e : Z) :
  Prim2SF k = S754_finite s m e ->
  is_nan x = false -> is_nan (x * k) = false.
Proof.
  intros Hk Hx. apply Bool.not_true_iff_false.
  apply Bool.not_true_iff_false in Hx.
  rewrite FloatFacts.is_nan_spec in Hx |- *. rewrite mul_spec, Hk.
  destruct (Prim2SF x) as [sx|sx| |sx mx ex]; cbn; try discriminate;
    [contradiction|].
  apply RoundingFacts.binary_round_aux_not_nan. lia.
Qed.

Lemma seconds_not_nan (x : float) :
  is_nan x = false -> is_nan (x * float_of_Z 3600) = false.
Proof.
  assert (E : exists s m e, Prim2SF (float_of_Z 3600) = S754_finite s m e).
  { vm_compute. eauto. }
  destruct E as (s & m & e & E). exact (mul_finite_not_nan x _ s m e E).
Qed.

Lemma becquerel_not_nan (x : float) :
  is_nan x = false -> is_nan (x * float_of_Z (10 ^ 12)) = false.
Proof.
  assert (E : exists s m e,
            Prim2SF (float_of_Z (10 ^ 12)) = S754_finite s m e).
  { vm_compute. eauto. }
  destruct E as (s & m & e & E). exact (mul_finite_not_nan x _ s m e E).
Qed.

(** One pass of the loop of [remove_null_values], on a row of any width,
    stacks nothing or one complete row. *)
Lemma remove_null_row_complete (row row' : list float)
    (acc acc' : list (list float)) :
  Decay.remove_null_row row acc = Some (row', acc') ->
  acc' = acc \/ exists temp, complete_row temp /\ acc' = acc ++ [temp].
Proof.
  unfold Decay.remove_null_row, Decay.data_is_not_null, Decay.set_item.
  destruct row as [|t [|a [|u rest]]]; cbn [nth_error firstn skipn app fisnan float_arith];
    try discriminate.
  - destruct (is_nan t); [|discriminate].
    intros E. injection E as _ <-. now left.
  - destruct (is_nan t); [intros E; injection E as _ <-; now left|].
    destruct (is_nan a); [|discriminate].
    intros E. injection E as _ <-. now left.
  - destruct (is_nan t) eqn:Ht; [intros E; injection E as _ <-; now left|].
    destruct (is_nan a) eqn:Ha; [intros E; injection E as _ <-; now left|].
    destruct (is_nan u) eqn:Hu; [intros E; injection E as _ <-; now left|].
    intros E. injection E as _ <-. right. eexists. split; [|reflexivity].
    split; [reflexivity|].
    repeat constructor; cbn [fmul fint float_arith];
      auto using seconds_not_nan, becquerel_not_nan.
Qed.

Lemma remove_null_loop_complete (file_ab : list (list float)) :
  forall acc file' out,
  Forall complete_row acc ->
  Decay.remove_null_loop file_ab acc = Some (file', out) ->
  Forall complete_row out.
Proof.
  induction file_ab as [|row rest IH]; intros acc file' out Hacc; cbn.
  - intros E. injection E as _ <-. exact Hacc.
  - destruct (Decay.remove_null_row row acc) as [[row' acc']|] eqn:R;
      [|discriminate]. cbn [snd fst].
    destruct (Decay.remove_null_loop rest acc') as [[rest' out']|] eqn:L;
      [|discriminate]. cbn [snd fst].
    intros E. injection E as _ <-.
    apply (IH acc' rest' out'); [|exact L].
    destruct (remove_null_row_complete _ _ _ _ R) as [->|(temp & Ht & ->)];
      [exact Hacc|].
    apply Forall_app. split; [exact Hacc|]. constructor; [exact Ht|constructor].
Qed.
End CleanFacts.

(** In binary64, whatever array [remove_null_values] is given (rows of any
    width, any values), every row of the array it returns has exactly three
    fields and none of them is NaN: the unit conversions (times 3600, times
    10^12) never make a NaN of a number.  (They can make an infinity of a
    large number.) *)
Theorem remove_null_values_returns_no_nan :
  forall (file_ab file_ab' null_filtered_data : list (list float)),
    Decay.remove_null_values file_ab = Some (file_ab', null_filtered_data) ->
    Forall complete_row null_filtered_data.
Proof.
  intros file_ab file' out E.
  exact (CleanFacts.remove_null_loop_complete file_ab [] file' out
           (Forall_nil _) E).
Qed.

Lemma remove_null_values_returns_no_nan_witness :
  (Decay.remove_null_values [[1; 2; nan]; [0.5; 1e300; 3]; [nan; 4; 5]]
   = Some ([[1; 2; nan]; [1800; infinity; 3e12]; [nan; 4; 5]],
           [[1800; infinity; 3e12]])
   /\ Forall complete_row [[1800; infinity; 3e12]])%float.
Proof.
  split; [reflexivity|].
  apply (remove_null_values_returns_no_nan
           [[1; 2; nan]; [0.5; 1e300; 3]; [nan; 4; 5]]
           [[1; 2; nan]; [1800; infinity; 3e12]; [nan; 4; 5]])%float.
  reflexivity.
Defined.

(** ** A second pass of the outlier filter *)

(** Filtering again with the same predictions removes nothing more: when
    [remove_outliers] has returned, a second call on the observations it
    retained, each with the prediction it was tested against, returns the
    same array.  (The second call repeats, on the retained rows, operations
    of the first call, so it overflows nowhere.)  In any arithmetic. *)
Theorem remove_outliers_second_pass :
  forall (F : Type) (A : Arith F) (observations : list (@observation F))
         (outlier_filtered_data : list (list F)),
    Decay.remove_outliers (map prediction observations) (map time observations)
      (map activity observations) (map activity_uncertainty observations)
    = Some outlier_filtered_data ->
    let retained := filter within_three_sigma observations in
    outlier_filtered_data
    = map (fun o => [time o; activity o; activity_uncertainty o]) retained
    /\ Decay.remove_outliers (map prediction retained) (map time retained)
         (map activity retained) (map activity_uncertainty retained)
       = Some outlier_filtered_data.
Proof.
  intros F A observations out. rewrite remove_outliers_filter.
  intros E retained. injection E as <-. split; [reflexivity|].
  rewrite remove_outliers_filter. f_equal. f_equal. unfold retained.
  induction observations as [|o l IH]; [reflexivity|]. cbn [filter].
  destruct (within_three_sigma o) eqn:W; [|exact IH].
  cbn [filter]. rewrite W. f_equal. exact IH.
Qed.

Lemma remove_outliers_second_pass_witness :
  ([[1; 10; 1]; [3; 12; 2]]
   = map (fun o => [time o; activity o; activity_uncertainty o])
       [(11, 1, 10, 1); (11, 3, 12, 2)]
   /\ Decay.remove_outliers (map prediction [(11, 1, 10, 1); (11, 3, 12, 2)])
        (map time [(11, 1, 10, 1); (11, 3, 12, 2)])
        (map activity [(11, 1, 10, 1); (11, 3, 12, 2)])
        (map activity_uncertainty [(11, 1, 10, 1); (11, 3, 12, 2)])
      = Some [[1; 10; 1]; [3; 12; 2]])%float.
Proof.
  apply (remove_outliers_second_pass float float_arith
           [(11, 1, 10, 1); (11, 2, 20, 1); (11, 3, 12, 2)]
           [[1; 10; 1]; [3; 12; 2]])%float.
  reflexivity.
Defined.

(** ** The sign of the reduced chi-squared, in binary64 *)

Section BroadcastElements.
Context {F : Type} `{Arith F}.

(** Every element of a broadcast result is made of an element of each
    array. *)
Lemma broadcast_In {A : Type} (f : F -> F -> A) (xs ys : list F)
    (l : list A) (z : A) :
  Decay.broadcast f xs ys = Some l -> In z l ->
  exists x y, In x xs /\ In y ys /\ z = f x y.
Proof.
  unfold Decay.broadcast.
  assert (Hzip : In z (map (fun p => f (fst p) (snd p)) (combine xs ys)) ->
                 exists x y, In x xs /\ In y ys /\ z = f x y).
  { intros Hz. apply in_map_iff in Hz as ([x y] & <- & Hin).
    exists x, y. split; [eapply in_combine_l; eauto|].
    split; [eapply in_combine_r; eauto|reflexivity]. }
  assert (Hleft : forall x, In x xs -> In z (map (f x) ys) ->
                 exists x y, In x xs /\ In y ys /\ z = f x y).
  { intros x Hx Hz. apply in_map_iff in Hz as (y & <- & Hin). eauto. }
  assert (Hright : forall y, In y ys -> In z (map (fun x => f x y) xs) ->
                 exists x y, In x xs /\ In y ys /\ z = f x y).
  { intros y Hy Hz. apply in_map_iff in Hz as (x & <- & Hin). eauto. }
  destruct (length xs =? length ys)%nat.
  - intros E. injection E as <-. exact Hzip.
  - destruct xs as [|x [|x2 xs]].
    + destruct ys as [|y [|]]; try discriminate.
      intros E. injection E as <-. intros [].
    + intros E. injection E as <-. apply Hleft. now left.
    + destruct ys as [|y [|]]; try discriminate.
      intros E. injection E as <-. apply Hright. now left.
Qed.
End BroadcastElements.

Module SignFacts.
Local Open Scope Z_scope.

(** A square is not negative. *)
Lemma square_sign (x : float) : has_sign false (Prim2SF (x * x)).
Proof.
  rewrite mul_spec. unfold SF64mul.
  destruct (Prim2SF x) as [s|s| |s m e]; cbn [SFmul has_sign];
    try apply xorb_nilpotent; try exact I.
  rewrite xorb_nilpotent. apply RoundingFacts.binary_round_aux_sign.
Qed.

(** The sign of a quotient is the product of the signs. *)
Lemma div_sign (sx sy : bool) (x y : float) :
  has_sign sx (Prim2SF x) -> has_sign sy (Prim2SF y) ->
  has_sign (xorb sx sy) (Prim2SF (x / y)).
Proof.
  rewrite div_spec. unfold SF64div.
  destruct (Prim2SF x) as [s|s| |s m e]; cbn [has_sign];
    destruct (Prim2SF y) as [s'|s'| |s' m' e']; cbn [has_sign SFdiv];
    try (intros; exact I); try (intros -> ->; reflexivity).
  intros -> ->.
  destruct (SFdiv_core_binary prec emax (Zpos m) e (Zpos m') e')
    as [[mz ez] lz].
  apply RoundingFacts.binary_round_aux_sign.
Qed.

(** A sum of two numbers that are not negative is not negative. *)
Lemma add_sign (x y : float) :
  has_sign false (Prim2SF x) -> has_sign false (Prim2SF y) ->
  has_sign false (Prim2SF (x + y)).
Proof.
  rewrite add_spec. unfold SF64add.
  destruct (Prim2SF x) as [s|s| |s m e]; cbn [has_sign];
    destruct (Prim2SF y) as [s'|s'| |s' m' e']; cbn [has_sign SFadd];
    try (intros; exact I); try (intros -> ->; reflexivity).
  intros -> ->. cbn [cond_Zopp].
  match goal with
  | |- context [Zpos ?a + Zpos ?b] =>
      change (Zpos a + Zpos b) with (Zpos (a + b))
  end.
  cbn [binary_normalize]. unfold binary_round.
  destruct (shl_align _ _ _) as [mz ez].
  apply RoundingFacts.binary_round_aux_sign.
Qed.

Lemma sum_sign (terms : list float) : forall acc : float,
  has_sign false (Prim2SF acc) ->
  Forall (fun t => has_sign false (Prim2SF t)) terms ->
  has_sign false (Prim2SF (fold_left PrimFloat.add terms acc)).
Proof.
  induction terms as [|t terms IH]; intros acc Hacc Hterms; [exact Hacc|].
  cbn [fold_left]. apply IH; [|now apply Forall_inv_tail in Hterms].
  apply add_sign; [exact Hacc|now apply Forall_inv in Hterms].
Qed.

(** The chi-squared sum is not negative. *)
Lemma chi_squared_sign (dependent_variable error
    predicted_dependent_variable : list float) (chi : float) :
  Decay.chi_squared dependent_variable error predicted_dependent_variable
  = Some chi ->
  has_sign false (Prim2SF chi).
Proof.
  unfold Decay.chi_squared.
  destruct (Decay.broadcast fsub _ _) as [residual|]; [|discriminate].
  destruct (Decay.broadcast fdiv _ _) as [terms|] eqn:T; [|discriminate].
  intros E. injection E as <-. apply sum_sign; [reflexivity|].
  apply Forall_forall. intros term Hin.
  destruct (broadcast_In fdiv _ _ _ term T Hin) as (x & y & Hx & Hy & ->).
  apply in_map_iff in Hx as (r & <- & _).
  apply in_map_iff in Hy as (u & <- & _).
  exact (div_sign false false _ _ (square_sign r) (square_sign u)).
Qed.

Lemma nonnegative_or_nan (x : float) :
  has_sign false (Prim2SF x) -> (0 <=? x)%float = true \/ is_nan x = true.
Proof.
  rewrite leb_spec, FloatFacts.is_nan_spec.
  change (Prim2SF 0) with (S754_zero false).
  destruct (Prim2SF x) as [s|s| |s m e]; cbn [has_sign];
    try (intros ->; left; reflexivity). intros _. now right.
Qed.

Lemma nonpositive_or_nan (x : float) :
  has_sign true (Prim2SF x) -> (x <=? 0)%float = true \/ is_nan x = true.
Proof.
  rewrite leb_spec, FloatFacts.is_nan_spec.
  change (Prim2SF 0) with (S754_zero false).
  destruct (Prim2SF x) as [s|s| |s m e]; cbn [has_sign];
    try (intros ->; left; reflexivity). intros _. now right.
Qed.

End SignFacts.




(** ** The whole analysis *)

Section MainFacts.
Context {F : Type} `{Arith F}.
Variable fneg e_power np_log np_sqrt : F -> F.
Variable Avogadro : F.
Variable curve_fit :
  (list F -> F -> F -> list F) -> list F -> list F -> list F ->
  option (list F) -> option (list F * list (list F)).

Local Abbreviation activity_at :=
  (Decay.rubidium_activity_at fneg e_power Avogadro).
Local Abbreviation activity_model :=
  (Decay.rubidium_activity fneg e_power Avogadro).

Lemma converted_as_row (r : @measurement F) :
  converted r = as_row (converted_record r).
Proof. now destruct r as [[t a] u]. Qed.

Lemma column_records (records : list (@measurement F)) :
  Decay.column 0 (map as_row records) = Some (map time_of records)
  /\ Decay.column 1 (map as_row records)
     = Some (map activity_of records)
  /\ Decay.column 2 (map as_row records) = Some (map uncertainty_of records).
Proof.
  induction records as [|[[t a] u] records (IH0 & IH1 & IH2)];
    [repeat split|].
  cbn [map Decay.column as_row nth_error].
  unfold time_of, activity_of, uncertainty_of in *. cbn [fst snd].
  rewrite IH0, IH1, IH2. repeat split.
Qed.

Lemma filter_map_commute {A B : Type} (f : A -> B) (p : B -> bool)
    (l : list A) :
  filter p (map f l) = map f (filter (fun x => p (f x)) l).
Proof.
  induction l as [|x l IH]; [reflexivity|]. cbn.
  destruct (p (f x)); cbn; now rewrite IH.
Qed.

(** The outlier filter on the columns of cleaned records. *)
Lemma remove_outliers_records (predict : F -> F)
    (records : list (@measurement F)) :
  Decay.remove_outliers
    (map predict (map time_of records))
    (map time_of records)
    (map activity_of records) (map uncertainty_of records)
  = Some (map as_row
            (filter (record_within_three_sigma predict) records)).
Proof.
  pose (observe := fun r : @measurement F =>
          let '(t, a, u) := r in ((predict t, t, a, u) : @observation F)).
  assert (E : forall (g : @observation F -> F) (g' : @measurement F -> F),
            (forall r, g (observe r) = g' r) ->
            map g' records = map g (map observe records)).
  { intros g g' Hg. rewrite map_map. apply map_ext. intros r. now rewrite Hg. }
  rewrite map_map.
  rewrite (E prediction (fun r => predict (time_of r)))
    by (now intros [[t a] u]).
  rewrite (E time time_of) by (now intros [[t a] u]).
  rewrite (E activity activity_of) by (now intros [[t a] u]).
  rewrite (E activity_uncertainty uncertainty_of) by (now intros [[t a] u]).
  rewrite remove_outliers_filter. f_equal.
  rewrite filter_map_commute, map_map.
  replace (filter (fun x => within_three_sigma (observe x)) records)
    with (filter (record_within_three_sigma predict) records).
  - apply map_ext. now intros [[t a] u].
  - apply filter_ext. now intros [[t a] u].
Qed.

(** A run of [main] that reaches its end, step by step. *)
Lemma main_steps (file_a file_b : @Decay.loaded F) (save_data : string)
    (report : @Decay.report F) :
  Decay.main fneg e_power np_log np_sqrt Avogadro curve_fit file_a file_b
    save_data = Some report ->
  exists (records : list (@measurement F)) (s0 r0 : F)
         (covariance final_covariance : list (list F)) (final_fit : list F)
         (fit1 fit0 : F),
    rows_of file_a ++ rows_of file_b = map as_row records
    /\ curve_fit activity_model
         (map time_of (cleaned records))
         (map activity_of (cleaned records))
         [Decay.INITIAL_STRONTIUM_DECAY_CONSTANT;
          Decay.INITIAL_RUBIDIUM_DECAY_CONSTANT] None
       = Some ([s0; r0], covariance)
    /\ let final_records :=
         filter (record_within_three_sigma (fun t => activity_at t s0 r0))
           (cleaned records) in
       Decay.final_data report = map as_row final_records
       /\ final_records <> []
       /\ curve_fit activity_model
            (map time_of final_records)
            (map activity_of final_records) [s0; r0]
            (Some (map uncertainty_of final_records))
          = Some (final_fit, final_covariance)
       /\ nth_error final_fit 1 = Some fit1
       /\ nth_error final_fit 0 = Some fit0
       /\ Decay.chi_squared_value
            (map time_of final_records)
            (map activity_of final_records)
            (map uncertainty_of final_records)
            (activity_model (map time_of final_records)
               fit1 fit0)
            (map as_row final_records)
          = Some (Decay.reduced_chi_squared report)
       /\ Decay.half_life np_log np_sqrt final_fit final_covariance
          = Some (Decay.half_lives report,
                  Decay.half_life_uncertainties report)
       /\ fst (Decay.rubidium_decay_constant report) = fit1
       /\ fst (Decay.strontium_decay_constant report) = fit0
       /\ Decay.activity_at_90_minutes report
          = fdiv (activity_at (fint 5400) fit1 fit0) (fint (10 ^ 12))
       /\ Decay.saved report
          = if String.eqb save_data "yes"
            then Some (Decay.final_data report) else None.
Proof.
  unfold Decay.main. rewrite read_in_rows.
  destruct (forallb _ _) eqn:Hw; [|discriminate].
  destruct (rows_of_width_three _ Hw) as (records & Erows). rewrite Erows.
  unfold Decay.remove_null_values. rewrite remove_null_loop_measurements.
  cbn [snd app].
  replace (map converted (filter no_field_missing records))
    with (map as_row (cleaned records))
    by (unfold cleaned; rewrite map_map; apply map_ext; intros r;
        symmetry; apply converted_as_row).
  destruct (column_records (cleaned records)) as (-> & -> & ->).
  cbv beta match.
  match goal with
  | |- match ?fitted with _ => _ end = _ -> _ =>
      destruct fitted as [[fit covariance]|] eqn:Fit; [|discriminate]
  end. cbn [fst snd].
  destruct fit as [|s0 [|r0 [|? ?]]]; try discriminate.
  change (activity_model (map time_of (cleaned records)) s0 r0)
    with (map (fun t => activity_at t s0 r0) (map time_of (cleaned records))).
  rewrite (remove_outliers_records (fun t => activity_at t s0 r0)).
  cbv beta match.
  set (final_records :=
         filter (record_within_three_sigma (fun t => activity_at t s0 r0))
           (cleaned records)).
  destruct (column_records final_records) as (-> & -> & ->).
  cbv beta match.
  match goal with
  | |- match ?refitted with _ => _ end = _ -> _ =>
      destruct refitted as [[final_fit final_covariance]|] eqn:Refit;
        [|discriminate]
  end. cbn [fst snd].
  destruct (nth_error final_fit 1) as [fit1|] eqn:Fit1; [|discriminate].
  destruct (nth_error final_fit 0) as [fit0|] eqn:Fit0; [|discriminate].
  destruct (Decay.plot_rubidium_activity _ _ _ _ _) eqn:Plot; [|discriminate].
  destruct (Decay.chi_squared_value _ _ _ _ _) as [reduced|] eqn:Chi;
    [|discriminate].
  destruct (Decay.half_life _ _ _ _) as [lives|] eqn:Lives; [|discriminate].
  destruct (nth_error final_covariance 1) as [covariance1|]; [|discriminate].
  destruct (nth_error covariance1 1) as [covariance11|]; [|discriminate].
  destruct (nth_error final_covariance 0) as [covariance0|]; [|discriminate].
  destruct (nth_error covariance0 0) as [covariance00|]; [|discriminate].
  intros E. injection E as <-.
  cbn [Decay.final_data Decay.reduced_chi_squared Decay.half_lives
       Decay.half_life_uncertainties Decay.rubidium_decay_constant
       Decay.strontium_decay_constant Decay.activity_at_90_minutes
       Decay.saved fst snd].
  exists records, s0, r0, covariance, final_covariance, final_fit, fit1, fit0.
  split; [reflexivity|]. split; [exact Fit|].
  split; [reflexivity|]. split.
  { intros Hnil. unfold Decay.plot_rubidium_activity in Plot.
    unfold final_records in *. rewrite Hnil in Plot. discriminate Plot. }
  split; [exact Refit|]. split; [exact Fit1|]. split; [exact Fit0|].
  split; [exact Chi|]. split; [now destruct lives|]. repeat split.
Qed.
End MainFacts.


(** The statistics that a run of [main] prints.  When [main] reaches its
    end with n rows in [final_data]: n is at least 1; the reduced
    chi-squared is the chi-squared sum of the n rows against the refitted
    curve divided by n - 2 (a division by zero for two rows, by -1 for a
    single row); the two half-lives are log 2 divided by the decay constants
    printed with them; and the activity printed for the 90 minute marker is
    the refitted curve at 5400 seconds, divided by 10^12.  In any
    arithmetic. *)
Theorem main_statistics :
  forall (F : Type) (A : Arith F) (fneg e_power np_log np_sqrt : F -> F)
         (Avogadro : F)
         (curve_fit : (list F -> F -> F -> list F) -> list F -> list F ->
                      list F -> option (list F) ->
                      option (list F * list (list F)))
         (file_a file_b : @Decay.loaded F) (save_data : string)
         (report : @Decay.report F),
    Decay.main fneg e_power np_log np_sqrt Avogadro curve_fit file_a file_b
      save_data = Some report ->
    let n := length (Decay.final_data report) in
    let rubidium := fst (Decay.rubidium_decay_constant report) in
    let strontium := fst (Decay.strontium_decay_constant report) in
    (1 <= n)%nat
    /\ (exists (final_time final_activity final_uncertainty : list F)
               (chi_squared : F),
          Decay.column 0 (Decay.final_data report) = Some final_time
          /\ Decay.column 1 (Decay.final_data report) = Some final_activity
          /\ Decay.column 2 (Decay.final_data report) = Some final_uncertainty
          /\ Decay.chi_squared final_activity final_uncertainty
               (Decay.rubidium_activity fneg e_power Avogadro final_time
                  rubidium strontium)
             = Some chi_squared
          /\ Decay.reduced_chi_squared report
             = fdiv chi_squared (fint (Z.of_nat n - 2)))
    /\ Decay.half_lives report
       = (fdiv (np_log (fint 2)) rubidium, fdiv (np_log (fint 2)) strontium)
    /\ Decay.activity_at_90_minutes report
       = fdiv (Decay.rubidium_activity_at fneg e_power Avogadro (fint 5400)
                 rubidium strontium) (fint (10 ^ 12)).
Proof.
  intros F A fneg e_power np_log np_sqrt Avogadro curve_fit file_a file_b
    save_data report Hmain.
  destruct (main_steps _ _ _ _ _ _ _ _ _ _ Hmain)
    as (records & s0 & r0 & covariance & final_covariance & final_fit
        & fit1 & fit0 & Hrows & Hfit & Hsteps).
  cbv zeta in Hsteps |- *.
  destruct Hsteps as (Hdata & Hsome & _ & Hfit1 & Hfit0 & Hchi & Hlives
                      & -> & -> & H90 & _).
  set (final_records := filter _ (cleaned records)) in *.
  rewrite Hdata.
  destruct (column_records final_records) as (-> & -> & ->).
  split.
  { rewrite length_map. destruct final_records; [now elim Hsome|cbn; lia]. }
  split.
  { unfold Decay.chi_squared_value in Hchi.
    destruct (Decay.chi_squared _ _ _) as [chi|] eqn:Hsum; [|discriminate].
    exists (map time_of final_records), (map activity_of final_records),
      (map uncertainty_of final_records), chi.
    split; [reflexivity|]. split; [reflexivity|]. split; [reflexivity|].
    split; [exact Hsum|].
    destruct final_records as [|[[t a] u] rest]; [now elim Hsome|].
    cbn [map nth_error as_row length] in Hchi |- *.
    injection Hchi as <-. now rewrite !length_map. }
  split; [|exact H90].
  unfold Decay.half_life in Hlives. rewrite Hfit1, Hfit0 in Hlives.
  destruct (nth_error final_covariance 1) as [covariance1|]; [|discriminate].
  destruct (nth_error covariance1 1) as [covariance11|]; [|discriminate].
  destruct (nth_error final_covariance 0) as [covariance0|]; [|discriminate].
  destruct (nth_error covariance0 0) as [covariance00|]; [|discriminate].
  injection Hlives as <- _. reflexivity.
Qed.

(** The cleaned records of binary64 data hold no NaN. *)
Lemma cleaned_no_nan (records : list (@measurement float)) :
  Forall (fun r => is_nan (time_of r) = false /\ is_nan (activity_of r) = false
                   /\ is_nan (uncertainty_of r) = false)
    (cleaned records).
Proof.
  unfold cleaned. induction records as [|[[t a] u] records IH];
    [constructor|]. cbn [filter no_field_missing].
  cbn [fisnan float_arith].
  destruct (is_nan t) eqn:Ht; [exact IH|].
  destruct (is_nan a) eqn:Ha; [exact IH|].
  destruct (is_nan u) eqn:Hu; [exact IH|].
  cbn [negb andb map]. constructor; [|exact IH].
  unfold converted_record, time_of, activity_of, uncertainty_of.
  cbn [fst snd fmul fint float_arith].
  auto using CleanFacts.seconds_not_nan, CleanFacts.becquerel_not_nan.
Qed.

(** In binary64, when [main] reaches its end every row of [final_data] can
    be used by the weighted fit and by the chi-squared: it has three fields,
    its time and its activity are numbers and not NaN, and its uncertainty
    is strictly positive (so it is not zero, not negative and not NaN);
    and there is at least one row. *)
Theorem main_final_data_usable :
  forall (fneg e_power np_log np_sqrt : float -> float) (Avogadro : float)
         (curve_fit : (list float -> float -> float -> list float) ->
                      list float -> list float -> list float ->
                      option (list float) ->
                      option (list float * list (list float)))
         (file_a file_b : @Decay.loaded float) (save_data : string)
         (report : @Decay.report float),
    Decay.main fneg e_power np_log np_sqrt Avogadro curve_fit file_a file_b
      save_data = Some report ->
    Forall usable_row (Decay.final_data report)
    /\ Decay.final_data report <> [].
Proof.
  intros fneg e_power np_log np_sqrt Avogadro curve_fit file_a file_b
    save_data report Hmain.
  destruct (main_steps _ _ _ _ _ _ _ _ _ _ Hmain)
    as (records & s0 & r0 & covariance & final_covariance & final_fit
        & fit1 & fit0 & Hrows & Hfit & Hsteps).
  cbv zeta in Hsteps.
  destruct Hsteps as (Hdata & Hsome & _).
  rewrite Hdata. split.
  - apply Forall_map, Forall_forall. intros [[t a] u] Hin.
    apply filter_In in Hin as [Hin Hw].
    pose proof (cleaned_no_nan records) as Hc.
    rewrite Forall_forall in Hc. destruct (Hc _ Hin) as (Ht & Ha & _).
    cbn. repeat split; [exact Ht|exact Ha|].
    exact (FloatFacts.within_three_sigma_positive _ _ Hw).
  - intros Hnil. apply Hsome. now apply map_eq_nil in Hnil.
Qed.


Lemma main_statistics_witness :
  match example_main "no" with
  | Some report =>
      (1 <= length (Decay.final_data report))%nat
      /\ Decay.half_lives report
         = (example_np_log 2 / fst (Decay.rubidium_decay_constant report),
            example_np_log 2 / fst (Decay.strontium_decay_constant report))%float
  | None => False
  end.
Proof.
  destruct (example_main "no") as [report|] eqn:E;
    [|vm_compute in E; discriminate E].
  destruct (main_statistics float float_arith PrimFloat.opp example_e_power
              example_np_log PrimFloat.sqrt example_Avogadro example_curve_fit
              example_file_a example_file_b "no" report E)
    as (Hn & _ & Hlives & _).
  split; [exact Hn|exact Hlives].
Defined.

Lemma main_final_data_usable_witness :
  match example_main "yes" with
  | Some report =>
      Forall usable_row (Decay.final_data report)
      /\ Decay.final_data report <> []
  | None => False
  end.
Proof.
  destruct (example_main "yes") as [report|] eqn:E;
    [|vm_compute in E; discriminate E].
  exact (main_final_data_usable PrimFloat.opp example_e_power example_np_log
           PrimFloat.sqrt example_Avogadro example_curve_fit example_file_a
           example_file_b "yes" report E).
Defined.

(** ** Infinite values and divisions by zero, in binary64 *)

Module EdgeFacts.
Local Open Scope float_scope.

(** What lies strictly below a number in absolute value is finite. *)
Lemma ltb_abs_finite (d y : float) :
  (abs d <? y) = true -> finite_number (Prim2SF d).
Proof.
  rewrite ltb_spec, abs_spec. unfold SFltb.
  destruct (Prim2SF d) as [s|s| |s m e]; cbn; try discriminate;
    try (intros _; exact I).
  destruct (Prim2SF y) as [s'|s'| |s' m' e']; try discriminate;
    destruct s'; discriminate.
Qed.

(** A finite difference is the difference of two finite numbers. *)
Lemma sub_finite (p a : float) :
  finite_number (Prim2SF (p - a)) ->
  finite_number (Prim2SF p) /\ finite_number (Prim2SF a).
Proof.
  rewrite sub_spec.
  destruct (Prim2SF p) as [s|s| |s m e], (Prim2SF a) as [s'|s'| |s' m' e'];
    cbn; try (intros []; fail); try (intros _; split; exact I);
    destruct s, s'; cbn; intros H; try contradiction; split; exact I.
Qed.

(** Nothing divided by zero is a finite number. *)
Lemma div_zero_not_finite (x : float) :
  ~ finite_number (Prim2SF (x / 0)).
Proof.
  rewrite div_spec. change (Prim2SF 0) with (S754_zero false).
  destruct (Prim2SF x) as [s|s| |s m e]; cbn; intros H; exact H.
Qed.
End EdgeFacts.

(** In binary64 every row that [remove_outliers] retains has a finite
    measured activity and was tested against a finite prediction: a row
    whose activity or whose prediction is infinite or NaN is always
    discarded, whatever its uncertainty.  (An infinite uncertainty does not
    discard a row.) *)
Theorem remove_outliers_retains_finite_activities :
  forall (observations : list (@observation float))
         (outlier_filtered_data : list (list float)) (row : list float),
    Decay.remove_outliers (map prediction observations) (map time observations)
      (map activity observations) (map activity_uncertainty observations)
    = Some outlier_filtered_data ->
    In row outlier_filtered_data ->
    exists o,
      In o observations
      /\ row = [time o; activity o; activity_uncertainty o]
      /\ finite_number (Prim2SF (prediction o))
      /\ finite_number (Prim2SF (activity o)).
Proof.
  intros observations out row. rewrite remove_outliers_filter.
  intros E Hin. injection E as <-.
  apply in_map_iff in Hin as (o & <- & Ho).
  apply filter_In in Ho as [Ho Hw].
  exists o. split; [exact Ho|]. split; [reflexivity|].
  apply EdgeFacts.sub_finite. exact (EdgeFacts.ltb_abs_finite _ _ Hw).
Qed.

Lemma remove_outliers_retains_finite_activities_witness :
  (exists o,
     In o [(1, 0, 1.5, infinity); (1, 1, infinity, infinity);
           (infinity, 2, 1, 1); (nan, 3, 1, 1)]
     /\ [0; 1.5; infinity] = [time o; activity o; activity_uncertainty o]
     /\ finite_number (Prim2SF (prediction o))
     /\ finite_number (Prim2SF (activity o)))%float.
Proof.
  apply (remove_outliers_retains_finite_activities
           [(1, 0, 1.5, infinity); (1, 1, infinity, infinity);
            (infinity, 2, 1, 1); (nan, 3, 1, 1)]
           [[0; 1.5; infinity]] [0; 1.5; infinity])%float.
  - reflexivity.
  - now left.
Defined.

(** In binary64, with exactly two samples and a dataset of three-field rows
    the reduced chi-squared that [chi_squared_value] returns is never a
    finite number: the sum is divided by zero degrees of freedom, which
    gives an infinity or NaN (numpy warns and goes on). *)
Theorem chi_squared_value_two_samples :
  forall (x1 x2 : float) (dependent_variable error
          predicted_dependent_variable : list float) (t a u : float)
         (dataset : list (list float)) (reduced : float),
    Decay.chi_squared_value [x1; x2] dependent_variable error
      predicted_dependent_variable ([t; a; u] :: dataset) = Some reduced ->
    ~ finite_number (Prim2SF reduced).
Proof.
  intros x1 x2 d e p t a u ds reduced. unfold Decay.chi_squared_value.
  destruct (Decay.chi_squared d e p) as [chi|]; [|discriminate].
  cbn [nth_error length]. intros E. injection E as <-.
  exact (EdgeFacts.div_zero_not_finite chi).
Qed.

Lemma chi_squared_value_two_samples_witness :
  (Decay.chi_squared_value [0; 1] [1; 2] [1; 1] [1; 2.5]
     [[0; 1; 1]; [1; 2; 1]] = Some infinity
   /\ ~ finite_number (Prim2SF infinity))%float.
Proof.
  split; [reflexivity|].
  apply (chi_squared_value_two_samples 0 1 [1; 2] [1; 1] [1; 2.5] 0 1 1
           [[1; 2; 1]] infinity)%float.
  reflexivity.
Defined.

(** ** Binary64: when the loop of [calculate_height_values] ends *)


Module OrderFacts.
Local Open Scope Z_scope.

Lemma bounded_mantissa (m : positive) (e : Z) :
  bounded prec emax m e = true ->
  emin <= e /\ Zpos m < 2 ^ 53 /\ (emin < e -> 2 ^ 52 <= Zpos m).
Proof.
  intros Hb. unfold bounded, canonical_mantissa in Hb.
  apply andb_prop in Hb as [Hcan _]. apply Z.eqb_eq in Hcan.
  pose proof (StrictRounding.digits2_bounds m) as [Hlow Hhigh].
  unfold fexp in Hcan. assert (Hprec : prec = 53) by reflexivity.
  split; [lia|]. split.
  - eapply Z.lt_le_trans; [exact Hhigh|]. apply Z.pow_le_mono_r; lia.
  - intros He. eapply Z.le_trans; [|exact Hlow].
    apply Z.pow_le_mono_r; lia.
Qed.

Lemma rank_positive (m : positive) (e : Z) :
  bounded prec emax m e = true -> 0 < rank (S754_finite false m e).
Proof.
  intros Hb. destruct (bounded_mantissa m e Hb) as (He & _ & _).
  cbn [rank]. assert (0 < 2 ^ 53) by reflexivity. nia.
Qed.

(** The order of the strictly positive finite numbers is the order of their
    ranks. *)
Lemma rank_compare (m1 m2 : positive) (e1 e2 : Z) :
  bounded prec emax m1 e1 = true -> bounded prec emax m2 e2 = true ->
  SFcompare (S754_finite false m1 e1) (S754_finite false m2 e2)
  = Some (rank (S754_finite false m1 e1) ?= rank (S754_finite false m2 e2)).
Proof.
  intros Hb1 Hb2.
  destruct (bounded_mantissa m1 e1 Hb1) as (He1 & Hm1 & _).
  destruct (bounded_mantissa m2 e2 Hb2) as (He2 & Hm2 & _).
  cbn [SFcompare rank]. f_equal.
  revert Hm1 Hm2. generalize (2 ^ 53). intros B Hm1 Hm2.
  rewrite Pos.compare_cont_spec. cbn [Pos.switch_Eq].
  change (Pos.compare m1 m2) with (Zpos m1 ?= Zpos m2).
  symmetry.
  destruct (Z.compare_spec e1 e2) as [->|Hlt|Hgt].
  - destruct (Z.compare_spec (Zpos m1) (Zpos m2)) as [E|L|G].
    + rewrite E. apply Z.compare_refl.
    + apply Z.compare_lt_iff. lia.
    + apply Z.compare_gt_iff. lia.
  - apply Z.compare_lt_iff. nia.
  - apply Z.compare_gt_iff. nia.
Qed.

Lemma rank_nonnegative (x : float) : 0 <= rank (Prim2SF x).
Proof.
  pose proof (Prim2SF_valid x) as Hv.
  destruct (Prim2SF x) as [s|s| |s m e]; cbn [rank]; try lia.
  destruct s; [lia|]. apply Z.lt_le_incl, rank_positive. exact Hv.
Qed.

(** A number of the format above the smallest normal number, as the
    rounding lemmas take it. *)
Lemma rank_normal (m : positive) (e : Z) :
  bounded prec emax m e = true ->
  2 ^ 52 < rank (S754_finite false m e) ->
  2 ^ 52 < Zpos m * 2 ^ (e - emin).
Proof.
  intros Hb Hr. destruct (bounded_mantissa m e Hb) as (He & Hm & Hn).
  cbn [rank] in Hr.
  destruct (Z.eq_dec e emin) as [->|Hne].
  - rewrite Z.sub_diag in *. change (2 ^ 0) with 1. lia.
  - specialize (Hn ltac:(lia)).
    assert (Hp : 2 ^ 1 <= 2 ^ (e - emin)) by (apply Z.pow_le_mono_r; lia).
    change (2 ^ 1) with 2 in Hp. revert Hn Hp.
    generalize (2 ^ 52) (2 ^ (e - emin)). intros T J Hn Hp.
    assert (0 < T \/ T <= 0) as [|] by lia; nia.
Qed.
End OrderFacts.

Module TerminationFacts.
Local Open Scope float_scope.

Lemma smallest_normal_rank :
  exists m e, Prim2SF smallest_normal = S754_finite false m e
              /\ bounded prec emax m e = true
              /\ rank (S754_finite false m e) = (2 ^ 52)%Z.
Proof. vm_compute. do 2 eexists. repeat split. Qed.

(** Above the smallest normal number and below infinity, a product with a
    fraction is strictly smaller. *)
Lemma mul_fraction_lt (h c : float) :
  (smallest_normal <? h) = true -> (h <? infinity) = true ->
  (0 <? c) = true -> (c <? 1) = true ->
  (h * c <? h) = true
  /\ (2 ^ 52 < rank (Prim2SF h))%Z
  /\ (rank (Prim2SF (h * c)) < rank (Prim2SF h))%Z.
Proof.
  intros Hn Hfin Hc0 Hc1.
  destruct smallest_normal_rank as (m0 & e0 & E0 & Hb0 & Hr0).
  pose proof (Prim2SF_valid h) as Hvh. pose proof (Prim2SF_valid c) as Hvc.
  pose proof (Prim2SF_valid (h * c)) as Hvp.
  assert (Hh0 : (0 <? h) = true).
  { apply FloatFacts.is_positive_ltb. rewrite ltb_spec, E0 in Hn.
    unfold SFltb in Hn.
    destruct (Prim2SF h) as [s|s| |s mh eh]; cbn in Hn |- *;
      try discriminate; destruct s; try discriminate; exact I. }
  assert (E1 : exists m1 e1, Prim2SF 1 = S754_finite false m1 e1
                             /\ Zpos m1 = (2 ^ (- e1))%Z /\ (e1 <= -52)%Z).
  { vm_compute. do 2 eexists. split; [reflexivity|].
    split; [reflexivity|discriminate]. }
  destruct E1 as (m1 & e1 & E1 & Hm1 & He1).
  destruct (FloatFacts.mul_fraction_lt_or_stuck h c Hh0 Hc0 Hc1)
    as [Hlt|Hstuck].
  - split; [exact Hlt|].
    rewrite ltb_spec in Hn, Hfin, Hlt. rewrite E0 in Hn.
    change (Prim2SF infinity) with (S754_infinity false) in Hfin.
    unfold SFltb in Hn, Hfin, Hlt.
    destruct (Prim2SF h) as [s|s| |s mh eh]; try discriminate;
      destruct s; try discriminate.
    cbn [valid_binary] in Hvh.
    rewrite (OrderFacts.rank_compare m0 mh e0 eh Hb0 Hvh), Hr0 in Hn.
    split.
    + destruct (Z.compare_spec (2 ^ 52)
                  (rank (S754_finite false mh eh))); try discriminate.
      assumption.
    + destruct (Prim2SF (h * c)) as [s|s| |s mp ep];
        try (apply OrderFacts.rank_positive; exact Hvh);
        destruct s; try (apply OrderFacts.rank_positive; exact Hvh).
      cbn [valid_binary] in Hvp.
      rewrite (OrderFacts.rank_compare mp mh ep eh Hvp Hvh) in Hlt.
      destruct (Z.compare_spec (rank (S754_finite false mp ep))
                  (rank (S754_finite false mh eh))); try discriminate.
      assumption.
  - exfalso. apply (f_equal Prim2SF) in Hstuck. rewrite mul_spec in Hstuck.
    rewrite ltb_spec in Hn, Hfin, Hc1. rewrite E0 in Hn. rewrite E1 in Hc1.
    apply FloatFacts.ltb_is_positive in Hc0.
    change (Prim2SF infinity) with (S754_infinity false) in Hfin.
    unfold SFltb in Hn, Hfin.
    destruct (Prim2SF h) as [s|s| |s mh eh]; try discriminate;
      destruct s; try discriminate.
    destruct (Prim2SF c) as [s|s| |s mc ec]; try contradiction;
      destruct s; try contradiction; try discriminate Hc1.
    cbn [valid_binary] in Hvh, Hvc.
    rewrite (OrderFacts.rank_compare m0 mh e0 eh Hb0 Hvh), Hr0 in Hn.
    assert (Hrank : (2 ^ 52 < rank (S754_finite false mh eh))%Z).
    { destruct (Z.compare_spec (2 ^ 52)
                  (rank (S754_finite false mh eh))); try discriminate.
      assumption. }
    destruct (RoundingFacts.below_power_fraction mc ec m1 e1 Hvc Hm1 He1 Hc1)
      as [Hec Hmc].
    cbn [SFmul xorb] in Hstuck.
    exact (StrictRounding.binary_round_aux_fraction_moves mh mc eh ec Hvh Hvc
             Hec Hmc (OrderFacts.rank_normal mh eh Hvh Hrank) Hstuck).
Qed.
(** A number strictly below another one is below infinity. *)
Lemma ltb_below_infinity (x y : float) :
  (x <? y) = true -> (x <? infinity) = true.
Proof.
  rewrite !ltb_spec. change (Prim2SF infinity) with (S754_infinity false).
  unfold SFltb. destruct (Prim2SF x) as [s|s| |s m e]; cbn;
    try discriminate; try reflexivity; destruct s; try reflexivity.
  destruct (Prim2SF y) as [s'|s'| |s' m' e']; try discriminate;
    destruct s'; discriminate.
Qed.

(** A finite number above a floor that is at least the smallest normal
    number is above the smallest normal number. *)
Lemma above_smallest_normal (m h : float) :
  (smallest_normal <=? m) = true -> (m <? h) = true ->
  (h <? infinity) = true -> (smallest_normal <? h) = true.
Proof.
  destruct smallest_normal_rank as (m0 & e0 & E0 & Hb0 & Hr0).
  pose proof (Prim2SF_valid m) as Hvm. pose proof (Prim2SF_valid h) as Hvh.
  rewrite leb_spec, !ltb_spec, E0.
  change (Prim2SF infinity) with (S754_infinity false).
  unfold SFleb, SFltb.
  destruct (Prim2SF m) as [s|s| |s mm em]; try discriminate;
    destruct s; try discriminate.
  - (* the floor is infinite *)
    destruct (Prim2SF h) as [s'|s'| |s' mh eh]; try discriminate;
      destruct s'; discriminate.
  - destruct (Prim2SF h) as [s'|s'| |s' mh eh]; try discriminate;
      destruct s'; try discriminate.
    cbn [valid_binary] in Hvm, Hvh.
    rewrite (OrderFacts.rank_compare m0 mm e0 em Hb0 Hvm).
    rewrite (OrderFacts.rank_compare mm mh em eh Hvm Hvh).
    rewrite (OrderFacts.rank_compare m0 mh e0 eh Hb0 Hvh).
    intros H1 H2 _.
    destruct (Z.compare_spec (rank (S754_finite false m0 e0))
                (rank (S754_finite false mm em))); try discriminate;
      destruct (Z.compare_spec (rank (S754_finite false mm em))
                  (rank (S754_finite false mh eh))); try discriminate;
      destruct (Z.compare_spec (rank (S754_finite false m0 e0))
                  (rank (S754_finite false mh eh))); try reflexivity; lia.
Qed.

(** With a floor that is at least the smallest normal number the loop ends
    after at most as many multiplications as the height has numbers of the
    format below it. *)
Lemma height_loop_terminates (m c : float) :
  (smallest_normal <=? m) = true -> (0 <? c) = true -> (c <? 1) = true ->
  forall (n : nat) (h : float) (acc : list float),
    (h <? infinity) = true ->
    (rank (Prim2SF h) <= Z.of_nat n)%Z ->
    exists l, Bounce.height_loop (S n) h m c acc = Some l.
Proof.
  intros Hm Hc0 Hc1. induction n as [|n IH]; intros h acc Hfin Hrank;
    cbn [Bounce.height_loop]; destruct (flt m h) eqn:G;
    try (eexists; reflexivity);
    pose proof (above_smallest_normal m h Hm G Hfin) as Hn;
    destruct (mul_fraction_lt h c Hn Hfin Hc0 Hc1)
      as (Hlt & Hbig & Hless).
  - assert (0 < 2 ^ 52)%Z by reflexivity. lia.
  - apply IH.
    + exact (ltb_below_infinity _ _ Hlt).
    + change (fmul h c) with (h * c). lia.
Qed.
End TerminationFacts.

(** In binary64 the loop of [calculate_height_values] ends whenever the
    initial height is finite and the minimum height is at least the smallest
    normal number, 2^-1022 (about 2.2e-308), for every coefficient
    strictly between 0 and 1: above that number every multiplication by the
    coefficient gives a strictly smaller height, and there are finitely
    many numbers.  The function returns its list with every amount of fuel
    from [enough_fuel_binary64] on.  (Below that number the heights can stop
    decreasing, and an infinite initial height never decreases.) *)
Theorem calculate_height_values_terminates :
  forall (initial_height minimum_height energy_loss_coefficient : float),
    (initial_height <? infinity)%float = true ->
    (smallest_normal <=? minimum_height)%float = true ->
    (0 <? energy_loss_coefficient)%float = true ->
    (energy_loss_coefficient <? 1)%float = true ->
    exists height_list,
      forall fuel, (enough_fuel_binary64 initial_height <= fuel)%nat ->
        Bounce.calculate_height_values fuel initial_height minimum_height
          energy_loss_coefficient = Some height_list.
Proof.
  intros h0 m c Hfin Hm Hc0 Hc1.
  destruct (TerminationFacts.height_loop_terminates m c Hm Hc0 Hc1
              (Z.to_nat (rank (Prim2SF h0))) h0 [] Hfin) as [l E].
  { pose proof (OrderFacts.rank_nonnegative h0). lia. }
  exists l. intros fuel Hfuel. unfold Bounce.calculate_height_values.
  replace fuel
    with (enough_fuel_binary64 h0 + (fuel - enough_fuel_binary64 h0))%nat
    by lia.
  apply (height_loop_more_fuel (H:=float_arith)). exact E.
Qed.

Lemma calculate_height_values_terminates_witness :
  (exists height_list,
     forall fuel, (enough_fuel_binary64 2 <= fuel)%nat ->
       Bounce.calculate_height_values fuel 2 0.01 0.5
       = Some height_list)%float.
Proof.
  apply (calculate_height_values_terminates 2 0.01 0.5)%float; reflexivity.
Defined.

(** ** The bouncy ball script as a whole *)

(** In binary64, whatever the user types, as long as no entry is "nan": when
    [main] reaches its end, the heights it computed start strictly below the
    initial height and are strictly decreasing, the number of bounces it
    prints is not negative and is the number of listed heights above the
    minimum height, and the last listed height is the only one at or below
    the minimum height. *)
Theorem main_without_nan :
  forall (fuel : nat) (np_sqrt : float -> float)
         (entries : list (option float)) (height_list : list float)
         (total_time : float),
    Forall entry_is_number entries ->
    Bounce.main fuel np_sqrt entries = Some (height_list, total_time) ->
    exists initial_height minimum_height energy_loss_coefficient above last,
      Bounce.read_inputs entries
      = Some (initial_height, minimum_height, energy_loss_coefficient)
      /\ strictly_decreasing (initial_height :: height_list)
      /\ height_list = above ++ [last]
      /\ Forall (fun h => (minimum_height <? h)%float = true) above
      /\ (last <=? minimum_height)%float = true
      /\ Bounce.reported_bounces height_list = Z.of_nat (length above)
      /\ total_time
         = Bounce.calculate_time_values np_sqrt initial_height height_list.
Proof.
  intros fuel np_sqrt entries l total Hall E. unfold Bounce.main in E.
  destruct (Bounce.read_inputs entries) as [[[h0 m] c]|] eqn:R;
    [|discriminate].
  destruct (read_inputs_accepted entries h0 m c Hall R)
    as ((A1 & N1) & (A2 & N2) & (A3 & N3)).
  apply initial_height_body_binary64 in A1.
  apply minimum_height_body_binary64 in A2.
  apply energy_loss_coefficient_body_binary64 in A3.
  assert (Hvalid : (0 <=? m)%float = true /\ (m <? h0)%float = true
                   /\ (0 <? c)%float = true /\ (c <? 1)%float = true)
    by intuition congruence.
  destruct Hvalid as (Hm0 & Hm & Hc0 & Hc1).
  destruct (Bounce.calculate_height_values fuel h0 m c) as [l'|] eqn:C;
    [|discriminate].
  injection E as <- <-. unfold Bounce.calculate_height_values in C.
  destruct (height_loop_decreasing_binary64 m c Hm0 Hc0 Hc1 fuel h0 [] l' C)
    as (p' & Ep & Hs). cbn [app] in Ep. subst p'.
  destruct (height_loop_shape (H:=float_arith) m c fuel h0 [] l' Hm C)
    as (p & last & previous & -> & Hp & Hl & Hin & Hprod). cbn [app] in *.
  exists h0, m, c, p, last.
  split; [reflexivity|]. split; [exact Hs|]. split; [reflexivity|].
  split; [exact (Forall_inv_tail Hp)|]. split.
  - assert (Hprev : (0 <? previous)%float = true).
    { apply (FloatFacts.above_floor_positive m previous Hm0).
      exact (proj1 (Forall_forall _ _) Hp previous Hin). }
    assert (Hnum : is_nan last = false).
    { rewrite Hprod.
      exact (FloatFacts.mul_fraction_not_nan previous c Hprev Hc0 Hc1). }
    assert (Hfloor : is_nan m = false).
    { destruct (is_nan m) eqn:N; [|reflexivity].
      now rewrite (FloatFacts.nan_leb_r 0 m N) in Hm0. }
    apply FloatFacts.ltb_false in Hl.
    destruct Hl as [Hl|[Hl|Hl]]; [exact Hl| |]; congruence.
  - split; [|reflexivity].
    unfold Bounce.reported_bounces. rewrite length_app. cbn [length]. lia.
Qed.

Lemma main_without_nan_witness :
  (exists height_list total_time initial_height,
     Bounce.main 20 PrimFloat.sqrt
       [None; Some (-1); Some 2; Some 3; Some 0.01; Some 1.5; Some 0.5]
     = Some (height_list, total_time)
     /\ strictly_decreasing (initial_height :: height_list)
     /\ (0 <= Bounce.reported_bounces height_list)%Z)%float.
Proof.
  assert (E : (exists height_list total_time,
            Bounce.main 20 PrimFloat.sqrt
              [None; Some (-1); Some 2; Some 3; Some 0.01; Some 1.5; Some 0.5]
            = Some (height_list, total_time))%float)
    by (do 2 eexists; reflexivity).
  destruct E as (height_list & total_time & E).
  destruct (main_without_nan 20 PrimFloat.sqrt
              [None; Some (-1); Some 2; Some 3; Some 0.01; Some 1.5; Some 0.5]
              height_list total_time)%float
    as (h0 & m & c & above & last & _ & Hs & _ & _ & _ & Hb & _).
  - repeat constructor.
  - exact E.
  - exists height_list, total_time, h0. split; [exact E|].
    split; [exact Hs|]. rewrite Hb. lia.
Defined.

(** In binary64 the bouncy ball script ends and reports whenever the user
    types numbers (no "nan"), the initial height accepted is finite and the
    minimum height accepted is at least the smallest normal number: [main]
    returns the heights and the total time with every amount of fuel from
    [enough_fuel_binary64] on. *)
Theorem main_returns :
  forall (np_sqrt : float -> float) (entries : list (option float))
         (initial_height minimum_height energy_loss_coefficient : float),
    Forall entry_is_number entries ->
    Bounce.read_inputs entries
    = Some (initial_height, minimum_height, energy_loss_coefficient) ->
    (initial_height <? infinity)%float = true ->
    (smallest_normal <=? minimum_height)%float = true ->
    exists height_list,
      forall fuel, (enough_fuel_binary64 initial_height <= fuel)%nat ->
        Bounce.main fuel np_sqrt entries
        = Some (height_list,
                Bounce.calculate_time_values np_sqrt initial_height
                  height_list).
Proof.
  intros np_sqrt entries h0 m c Hall R Hfin Hm.
  destruct (read_inputs_accepted entries h0 m c Hall R)
    as (_ & _ & (A3 & N3)).
  apply energy_loss_coefficient_body_binary64 in A3.
  assert (Hc : (0 <? c)%float = true /\ (c <? 1)%float = true)
    by intuition congruence.
  destruct Hc as [Hc0 Hc1].
  assert (Hrank : (rank (Prim2SF h0)
                   <= Z.of_nat (Z.to_nat (rank (Prim2SF h0))))%Z).
  { pose proof (OrderFacts.rank_nonnegative h0). lia. }
  destruct (TerminationFacts.height_loop_terminates m c Hm Hc0 Hc1
              (Z.to_nat (rank (Prim2SF h0))) h0 [] Hfin Hrank) as [l E].
  exists l. intros fuel Hfuel. unfold Bounce.main. rewrite R.
  unfold Bounce.calculate_height_values.
  replace fuel
    with (enough_fuel_binary64 h0 + (fuel - enough_fuel_binary64 h0))%nat
    by lia.
  now rewrite (height_loop_more_fuel (H:=float_arith) m c _ _ h0 [] l E).
Qed.

Lemma main_returns_witness :
  (exists height_list,
     forall fuel, (enough_fuel_binary64 2 <= fuel)%nat ->
       Bounce.main fuel PrimFloat.sqrt
         [None; Some (-1); Some 2; Some 3; Some 0.01; Some 1.5; Some 0.5]
       = Some (height_list,
               Bounce.calculate_time_values PrimFloat.sqrt 2 height_list))%float.
Proof.
  apply (main_returns PrimFloat.sqrt
           [None; Some (-1); Some 2; Some 3; Some 0.01; Some 1.5; Some 0.5]
           2 0.01 0.5)%float.
  - repeat constructor.
  - reflexivity.
  - reflexivity.
  - reflexivity.
Defined.
